(** * Verification of [scripts/index-vault.py]

    A shallow embedding of the semantic-index script of the memory vault
    (content hashing, the index store, the miss log, scan, update, search
    and stats) and the properties its specification states about it.

    Conventions of the embedding.
    - A Python [str] is a [string]; its characters are the code points
      below 256.  [str.lower] and [str.split] are the functions Python
      computes on that range.
    - [hashlib.sha256] is SHA-256 itself, checked below on the standard
      test vectors.
    - A value read from or written to a JSON file is a [json] tree.  A
      Python [dict] keeps its insertion order, so an object is an
      association list whose keys are pairwise distinct.  [json.dumps]
      and [json.loads] are a printer and a parser of their own, proved
      inverse on the values the script writes.
    - The file system, standard output and the clock form the [world];
      every command is a function in the state-and-exception monad [M].
      A file is a path with a node; what a document holds is the [str]
      that reading it in text mode gives.
    - The block under [if __name__ == '__main__'] is the function
      [main] of the argument list.  [cmd_misses] prints values of the
      log with an f-string; the embedding gives the text of a [str], an
      [int], [None], [True] and [False], which is all that a log written
      by [cmd_miss] holds.

    The file has the embedding first (strings, SHA-256, JSON, the world,
    the script), then the notions of the specification, then the proofs:
    the properties the specification states, further properties of the
    commands, and instances of both on sample vaults. *)

From Stdlib Require Import ZArith NArith QArith Qround String Ascii List Lia.
From Stdlib Require Import DecimalN Sorted.
From stdpp Require Import gmap strings list fin_maps sets.

Local Close Scope Q_scope.
Local Open Scope string_scope.
Local Open Scope list_scope.

(* ===================================================================== *)
(** * Strings *)
(* ===================================================================== *)

Module Str.

Definition chars (s : string) : list ascii := list_ascii_of_string s.
Definition of_chars (l : list ascii) : string := string_of_list_ascii l.

Definition code (c : ascii) : N := N_of_ascii c.

(** [c.isspace()] on the code points below 256: TAB, LF, VT, FF, CR, the
    four separators FS, GS, RS, US, the space, NEL and the no-break space. *)
Definition isspace (c : ascii) : bool :=
  let n := code c in
  ((9 <=? n) && (n <=? 13) || (28 <=? n) && (n <=? 32)
   || (n =? 133) || (n =? 160))%N.

(** [c.lower()]: the ASCII capitals and the Latin-1 capitals (all of
    U+00C0..U+00DE but the multiplication sign) move up by 32. *)
Definition lower_char (c : ascii) : ascii :=
  let n := code c in
  if ((65 <=? n) && (n <=? 90)
      || (192 <=? n) && (n <=? 222) && negb (n =? 215))%N
  then ascii_of_N (n + 32) else c.

(** [s.lower()] *)
Fixpoint lower (s : string) : string :=
  match s with
  | EmptyString => EmptyString
  | String c s' => String (lower_char c) (lower s')
  end.

(** [s.split()]: the maximal runs of characters that are not white
    space, in order; [cur] holds the run being read, reversed. *)
Fixpoint split_ws_aux (cur : list ascii) (s : string) : list string :=
  match s with
  | EmptyString =>
      match cur with [] => [] | _ => [of_chars (rev cur)] end
  | String c s' =>
      if isspace c
      then match cur with
           | [] => split_ws_aux [] s'
           | _ => of_chars (rev cur) :: split_ws_aux [] s'
           end
      else split_ws_aux (c :: cur) s'
  end.

Definition split (s : string) : list string := split_ws_aux [] s.

(** [s.split(sep)] for a one-character separator: every field, empty
    ones included. *)
Fixpoint split_on_aux (sep : ascii) (cur : list ascii) (s : string)
  : list string :=
  match s with
  | EmptyString => [of_chars (rev cur)]
  | String c s' =>
      if Ascii.eqb c sep
      then of_chars (rev cur) :: split_on_aux sep [] s'
      else split_on_aux sep (c :: cur) s'
  end.

Definition split_on (sep : ascii) (s : string) : list string :=
  split_on_aux sep [] s.

(** [s[:n]] *)
Definition prefix (n : nat) (s : string) : string := substring 0 n s.

(** [sep.join(l)] *)
Fixpoint join (sep : string) (l : list string) : string :=
  match l with
  | [] => ""
  | [x] => x
  | x :: l' => x ++ sep ++ join sep l'
  end.

Definition has_space (s : string) : bool := existsb isspace (chars s).

(** [s.lstrip()] *)
Fixpoint lstrip (s : string) : string :=
  match s with
  | EmptyString => EmptyString
  | String c s' => if isspace c then lstrip s' else s
  end.

(** [s.strip()]: without the white space at either end. *)
Definition strip (s : string) : string :=
  of_chars (rev (chars (lstrip (of_chars (rev (chars (lstrip s))))))).

(** [a <= b] on strings, code point by code point. *)
Definition leb (a b : string) : bool := String.leb a b.

End Str.

(* ===================================================================== *)
(** * SHA-256 (FIPS 180-4), as [hashlib.sha256] computes it *)
(* ===================================================================== *)

Module Sha256.
Local Open Scope N_scope.

Definition mask32 : N := 0xFFFFFFFF.
Definition add32 (x y : N) : N := N.land (x + y) mask32.
Definition rotr (n x : N) : N :=
  N.lor (N.shiftr x n) (N.land (N.shiftl x (32 - n)) mask32).
Definition not32 (x : N) : N := N.lxor x mask32.

Definition ch (x y z : N) : N :=
  N.lxor (N.land x y) (N.land (not32 x) z).
Definition maj (x y z : N) : N :=
  N.lxor (N.lxor (N.land x y) (N.land x z)) (N.land y z).
Definition big_sigma0 (x : N) : N :=
  N.lxor (N.lxor (rotr 2 x) (rotr 13 x)) (rotr 22 x).
Definition big_sigma1 (x : N) : N :=
  N.lxor (N.lxor (rotr 6 x) (rotr 11 x)) (rotr 25 x).
Definition small_sigma0 (x : N) : N :=
  N.lxor (N.lxor (rotr 7 x) (rotr 18 x)) (N.shiftr x 3).
Definition small_sigma1 (x : N) : N :=
  N.lxor (N.lxor (rotr 17 x) (rotr 19 x)) (N.shiftr x 10).

(** The first 64 primes. *)
Definition primes : list N :=
  [2; 3; 5; 7; 11; 13; 17; 19; 23; 29; 31; 37; 41; 43; 47; 53; 59; 61; 67;
   71; 73; 79; 83; 89; 97; 101; 103; 107; 109; 113; 127; 131; 137; 139; 149;
   151; 157; 163; 167; 173; 179; 181; 191; 193; 197; 199; 211; 223; 227;
   229; 233; 239; 241; 251; 257; 263; 269; 271; 277; 281; 283; 293; 307;
   311].

(** The integer cube root, found one bit at a time from the top. *)
Definition cube_root (n : N) : N :=
  fold_left (fun r i => let c := r + N.shiftl 1 i in
                        if c * c * c <=? n then c else r)
            (map N.of_nat (rev (seq 0 41))) 0.

(** The round constants are the first 32 bits of the fractional parts of
    the cube roots of the first 64 primes, the initial hash value those
    of the square roots of the first 8. *)
Definition round_constants : list N :=
  map (fun p => N.land (cube_root (N.shiftl p 96)) mask32) primes.

Definition initial_hash : list N :=
  map (fun p => N.land (N.sqrt (N.shiftl p 64)) mask32) (firstn 8 primes).

(** The message followed by the byte 0x80, zero bytes up to 56 modulo
    64, and the bit length as a 64-bit big-endian integer. *)
Definition be_bytes (width : nat) (x : N) : list N :=
  map (fun i => N.land (N.shiftr x (8 * N.of_nat i)) 0xFF)
      (rev (seq 0 width)).

Definition pad (msg : list N) : list N :=
  let len := length msg in
  let zeros := ((64 - (len + 9) mod 64) mod 64)%nat in
  msg ++ [0x80] ++ repeat 0 zeros ++ be_bytes 8 (8 * N.of_nat len).

Fixpoint be_words (fuel : nat) (bytes : list N) : list N :=
  match fuel, bytes with
  | S fuel', b0 :: b1 :: b2 :: b3 :: rest =>
      (N.shiftl b0 24 + N.shiftl b1 16 + N.shiftl b2 8 + b3)
        :: be_words fuel' rest
  | _, _ => []
  end.

Fixpoint chunks16 (fuel : nat) (ws : list N) : list (list N) :=
  match fuel, ws with
  | S fuel', _ :: _ => firstn 16 ws :: chunks16 fuel' (skipn 16 ws)
  | _, _ => []
  end.

(** The message schedule, newest word first. *)
Fixpoint schedule (n : nat) (rev_w : list N) : list N :=
  match n with
  | O => rev_w
  | S n' =>
      let w i := nth i rev_w 0 in
      let next :=
        add32 (add32 (small_sigma1 (w 1%nat)) (w 6%nat))
              (add32 (small_sigma0 (w 14%nat)) (w 15%nat)) in
      schedule n' (next :: rev_w)
  end.

Definition round (st : list N) (kw : N * N) : list N :=
  match st with
  | [a; b; c; d; e; f; g; h] =>
      let t1 :=
        add32 (add32 (add32 h (big_sigma1 e)) (add32 (ch e f g) (fst kw)))
              (snd kw) in
      let t2 := add32 (big_sigma0 a) (maj a b c) in
      [add32 t1 t2; a; b; c; add32 d t1; e; f; g]
  | _ => st
  end.

Definition compress (h : list N) (block : list N) : list N :=
  let w := rev (schedule 48 (rev block)) in
  let st := fold_left round (combine round_constants w) h in
  map (fun p => add32 (fst p) (snd p)) (combine h st).

Definition digest_words (msg : list N) : list N :=
  let bytes := pad msg in
  let ws := be_words (length bytes) bytes in
  fold_left compress (chunks16 (length ws) ws) initial_hash.

Definition hex_digit (n : N) : ascii :=
  if n <? 10 then ascii_of_N (48 + n) else ascii_of_N (87 + n).

Definition hex_word (x : N) : list ascii :=
  map (fun i => hex_digit (N.land (N.shiftr x (4 * N.of_nat i)) 0xF))
      (rev (seq 0 8)).

(** [text.encode()]: UTF-8, one byte below 128 and two bytes above. *)
Definition utf8_encode (s : string) : list N :=
  flat_map (fun c =>
              let n := Str.code c in
              if n <? 128 then [n]
              else [N.lor 0xC0 (N.shiftr n 6); N.lor 0x80 (N.land n 0x3F)])
           (Str.chars s).

(** [hashlib.sha256(bytes).hexdigest()] *)
Definition hexdigest (msg : list N) : string :=
  Str.of_chars (flat_map hex_word (digest_words msg)).

End Sha256.

(** [content_hash(text)]: the first 16 hexadecimal digits of the SHA-256
    of the UTF-8 encoding of the text. *)
Definition content_hash (text : string) : string :=
  Str.prefix 16 (Sha256.hexdigest (Sha256.utf8_encode text)).


(* ===================================================================== *)
(** * JSON values and Python's [json] module *)
(* ===================================================================== *)

(** What [json.load] returns and [json.dump] accepts.  A number read with
    a fraction or an exponent (and [NaN], [Infinity]) is a Python float;
    the store never computes with one, so it is kept as its literal. *)
#[local] Unset Elimination Schemes.
Inductive json : Type :=
| JNull
| JBool (b : bool)
| JInt (n : Z)
| JFloat (lit : string)
| JStr (s : string)
| JArr (items : list json)
| JObj (members : list (string * json)).
#[local] Set Elimination Schemes.

(** ** Python dictionaries, as insertion-ordered association lists *)
Module Dict.
Section Ops.
Context {A : Type}.

(** [d.get(k)] *)
Fixpoint get (k : string) (d : list (string * A)) : option A :=
  match d with
  | [] => None
  | (k', v) :: d' => if String.eqb k k' then Some v else get k d'
  end.

(** [d[k] = v]: an existing key keeps its place, a new one goes last. *)
Fixpoint set (k : string) (v : A) (d : list (string * A))
  : list (string * A) :=
  match d with
  | [] => [(k, v)]
  | (k', v') :: d' =>
      if String.eqb k k' then (k, v) :: d' else (k', v') :: set k v d'
  end.

Definition keys (d : list (string * A)) : list string := List.map fst d.
Definition values (d : list (string * A)) : list A := List.map snd d.

(** [dict(pairs)] *)
Definition of_pairs (pairs : list (string * A)) : list (string * A) :=
  fold_left (fun d kv => set (fst kv) (snd kv) d) pairs [].
End Ops.
End Dict.

Module Json.

Definition quote : ascii := "034"%char.
Definition backslash : ascii := "\"%char.
Definition newline : ascii := "010"%char.

(** *** Writing: [json.dumps(v, indent=2)] *)

Fixpoint uint_chars (d : Decimal.uint) : list ascii :=
  match d with
  | Decimal.Nil => []
  | Decimal.D0 d' => "0"%char :: uint_chars d'
  | Decimal.D1 d' => "1"%char :: uint_chars d'
  | Decimal.D2 d' => "2"%char :: uint_chars d'
  | Decimal.D3 d' => "3"%char :: uint_chars d'
  | Decimal.D4 d' => "4"%char :: uint_chars d'
  | Decimal.D5 d' => "5"%char :: uint_chars d'
  | Decimal.D6 d' => "6"%char :: uint_chars d'
  | Decimal.D7 d' => "7"%char :: uint_chars d'
  | Decimal.D8 d' => "8"%char :: uint_chars d'
  | Decimal.D9 d' => "9"%char :: uint_chars d'
  end.

Definition nat_chars (n : N) : list ascii := uint_chars (N.to_uint n).

Definition int_chars (z : Z) : list ascii :=
  match z with
  | Zneg p => "-"%char :: nat_chars (Npos p)
  | _ => nat_chars (Z.to_N z)
  end.

Definition hex_digit (n : N) : ascii :=
  if (n <? 10)%N then ascii_of_N (48 + n) else ascii_of_N (87 + n).

(** The default [ensure_ascii] encoder: the printable ASCII characters
    stand for themselves, except the quote and the backslash; seven
    characters have a short escape; every other one is written
    [\u00xx]. *)
Definition escape_char (c : ascii) : list ascii :=
  let n := Str.code c in
  if (n =? 34)%N then [backslash; quote]
  else if (n =? 92)%N then [backslash; backslash]
  else if (n =? 10)%N then [backslash; "n"%char]
  else if (n =? 13)%N then [backslash; "r"%char]
  else if (n =? 9)%N then [backslash; "t"%char]
  else if (n =? 8)%N then [backslash; "b"%char]
  else if (n =? 12)%N then [backslash; "f"%char]
  else if ((32 <=? n) && (n <=? 126))%N then [c]
  else [backslash; "u"%char; "0"%char; "0"%char;
        hex_digit (N.shiftr n 4); hex_digit (N.land n 15)].

Definition string_chars (s : string) : list ascii :=
  quote :: flat_map escape_char (Str.chars s) ++ [quote].

(** A line break followed by two spaces per nesting level. *)
Definition indent (level : nat) : list ascii :=
  newline :: repeat " "%char (2 * level).

Fixpoint dump (level : nat) (v : json) : list ascii :=
  match v with
  | JNull => Str.chars "null"
  | JBool true => Str.chars "true"
  | JBool false => Str.chars "false"
  | JInt z => int_chars z
  | JFloat lit => Str.chars lit
  | JStr s => string_chars s
  | JArr [] => Str.chars "[]"
  | JArr (x :: l) =>
      "["%char :: indent (S level) ++ dump (S level) x
      ++ concat (List.map (fun y => ","%char :: indent (S level)
                                     ++ dump (S level) y) l)
      ++ indent level ++ ["]"%char]
  | JObj [] => Str.chars "{}"
  | JObj (kv :: l) =>
      "{"%char :: indent (S level) ++ string_chars (fst kv)
      ++ ":"%char :: " "%char :: dump (S level) (snd kv)
      ++ concat (List.map (fun kv' => ","%char :: indent (S level)
                                       ++ string_chars (fst kv')
                                       ++ ":"%char :: " "%char
                                       :: dump (S level) (snd kv')) l)
      ++ indent level ++ ["}"%char]
  end.

Definition dumps (v : json) : string := Str.of_chars (dump 0 v).

(** *** Reading: [json.loads(text)] *)

Inductive token : Type :=
| TLBrace | TRBrace | TLBracket | TRBracket | TColon | TComma
| TNull | TTrue | TFalse
| TInt (z : Z) | TFloat (lit : string) | TStr (s : string).

Definition is_ws (c : ascii) : bool :=
  let n := Str.code c in
  ((n =? 32) || (n =? 9) || (n =? 10) || (n =? 13))%N.

Definition digit_of (c : ascii)
  : option (Decimal.uint -> Decimal.uint) :=
  match Str.code c with
  | 48%N => Some Decimal.D0 | 49%N => Some Decimal.D1
  | 50%N => Some Decimal.D2 | 51%N => Some Decimal.D3
  | 52%N => Some Decimal.D4 | 53%N => Some Decimal.D5
  | 54%N => Some Decimal.D6 | 55%N => Some Decimal.D7
  | 56%N => Some Decimal.D8 | 57%N => Some Decimal.D9
  | _ => None
  end.

Definition is_digit (c : ascii) : bool :=
  match digit_of c with Some _ => true | None => false end.

(** The longest run of decimal digits at the head of the input. *)
Fixpoint read_uint (cs : list ascii) : Decimal.uint * list ascii :=
  match cs with
  | [] => (Decimal.Nil, [])
  | c :: cs' =>
      match digit_of c with
      | Some k => let (d, rest) := read_uint cs' in (k d, rest)
      | None => (Decimal.Nil, cs)
      end
  end.

Definition hex_value (c : ascii) : option N :=
  let n := Str.code c in
  if ((48 <=? n) && (n <=? 57))%N then Some (n - 48)%N
  else if ((97 <=? n) && (n <=? 102))%N then Some (n - 87)%N
  else if ((65 <=? n) && (n <=? 70))%N then Some (n - 55)%N
  else None.

Definition hex4 (a b c d : ascii) : option N :=
  match hex_value a, hex_value b, hex_value c, hex_value d with
  | Some x, Some y, Some z, Some w =>
      Some (4096 * x + 256 * y + 16 * z + w)%N
  | _, _, _, _ => None
  end.

Definition unescape (c : ascii) : option ascii :=
  let n := Str.code c in
  if (n =? 34)%N then Some quote
  else if (n =? 92)%N then Some backslash
  else if (n =? 47)%N then Some "/"%char
  else if (n =? 98)%N then Some "008"%char
  else if (n =? 102)%N then Some "012"%char
  else if (n =? 110)%N then Some "010"%char
  else if (n =? 114)%N then Some "013"%char
  else if (n =? 116)%N then Some "009"%char
  else None.

Definition cons_fst {A B} (a : A) (r : option (list A * B))
  : option (list A * B) :=
  match r with Some (l, b) => Some (a :: l, b) | None => None end.

(** The body of a string literal, after its opening quote.  A control
    character is refused, as the strict decoder does; an escape
    [\uXXXX] of a code point of 256 or more is outside the characters
    of the embedding and is refused too. *)
Fixpoint lex_string (cs : list ascii) : option (list ascii * list ascii) :=
  match cs with
  | [] => None
  | c :: cs' =>
      if Ascii.eqb c quote then Some ([], cs')
      else if Ascii.eqb c backslash then
        match cs' with
        | [] => None
        | e :: cs'' =>
            if Ascii.eqb e "u"%char then
              match cs'' with
              | h1 :: h2 :: h3 :: h4 :: rest =>
                  match hex4 h1 h2 h3 h4 with
                  | Some n =>
                      if (n <? 256)%N
                      then cons_fst (ascii_of_N n) (lex_string rest)
                      else None
                  | None => None
                  end
              | _ => None
              end
            else
              match unescape e with
              | Some ch => cons_fst ch (lex_string cs'')
              | None => None
              end
        end
      else if (Str.code c <? 32)%N then None
      else cons_fst c (lex_string cs')
  end.

(** [0] or a digit run that does not start with [0]. *)
Definition canonical (d : Decimal.uint) : bool :=
  match d with
  | Decimal.Nil => false
  | Decimal.D0 Decimal.Nil => true
  | Decimal.D0 _ => false
  | _ => true
  end.

Definition nonempty (d : Decimal.uint) : bool :=
  match d with Decimal.Nil => false | _ => true end.

(** The optional fraction [.digits] and exponent [e±digits] after the
    integer part; [Some ([], cs)] when neither is there. *)
Definition lex_fraction (cs : list ascii)
  : option (list ascii * list ascii) :=
  match cs with
  | c :: cs' =>
      if Ascii.eqb c "."%char then
        let (d, rest) := read_uint cs' in
        if nonempty d then Some (c :: uint_chars d, rest) else None
      else Some ([], cs)
  | [] => Some ([], cs)
  end.

Definition lex_exponent (cs : list ascii)
  : option (list ascii * list ascii) :=
  match cs with
  | c :: cs' =>
      if Ascii.eqb c "e"%char || Ascii.eqb c "E"%char then
        let (sign, cs'') :=
          match cs' with
          | s :: r =>
              if Ascii.eqb s "+"%char || Ascii.eqb s "-"%char
              then ([s], r) else ([], cs')
          | [] => ([], cs')
          end in
        let (d, rest) := read_uint cs'' in
        if nonempty d then Some (c :: sign ++ uint_chars d, rest)
        else None
      else Some ([], cs)
  | [] => Some ([], cs)
  end.

(** A number at the head of the input: an integer, or a float when a
    fraction or an exponent follows. *)
Definition lex_number (cs : list ascii) : option (token * list ascii) :=
  let (neg, cs1) :=
    match cs with
    | c :: r => if Ascii.eqb c "-"%char then (true, r) else (false, cs)
    | [] => (false, cs)
    end in
  let (d, cs2) := read_uint cs1 in
  if canonical d then
    match lex_fraction cs2 with
    | Some (frac, cs3) =>
        match lex_exponent cs3 with
        | Some (exp, cs4) =>
            match frac, exp with
            | [], [] =>
                let n := Z.of_N (N.of_uint d) in
                Some (TInt (if neg then - n else n)%Z, cs4)
            | _, _ =>
                Some (TFloat (Str.of_chars
                                ((if neg then ["-"%char] else [])
                                 ++ uint_chars d ++ frac ++ exp)), cs4)
            end
        | None => None
        end
    | None => None
    end
  else None.

(** [Some rest] when the input starts with the given word. *)
Fixpoint strip (word cs : list ascii) : option (list ascii) :=
  match word, cs with
  | [], _ => Some cs
  | w :: word', c :: cs' =>
      if Ascii.eqb w c then strip word' cs' else None
  | _ :: _, [] => None
  end.

Definition cons_opt {A} (a : A) (r : option (list A)) : option (list A) :=
  match r with Some l => Some (a :: l) | None => None end.

Definition lex_word (cs : list ascii) : option (token * list ascii) :=
  match strip (Str.chars "null") cs with
  | Some r => Some (TNull, r)
  | None =>
  match strip (Str.chars "true") cs with
  | Some r => Some (TTrue, r)
  | None =>
  match strip (Str.chars "false") cs with
  | Some r => Some (TFalse, r)
  | None =>
  match strip (Str.chars "NaN") cs with
  | Some r => Some (TFloat "NaN", r)
  | None =>
  match strip (Str.chars "Infinity") cs with
  | Some r => Some (TFloat "Infinity", r)
  | None =>
  match strip (Str.chars "-Infinity") cs with
  | Some r => Some (TFloat "-Infinity", r)
  | None => lex_number cs
  end end end end end end.

(** The tokens of a text.  Every step takes at least one character, so
    [length cs] steps are enough. *)
Fixpoint lex (fuel : nat) (cs : list ascii) : option (list token) :=
  match cs with
  | [] => Some []
  | c :: cs' =>
      match fuel with
      | O => None
      | S fuel' =>
          if is_ws c then lex fuel' cs'
          else if Ascii.eqb c "{"%char then cons_opt TLBrace (lex fuel' cs')
          else if Ascii.eqb c "}"%char then cons_opt TRBrace (lex fuel' cs')
          else if Ascii.eqb c "["%char
          then cons_opt TLBracket (lex fuel' cs')
          else if Ascii.eqb c "]"%char
          then cons_opt TRBracket (lex fuel' cs')
          else if Ascii.eqb c ":"%char then cons_opt TColon (lex fuel' cs')
          else if Ascii.eqb c ","%char then cons_opt TComma (lex fuel' cs')
          else if Ascii.eqb c quote then
            match lex_string cs' with
            | Some (s, rest) =>
                cons_opt (TStr (Str.of_chars s)) (lex fuel' rest)
            | None => None
            end
          else
            match lex_word cs with
            | Some (t, rest) => cons_opt t (lex fuel' rest)
            | None => None
            end
      end
  end.

(** The recursive-descent parser over tokens; [acc] holds the items
    (or members) read so far, newest first. *)
Fixpoint parse_value (fuel : nat) (ts : list token)
  : option (json * list token) :=
  match fuel with
  | O => None
  | S fuel' =>
      match ts with
      | TNull :: r => Some (JNull, r)
      | TTrue :: r => Some (JBool true, r)
      | TFalse :: r => Some (JBool false, r)
      | TInt z :: r => Some (JInt z, r)
      | TFloat lit :: r => Some (JFloat lit, r)
      | TStr s :: r => Some (JStr s, r)
      | TLBracket :: TRBracket :: r => Some (JArr [], r)
      | TLBracket :: r =>
          match parse_value fuel' r with
          | Some (v, r') => parse_items fuel' [v] r'
          | None => None
          end
      | TLBrace :: TRBrace :: r => Some (JObj [], r)
      | TLBrace :: TStr k :: TColon :: r =>
          match parse_value fuel' r with
          | Some (v, r') => parse_members fuel' [(k, v)] r'
          | None => None
          end
      | _ => None
      end
  end
with parse_items (fuel : nat) (acc : list json) (ts : list token)
  : option (json * list token) :=
  match fuel with
  | O => None
  | S fuel' =>
      match ts with
      | TRBracket :: r => Some (JArr (rev acc), r)
      | TComma :: r =>
          match parse_value fuel' r with
          | Some (v, r') => parse_items fuel' (v :: acc) r'
          | None => None
          end
      | _ => None
      end
  end
with parse_members (fuel : nat) (acc : list (string * json))
                   (ts : list token) : option (json * list token) :=
  match fuel with
  | O => None
  | S fuel' =>
      match ts with
      | TRBrace :: r => Some (JObj (Dict.of_pairs (rev acc)), r)
      | TComma :: TStr k :: TColon :: r =>
          match parse_value fuel' r with
          | Some (v, r') => parse_members fuel' ((k, v) :: acc) r'
          | None => None
          end
      | _ => None
      end
  end.

(** [json.loads(text)]; [None] stands for [JSONDecodeError]. *)
Definition loads (text : string) : option json :=
  let cs := Str.chars text in
  match lex (length cs) cs with
  | Some ts =>
      match parse_value (S (length ts)) ts with
      | Some (v, []) => Some v
      | _ => None
      end
  | None => None
  end.

(** The tokens [dump] writes for a value. *)
Fixpoint tokens (v : json) : list token :=
  match v with
  | JNull => [TNull]
  | JBool true => [TTrue]
  | JBool false => [TFalse]
  | JInt z => [TInt z]
  | JFloat lit => [TFloat lit]
  | JStr s => [TStr s]
  | JArr [] => [TLBracket; TRBracket]
  | JArr (x :: l) =>
      TLBracket :: tokens x
      ++ concat (List.map (fun y => TComma :: tokens y) l)
      ++ [TRBracket]
  | JObj [] => [TLBrace; TRBrace]
  | JObj (kv :: l) =>
      TLBrace :: TStr (fst kv) :: TColon :: tokens (snd kv)
      ++ concat (List.map (fun kv' => TComma :: TStr (fst kv') :: TColon
                                       :: tokens (snd kv')) l)
      ++ [TRBrace]
  end.

(** The values a store written by this program holds: no float, and
    pairwise distinct keys in every object. *)
Fixpoint plain (v : json) : bool :=
  match v with
  | JFloat _ => false
  | JArr l => forallb plain l
  | JObj kvs =>
      bool_decide (NoDup (List.map fst kvs))
      && forallb (fun kv => plain (snd kv)) kvs
  | _ => true
  end.

(** *** Notions used to state the round trip *)

Definition not_digit_head (cs : list ascii) : Prop :=
  match cs with [] => True | c :: _ => is_digit c = false end.

(** What may follow an integer literal: nothing that continues it. *)
Definition number_end (cs : list ascii) : Prop :=
  match cs with
  | [] => True
  | c :: _ => is_digit c = false ∧ Ascii.eqb c "."%char = false
              ∧ Ascii.eqb c "e"%char = false ∧ Ascii.eqb c "E"%char = false
  end.

(** [lex] reads [cs] as [ts] within the fuel [loads] gives it. *)
Definition lexes (cs : list ascii) (ts : list token) : Prop :=
  ∃ n, (n ≤ length cs)%nat ∧ lex n cs = Some ts.

Definition lexes_as_tokens (v : json) : Prop :=
  plain v = true →
  ∀ level cs ts, number_end cs → lexes cs ts →
                 lexes (dump level v ++ cs) (tokens v ++ ts).

Definition parses_back (v : json) : Prop :=
  plain v = true →
  ∀ n rest, (length (tokens v) ≤ n)%nat →
            parse_value n (tokens v ++ rest) = Some (v, rest).

End Json.


(* ===================================================================== *)
(** * The world and the monad of commands *)
(* ===================================================================== *)

(** The exceptions the script can meet.  [sys.exit(n)] raises
    [SystemExit n]. *)
Inductive exn : Type :=
| FileNotFoundError | IsADirectoryError | NotADirectoryError
| FileExistsError | UnicodeDecodeError | JSONDecodeError
| KeyError | TypeError | AttributeError
| SystemExit (code : Z).

Inductive outcome (A : Type) : Type :=
| Ok (a : A)
| Raise (e : exn).
Arguments Ok {A} a.
Arguments Raise {A} e.

(** A regular file holds text, or bytes that are not text in the
    encoding [open(path, 'r')] decodes with (the lone byte 0xFF under
    UTF-8, say). *)
Inductive content : Type :=
| Text (s : string)
| Undecodable.

Inductive node : Type :=
| Dir
| File (c : content).

Record datetime : Type := {
  year : N; month : N; day : N;
  hour : N; minute : N; second : N; microsecond : N
}.

Record world : Type := {
  fs : gmap string node;        (* path -> node *)
  stdout : list string;         (* one item per [print] call *)
  clock : datetime              (* what [datetime.now(timezone.utc)] reads *)
}.

Definition M (A : Type) : Type := world -> outcome A * world.

Definition ret {A} (a : A) : M A := fun w => (Ok a, w).

Definition raise {A} (e : exn) : M A := fun w => (Raise e, w).

Definition bind {A B} (m : M A) (k : A -> M B) : M B :=
  fun w =>
    match m w with
    | (Ok a, w') => k a w'
    | (Raise e, w') => (Raise e, w')
    end.

Notation "'let*' x ':=' m 'in' k" := (bind m (fun x => k))
  (at level 10, x name, m at level 100, k at level 200).
Notation "m ;; k" := (bind m (fun _ => k))
  (at level 100, k at level 200, right associativity).

(** [try: m  except Exception as e: h e] *)
Definition catch {A} (m : M A) (h : exn -> M A) : M A :=
  fun w =>
    match m w with
    | (Raise e, w') => h e w'
    | r => r
    end.

(** [try: m  except (e1, e2, ...): h], the tuple given as a test; any
    other exception goes on. *)
Definition try_except {A} (m : M A) (caught : exn -> bool) (h : M A) : M A :=
  catch m (fun e => if caught e then h else raise e).

(** [for x in l: body x], stopping at the first exception. *)
Fixpoint for_each {A} (l : list A) (body : A -> M unit) : M unit :=
  match l with
  | [] => ret tt
  | x :: l' => body x ;; for_each l' body
  end.

(** The loop that builds a list: [acc] is the list before the loop, the
    body returns what it appends. *)
Fixpoint for_collect {A B} (l : list A) (body : A -> M (list B))
    (acc : list B) : M (list B) :=
  match l with
  | [] => ret acc
  | x :: l' => let* ys := body x in for_collect l' body (acc ++ ys)
  end.

Definition print (line : string) : M unit :=
  fun w => (Ok tt, {| fs := fs w; stdout := stdout w ++ [line];
                      clock := clock w |}).

Definition now_utc : M datetime := fun w => (Ok (clock w), w).

(** ** Paths and the file system *)

Definition VAULT_DIR : string := "memory".
Definition INDEX_FILE : string := "memory/meta/semantic-index.json".
Definition MISS_LOG_FILE : string := "memory/meta/miss-log.json".

Module Path.

Definition slash : ascii := "/"%char.

Fixpoint drop_while {A} (p : A -> bool) (l : list A) : list A :=
  match l with
  | x :: l' => if p x then drop_while p l' else l
  | [] => []
  end.

Fixpoint take_while {A} (p : A -> bool) (l : list A) : list A :=
  match l with
  | x :: l' => if p x then x :: take_while p l' else []
  | [] => []
  end.

(** [os.path.dirname]: up to the last slash, trailing slashes removed
    unless nothing else is left. *)
Definition dirname (p : string) : string :=
  let head := drop_while (fun c => negb (Ascii.eqb c slash))
                         (rev (Str.chars p)) in
  match drop_while (Ascii.eqb slash) head with
  | [] => Str.of_chars (rev head)
  | stripped => Str.of_chars (rev stripped)
  end.

(** [os.path.basename]: after the last slash. *)
Definition basename (p : string) : string :=
  Str.of_chars (rev (take_while (fun c => negb (Ascii.eqb c slash))
                                (rev (Str.chars p)))).

Definition starts_with_dot (s : string) : bool :=
  match s with
  | String c _ => Ascii.eqb c "."%char
  | EmptyString => false
  end.

Definition ends_with_md (s : string) : bool :=
  match rev (Str.chars s) with
  | d :: m :: dot :: _ =>
      Ascii.eqb d "d"%char && Ascii.eqb m "m"%char
      && Ascii.eqb dot "."%char
  | _ => false
  end.

(** The paths the pattern [memory/**/*.md] matches: below [memory],
    through any number of directories, no component empty or hidden,
    the last one ending in [.md]. *)
Definition matches_vault_md (p : string) : bool :=
  match Str.split_on slash p with
  | top :: c :: rest =>
      String.eqb top VAULT_DIR
      && forallb (fun x => negb (String.eqb x "")
                           && negb (starts_with_dot x)) (c :: rest)
      && ends_with_md (List.last rest c)
  | _ => false
  end.

End Path.

Definition lookup_node (path : string) : M (option node) :=
  fun w => (Ok (fs w !! path), w).

Definition set_node (path : string) (n : node) : M unit :=
  fun w => (Ok tt, {| fs := <[path := n]> (fs w); stdout := stdout w;
                      clock := clock w |}).

(** [os.path.isfile] *)
Definition isfile (path : string) : M bool :=
  let* n := lookup_node path in
  ret (match n with Some (File _) => true | _ => false end).

(** [os.path.isdir] *)
Definition isdir (path : string) : M bool :=
  let* n := lookup_node path in
  ret (match n with Some Dir => true | _ => false end).

(** [os.path.exists] *)
Definition exists_ (path : string) : M bool :=
  let* n := lookup_node path in
  ret (match n with Some _ => true | None => false end).

(** What opening a path needs of its parent directory; the current
    directory (an empty [dirname]) is always there. *)
Definition check_parent (path : string) : M unit :=
  let parent := Path.dirname path in
  if String.eqb parent "" then ret tt
  else
    let* n := lookup_node parent in
    match n with
    | Some Dir => ret tt
    | Some (File _) => raise NotADirectoryError
    | None => raise FileNotFoundError
    end.

(** [with open(path, 'r') as f: f.read()] *)
Definition read_text (path : string) : M string :=
  let* n := lookup_node path in
  match n with
  | None => raise FileNotFoundError
  | Some Dir => raise IsADirectoryError
  | Some (File Undecodable) => raise UnicodeDecodeError
  | Some (File (Text s)) => ret s
  end.

(** [with open(path, 'w') as f: f.write(text)] *)
Definition write_text (path : string) (text : string) : M unit :=
  check_parent path ;;
  let* n := lookup_node path in
  match n with
  | Some Dir => raise IsADirectoryError
  | _ => set_node path (File (Text text))
  end.

(** [os.mkdir] *)
Definition mkdir (path : string) : M unit :=
  let* n := lookup_node path in
  match n with
  | Some _ => raise FileExistsError
  | None => check_parent path ;; set_node path Dir
  end.

Definition is_os_error (e : exn) : bool :=
  match e with
  | FileNotFoundError | IsADirectoryError | NotADirectoryError
  | FileExistsError => true
  | _ => false
  end.

(** [os.makedirs(name, exist_ok=True)]: the missing ancestors first,
    then the directory; an error of [mkdir] is dropped when the
    directory is there.  The recursion follows [dirname], which gets
    shorter: the length of the name bounds it. *)
Fixpoint makedirs_fuel (fuel : nat) (name : string) : M unit :=
  let head := Path.dirname name in
  let tail := Path.basename name in
  (match fuel with
   | O => ret tt
   | S fuel' =>
       if negb (String.eqb head "") && negb (String.eqb tail "")
       then
         let* there := exists_ head in
         if there then ret tt
         else try_except (makedirs_fuel fuel' head)
                (fun e => match e with FileExistsError => true | _ => false end)
                (ret tt)
       else ret tt
   end) ;;
  catch (mkdir name)
    (fun e =>
       if is_os_error e then
         let* d := isdir name in
         if d then ret tt else raise e
       else raise e).

Definition makedirs (name : string) : M unit :=
  makedirs_fuel (String.length name) name.

(* ===================================================================== *)
(** * Python operations on JSON values *)
(* ===================================================================== *)

Module Py.

Definition nat_str (n : nat) : string :=
  Str.of_chars (Json.nat_chars (N.of_nat n)).

Definition nl : string := String Json.newline "".

(** A float literal is zero when its mantissa has no digit but [0]. *)
Definition float_is_zero (lit : string) : bool :=
  let mantissa :=
    Path.take_while (fun c => negb (Ascii.eqb c "e"%char
                                    || Ascii.eqb c "E"%char))
                    (Str.chars lit) in
  forallb (fun c => Ascii.eqb c "0"%char || Ascii.eqb c "."%char
                    || Ascii.eqb c "-"%char) mantissa.

(** [bool(v)] *)
Definition truthy (v : json) : bool :=
  match v with
  | JNull => false
  | JBool b => b
  | JInt n => negb (n =? 0)%Z
  | JFloat lit => negb (float_is_zero lit)
  | JStr s => negb (String.eqb s "")
  | JArr l => match l with [] => false | _ => true end
  | JObj d => match d with [] => false | _ => true end
  end.

(** [v[k]] for a string [k] *)
Definition getitem (v : json) (k : string) : M json :=
  match v with
  | JObj d =>
      match Dict.get k d with
      | Some x => ret x
      | None => raise KeyError
      end
  | _ => raise TypeError
  end.

(** [v.get(k, default)] *)
Definition get (v : json) (k : string) (default : json) : M json :=
  match v with
  | JObj d =>
      ret (match Dict.get k d with Some x => x | None => default end)
  | _ => raise AttributeError
  end.

(** [v.items()] *)
Definition items (v : json) : M (list (string * json)) :=
  match v with
  | JObj d => ret d
  | _ => raise AttributeError
  end.

(** [v.values()] *)
Definition values (v : json) : M (list json) :=
  match v with
  | JObj d => ret (Dict.values d)
  | _ => raise AttributeError
  end.

(** [len(v)] *)
Definition len (v : json) : M nat :=
  match v with
  | JObj d => ret (length d)
  | JArr l => ret (length l)
  | JStr s => ret (String.length s)
  | _ => raise TypeError
  end.

(** [iter(v)]: the items of a list, the characters of a string, the
    keys of a dictionary. *)
Definition iter (v : json) : M (list json) :=
  match v with
  | JArr l => ret l
  | JStr s => ret (List.map (fun c => JStr (String c "")) (Str.chars s))
  | JObj d => ret (List.map JStr (Dict.keys d))
  | _ => raise TypeError
  end.

(** [v.lower()] *)
Definition lower (v : json) : M string :=
  match v with
  | JStr s => ret (Str.lower s)
  | _ => raise AttributeError
  end.

(** [v.lower().split()] *)
Definition lower_split (v : json) : M (list string) :=
  let* s := lower v in ret (Str.split s).

(** [v[:n]] inside an f-string, for the one use the script makes of
    it, on a [str]. *)
Definition str_prefix (n : nat) (v : json) : M string :=
  match v with
  | JStr s => ret (Str.prefix n s)
  | _ => raise TypeError
  end.

(** [v == s] for a string [s] *)
Definition eq_str (v : json) (s : string) : bool :=
  match v with
  | JStr s' => String.eqb s' s
  | _ => false
  end.

(** [v.append(x)] *)
Definition append (v x : json) : M json :=
  match v with
  | JArr l => ret (JArr (l ++ [x]))
  | _ => raise AttributeError
  end.

(** [index['entries'][k] = x]: the dictionary under ['entries'] is
    changed in place, inside the index that holds it. *)
Definition set_entry (index : json) (k : string) (x : json) : M json :=
  let* entries := getitem index "entries" in
  match entries, index with
  | JObj d, JObj members =>
      ret (JObj (Dict.set "entries" (JObj (Dict.set k x d)) members))
  | _, _ => raise TypeError
  end.

Fixpoint map_M {A B} (f : A -> M B) (l : list A) : M (list B) :=
  match l with
  | [] => ret []
  | x :: l' =>
      let* y := f x in
      let* ys := map_M f l' in
      ret (y :: ys)
  end.

(** [json.loads(text)] *)
Definition json_loads (text : string) : M json :=
  match Json.loads text with
  | Some v => ret v
  | None => raise JSONDecodeError
  end.

(** [set(k.lower() for k in v)] *)
Definition lower_set (v : json) : M (gset string) :=
  let* ks := iter v in
  let* ls := map_M lower ks in
  ret (list_to_set ls).

End Py.

(** ** Sorting *)

Section Sort.
Context {A : Type} (leb : A -> A -> bool).

Fixpoint insert_sorted (x : A) (l : list A) : list A :=
  match l with
  | [] => [x]
  | y :: l' => if leb x y then x :: l else y :: insert_sorted x l'
  end.

(** A stable sort: of two items neither of which is below the other,
    the one that came first stays first.  [list.sort] and [sorted] are
    stable, and a stable sort has one possible result. *)
Fixpoint stable_sort (l : list A) : list A :=
  match l with
  | [] => []
  | x :: l' => insert_sorted x (stable_sort l')
  end.
End Sort.

(** [sorted(l)] for strings *)
Definition sorted_strings (l : list string) : list string :=
  stable_sort Str.leb l.

(** ** Scores *)

(** A score is [int + int * 0.5], a float that is a multiple of one half;
    such floats are exact, and the rational with the same value stands
    for it. *)
Definition score_value (kw_overlap summary_overlap : nat) : Q :=
  (inject_Z (Z.of_nat kw_overlap)
   + inject_Z (Z.of_nat summary_overlap) * (1 # 2))%Q.

Definition score_positive (score : Q) : bool := negb (Qle_bool score 0).

(** The order [results.sort(key=lambda x: -x[0])] sorts by. *)
Definition by_score_desc (a b : Q * string * json) : bool :=
  Qle_bool (- fst (fst a)) (- fst (fst b)).

(** [f'{score:.1f}'], which is also [repr(score)] while the score is
    below 1e16: with a multiple of one half the decimal is exact. *)
Definition format_score (score : Q) : string :=
  let tenths := Qfloor (score * (10 # 1)) in
  Str.of_chars (Json.int_chars (tenths / 10)
                ++ "."%char :: Json.int_chars (tenths mod 10)).

(** ** Time *)

Definition pad_num (width : nat) (n : N) : string :=
  let cs := Json.nat_chars n in
  Str.of_chars (repeat "0"%char (width - length cs) ++ cs).

(** [d.isoformat()] for a [datetime] in UTC *)
Definition isoformat (d : datetime) : string :=
  pad_num 4 (year d) ++ "-" ++ pad_num 2 (month d) ++ "-"
  ++ pad_num 2 (day d) ++ "T" ++ pad_num 2 (hour d) ++ ":"
  ++ pad_num 2 (minute d) ++ ":" ++ pad_num 2 (second d)
  ++ (if (microsecond d =? 0)%N then ""
      else "." ++ pad_num 6 (microsecond d))
  ++ "+00:00".

(* ===================================================================== *)
(** * The script *)
(* ===================================================================== *)

Definition empty_index : json :=
  JObj [("version", JInt 1); ("entries", JObj [])].

Definition missing_or_corrupt (e : exn) : bool :=
  match e with
  | FileNotFoundError | JSONDecodeError => true
  | _ => false
  end.

(** [load_index()] *)
Definition load_index : M json :=
  try_except
    (let* text := read_text INDEX_FILE in Py.json_loads text)
    missing_or_corrupt
    (ret empty_index).

(** [save_index(index)] *)
Definition save_index (index : json) : M unit :=
  makedirs (Path.dirname INDEX_FILE) ;;
  write_text INDEX_FILE (Json.dumps index).

(** [vault_files()] *)
Definition vault_files : M (list string) :=
  fun w =>
    (Ok (sorted_strings
           (List.filter Path.matches_vault_md
                        (List.map fst (map_to_list (fs w))))), w).

(** The body of the loop of [cmd_scan]: what one file appends to
    [needs_indexing]. *)
Definition scan_document (index : json) (fpath : string) : M (list string) :=
  let* text := read_text fpath in
  let h := content_hash text in
  let* entries := Py.getitem index "entries" in
  let* entry := Py.get entries fpath JNull in
  let* current :=
    if Py.truthy entry then
      let* stored := Py.get entry "content_hash" JNull in
      ret (Py.eq_str stored h)
    else ret false in
  if current then ret []
  else
    print ("NEEDS_INDEX: " ++ fpath) ;;
    print ("  hash: " ++ h) ;;
    for_each (firstn 5 (Str.split_on Json.newline text))
             (fun line => print ("  | " ++ line)) ;;
    print "" ;;
    ret [fpath].

(** [cmd_scan()] *)
Definition cmd_scan : M (list string) :=
  let* index := load_index in
  let* files := vault_files in
  let* needs_indexing := for_collect files (scan_document index) [] in
  match needs_indexing with
  | [] => print "All files indexed and up to date."
  | _ => print (Py.nl ++ Py.nat_str (length needs_indexing)
                ++ " file(s) need indexing.")
  end ;;
  ret needs_indexing.

(** The entry [cmd_update] stores. *)
Definition make_entry (fpath hash summary : string)
    (keywords related : list string) : json :=
  JObj [("source_path", JStr fpath);
        ("content_hash", JStr hash);
        ("summary", JStr summary);
        ("keywords", JArr (List.map JStr keywords));
        ("related", JArr (List.map JStr related))].

(** [cmd_update(fpath, summary, keywords, related=None)] *)
Definition cmd_update (fpath summary : string) (keywords : list string)
    (related : option (list string)) : M unit :=
  let* found := isfile fpath in
  if negb found then
    print ("Error: file not found: " ++ fpath) ;;
    raise (SystemExit 1)
  else
    let* index := load_index in
    let* text := read_text fpath in
    let* index' :=
      Py.set_entry index fpath
        (make_entry fpath (content_hash text) summary keywords
                    (match related with Some l => l | None => [] end)) in
    save_index index' ;;
    print ("Indexed: " ++ fpath ++ " (" ++ Py.nat_str (length keywords)
           ++ " keywords)").

(** [set(query.lower().split())] *)
Definition query_terms_of (query : string) : gset string :=
  list_to_set (Str.split (Str.lower query)).

(** The score the loop body computes for one entry, the same text in
    both search commands. *)
Definition entry_score (query_terms : gset string) (entry : json) : M Q :=
  let* kws := Py.get entry "keywords" (JArr []) in
  let* entry_terms := Py.lower_set kws in
  let* summary := Py.get entry "summary" (JStr "") in
  let* words := Py.lower_split summary in
  let summary_terms : gset string := list_to_set words in
  let kw_overlap := size (query_terms ∩ entry_terms) in
  let summary_overlap := size (query_terms ∩ summary_terms) in
  ret (score_value kw_overlap summary_overlap).

(** The loop body: what one entry appends to [results]. *)
Definition score_entry (query_terms : gset string) (fpath : string)
    (entry : json) : M (list (Q * string * json)) :=
  let* score := entry_score query_terms entry in
  if score_positive score then ret [(score, fpath, entry)] else ret [].

(** [query_terms & set(k.lower() for k in entry.get('keywords', []))] *)
Definition matched_keywords (query_terms : gset string) (entry : json)
  : M (gset string) :=
  let* kws := Py.get entry "keywords" (JArr []) in
  let* entry_terms := Py.lower_set kws in
  ret (query_terms ∩ entry_terms).

(** [cmd_search(query)] *)
Definition cmd_search (query : string) : M (list (Q * string * json)) :=
  let* index := load_index in
  let query_terms := query_terms_of query in
  let* entries := Py.getitem index "entries" in
  let* pairs := Py.items entries in
  let* found :=
    for_collect pairs (fun kv => score_entry query_terms (fst kv) (snd kv))
                [] in
  let results := stable_sort by_score_desc found in
  match results with
  | [] => print ("No matches for: " ++ query) ;; ret []
  | _ =>
      print ("Results for: " ++ query ++ Py.nl) ;;
      for_each (firstn 10 results)
        (fun r =>
           let '(score, fpath, entry) := r in
           print ("  [" ++ format_score score ++ "] " ++ fpath) ;;
           (let* summary := Py.get entry "summary" (JStr "") in
            let* shown := Py.str_prefix 100 summary in
            print ("        " ++ shown)) ;;
           (let* matched := matched_keywords query_terms entry in
            if decide (matched = ∅) then ret tt
            else print ("        matched keywords: "
                        ++ Str.join ", " (sorted_strings (elements matched)))) ;;
           print "") ;;
      ret results
  end.

(** One item of ['candidates'] in the structured output. *)
Record candidate : Type := {
  cand_path : string;
  keyword_score : Q;
  cand_summary : json;
  cand_keywords : json;
  cand_matched : list string;
  cand_related : json
}.

(** The dictionary [cmd_search_json] returns. *)
Record search_output : Type := {
  out_query : string;
  out_query_terms : list string;
  candidate_count : nat;
  candidates : list candidate
}.

Definition candidate_json (c : candidate) : json :=
  JObj [("path", JStr (cand_path c));
        ("keyword_score", JFloat (format_score (keyword_score c)));
        ("summary", cand_summary c);
        ("keywords", cand_keywords c);
        ("matched_keywords", JArr (List.map JStr (cand_matched c)));
        ("related", cand_related c)].

Definition output_json (o : search_output) : json :=
  JObj [("query", JStr (out_query o));
        ("query_terms", JArr (List.map JStr (out_query_terms o)));
        ("candidate_count", JInt (Z.of_nat (candidate_count o)));
        ("candidates", JArr (List.map candidate_json (candidates o)))].

(** [cmd_search_json(query, top_n=10)] *)
Definition cmd_search_json (query : string) (top_n : nat)
  : M search_output :=
  let* index := load_index in
  let query_terms := query_terms_of query in
  let* entries := Py.getitem index "entries" in
  let* pairs := Py.items entries in
  let* found :=
    for_collect pairs (fun kv => score_entry query_terms (fst kv) (snd kv))
                [] in
  let results := stable_sort by_score_desc found in
  let* cands :=
    Py.map_M
      (fun r =>
         let '(score, fpath, entry) := r in
         let* matched := matched_keywords query_terms entry in
         let* summary := Py.get entry "summary" (JStr "") in
         let* kws := Py.get entry "keywords" (JArr []) in
         let* related := Py.get entry "related" (JArr []) in
         ret {| cand_path := fpath;
                keyword_score := score;
                cand_summary := summary;
                cand_keywords := kws;
                cand_matched := sorted_strings (elements matched);
                cand_related := related |})
      (firstn top_n results) in
  let output :=
    {| out_query := query;
       out_query_terms := sorted_strings (elements query_terms);
       candidate_count := length cands;
       candidates := cands |} in
  print (Json.dumps (output_json output)) ;;
  ret output.

(** The record [cmd_miss] appends. *)
Definition miss_record (timestamp query expected_path reason : string)
  : json :=
  JObj [("timestamp", JStr timestamp);
        ("query", JStr query);
        ("expected_path", JStr expected_path);
        ("reason", JStr reason)].

(** [cmd_miss(query, expected_path, reason='')] *)
Definition cmd_miss (query expected_path reason : string) : M unit :=
  let* log :=
    try_except
      (let* text := read_text MISS_LOG_FILE in Py.json_loads text)
      missing_or_corrupt
      (ret (JArr [])) in
  let* t := now_utc in
  let* log' :=
    Py.append log (miss_record (isoformat t) query expected_path reason) in
  makedirs (Path.dirname MISS_LOG_FILE) ;;
  write_text MISS_LOG_FILE (Json.dumps log') ;;
  print ("Logged miss: query='" ++ query ++ "' expected='"
         ++ expected_path ++ "'").

(** [all_keywords.update(k.lower() for k in entry.get('keywords', []))]
    over the entries, from the empty set. *)
Fixpoint collect_keywords (entries : list json) (acc : gset string)
  : M (gset string) :=
  match entries with
  | [] => ret acc
  | entry :: rest =>
      let* kws := Py.get entry "keywords" (JArr []) in
      let* ks := Py.lower_set kws in
      collect_keywords rest (acc ∪ ks)
  end.

(** [[p for p in entries if not os.path.isfile(p)]] *)
Fixpoint stale_paths (paths : list json) : M (list string) :=
  match paths with
  | [] => ret []
  | JStr p :: rest =>
      let* there := isfile p in
      let* more := stale_paths rest in
      ret (if there then more else p :: more)
  | _ :: _ => raise TypeError
  end.

(** The end of [cmd_stats]: the size of the miss log, when there is one. *)
Definition log_miss_count : M unit :=
  try_except
    (let* text := read_text MISS_LOG_FILE in
     let* misses := Py.json_loads text in
     let* n := Py.len misses in
     print ("Logged misses:    " ++ Py.nat_str n))
    missing_or_corrupt
    (ret tt).

(** [cmd_stats()] *)
Definition cmd_stats : M unit :=
  let* index := load_index in
  let* entries := Py.get index "entries" (JObj []) in
  let* files := vault_files in
  let total_files := length files in
  let* indexed := Py.len entries in
  let* each := Py.values entries in
  let* all_keywords := collect_keywords each ∅ in
  let* paths := Py.iter entries in
  let* stale := stale_paths paths in
  print ("Vault files:      " ++ Py.nat_str total_files) ;;
  print ("Indexed:          " ++ Py.nat_str indexed) ;;
  print ("Unique keywords:  " ++ Py.nat_str (size all_keywords)) ;;
  match stale with
  | [] => ret tt
  | _ => print ("Stale entries:    " ++ Py.nat_str (length stale)
                ++ " (indexed file no longer exists)")
  end ;;
  (if decide (all_keywords = ∅) then ret tt
   else print ("Sample keywords:  "
               ++ Str.join ", "
                    (firstn 20 (sorted_strings (elements all_keywords))))) ;;
  log_miss_count.

(** ** The commands that only show *)

(** [cmd_file(fpath)] *)
Definition cmd_file (fpath : string) : M unit :=
  let* found := isfile fpath in
  if negb found then
    print ("Error: file not found: " ++ fpath) ;;
    raise (SystemExit 1)
  else
    let* text := read_text fpath in
    print text ;;
    print (Py.nl ++ "Content hash: " ++ content_hash text).

(** [f'{v}'] for the values whose text is fixed by their JSON form: a
    [str] is put as it is, an [int] in decimal, [None], [True] and
    [False] by name.  The text of a float, a list or a dictionary is not
    part of the embedding; a miss log written by [cmd_miss] holds none
    under the keys that are shown. *)
Definition format_value (v : json) : M string :=
  match v with
  | JStr s => ret s
  | JInt z => ret (Str.of_chars (Json.int_chars z))
  | JNull => ret "None"
  | JBool true => ret "True"
  | JBool false => ret "False"
  | _ => raise TypeError
  end.

(** The body of the loop of [cmd_misses]: the lines of one record. *)
Definition show_miss (entry : json) : M unit :=
  let* timestamp := Py.get entry "timestamp" (JStr "?") in
  let* date := Py.str_prefix 10 timestamp in
  let* query := Py.getitem entry "query" in
  let* query_text := format_value query in
  print ("  [" ++ date ++ "] query: " ++ query_text) ;;
  let* expected := Py.getitem entry "expected_path" in
  let* expected_text := format_value expected in
  print ("    expected: " ++ expected_text) ;;
  let* reason := Py.get entry "reason" JNull in
  (if Py.truthy reason then
     let* reason' := Py.getitem entry "reason" in
     let* reason_text := format_value reason' in
     print ("    reason: " ++ reason_text)
   else ret tt) ;;
  print "".

(** [cmd_misses()]; the [return] of the [except] branch is the [None]
    that ends the command. *)
Definition cmd_misses : M unit :=
  let* read :=
    try_except
      (let* text := read_text MISS_LOG_FILE in
       let* log := Py.json_loads text in
       ret (Some log))
      missing_or_corrupt
      (print "No misses logged yet." ;; ret None) in
  match read with
  | None => ret tt
  | Some log =>
      let* n := Py.len log in
      print ("Miss log: " ++ Py.nat_str n ++ " entries" ++ Py.nl) ;;
      let* entries := Py.iter log in
      for_each entries show_miss
  end.

(** ** The command line *)

Definition USAGE : string :=
  "Usage: index-vault.py <command> [args]

Commands:
  scan                              Find files needing indexing
  file <path>                       Print file content + hash
  search <query>                    Search by keyword overlap
  search-json <query>               Search with JSON output for reranking
  update <path> <summary> <kw-csv>  Update index entry
  miss <query> <expected> [reason]  Log a search miss
  misses                            Show miss log
  stats                             Show index statistics
".

(** [print(line); sys.exit(1)] *)
Definition usage_error (line : string) : M unit :=
  print line ;; raise (SystemExit 1).

(** [[k.strip() for k in field.split(',')]] *)
Definition csv_fields (field : string) : list string :=
  List.map Str.strip (Str.split_on ","%char field).

(** The block under [if __name__ == '__main__'], [argv] being
    [sys.argv]. *)
Definition main (argv : list string) : M unit :=
  match argv with
  | [] | [_] => usage_error USAGE
  | _ :: cmd :: args =>
      if String.eqb cmd "scan" then cmd_scan ;; ret tt
      else if String.eqb cmd "file" then
        match args with
        | [] => usage_error "Usage: index-vault.py file <path>"
        | fpath :: _ => cmd_file fpath
        end
      else if String.eqb cmd "search" then
        match args with
        | [] => usage_error "Usage: index-vault.py search <query>"
        | _ => cmd_search (Str.join " " args) ;; ret tt
        end
      else if String.eqb cmd "search-json" then
        match args with
        | [] => usage_error "Usage: index-vault.py search-json <query>"
        | _ => cmd_search_json (Str.join " " args) 10 ;; ret tt
        end
      else if String.eqb cmd "update" then
        match args with
        | fpath :: summary :: kw_csv :: rest =>
            let keywords := csv_fields kw_csv in
            let related :=
              match rest with
              | related_csv :: _ => csv_fields related_csv
              | [] => []
              end in
            cmd_update fpath summary keywords (Some related)
        | _ =>
            usage_error
              "Usage: index-vault.py update <path> <summary> <keywords-csv> [related-csv]"
        end
      else if String.eqb cmd "miss" then
        match args with
        | query :: expected_path :: rest =>
            cmd_miss query expected_path
                     (match rest with reason :: _ => reason | [] => "" end)
        | _ =>
            usage_error
              "Usage: index-vault.py miss <query> <expected-path> [reason]"
        end
      else if String.eqb cmd "misses" then cmd_misses
      else if String.eqb cmd "stats" then cmd_stats
      else
        print ("Unknown command: " ++ cmd) ;;
        usage_error USAGE
  end.

(* ===================================================================== *)
(** * The data model of the specification *)
(* ===================================================================== *)

(** An IndexEntry. *)
Record entry : Type := {
  source_path : string;
  stored_hash : string;
  summary : string;
  keywords : list string;
  related : list string
}.

Definition entry_json (e : entry) : json :=
  make_entry (source_path e) (stored_hash e) (summary e) (keywords e)
             (related e).

(** The Index with format version 1 and the given entries. *)
Definition index_json (entries : list (string * entry)) : json :=
  JObj [("version", JInt 1);
        ("entries",
         JObj (List.map (fun pe => (fst pe, entry_json (snd pe))) entries))].

(** ** Worlds and stores *)

(** The world after some more lines were printed. *)
Definition printed (w : world) (lines : list string) : world :=
  {| fs := fs w; stdout := stdout w ++ lines; clock := clock w |}.

(** The world with another file system. *)
Definition with_fs (w : world) (m : gmap string node) : world :=
  {| fs := m; stdout := stdout w; clock := clock w |}.

(** The file system after a store file was written: the two directories
    are there and the file holds the text. *)
Definition stored (file text : string) (m : gmap string node)
  : gmap string node :=
  <[file := File (Text text)]> (<["memory/meta" := Dir]> (<["memory" := Dir]> m)).

(** The Index Store holds the index [entries]: that is what [load_index]
    reads, be it from a file or, with no file or an unparsable one, the
    empty index. *)
Definition store_holds (w : world) (entries : list (string * entry)) : Prop :=
  NoDup (List.map fst entries)
  ∧ load_index w = (Ok (index_json entries), w).

(** [path] is a regular file. *)
Definition file_exists (w : world) (path : string) : bool :=
  match fs w !! path with
  | Some (File _) => true
  | _ => false
  end.

(** The IndexEntry an update with these arguments stands for, the
    document holding [text]. *)
Definition updated_entry (fpath text summary : string)
    (keywords : list string) (related : option (list string)) : entry :=
  {| source_path := fpath;
     stored_hash := content_hash text;
     summary := summary;
     keywords := keywords;
     related := match related with Some l => l | None => [] end |}.

(** The Miss Log Store holds the records [log]: no file (or an
    unparsable one) and no record, or a file with that list. *)
Definition miss_log_holds (w : world) (log : list json) : Prop :=
  try_except (let* text := read_text MISS_LOG_FILE in Py.json_loads text)
             missing_or_corrupt (ret (JArr [])) w
  = (Ok (JArr log), w).

(** A directory can be made at [path]: nothing is there, or a
    directory. *)
Definition dir_or_free (w : world) (path : string) : bool :=
  match fs w !! path with
  | None | Some Dir => true
  | Some (File _) => false
  end.

(** The store files can be written: [memory] and [memory/meta] are
    directories or free, and [file] is not a directory. *)
Definition writable (w : world) (file : string) : bool :=
  dir_or_free w "memory" && dir_or_free w "memory/meta"
  && match fs w !! file with Some Dir => false | _ => true end.

(** The documents of the collection: what [vault_files] lists. *)
Definition is_document (w : world) (path : string) : Prop :=
  Path.matches_vault_md path = true ∧ is_Some (fs w !! path).

(** The text of a regular file. *)
Definition text_of (w : world) (path : string) : option string :=
  match fs w !! path with
  | Some (File (Text t)) => Some t
  | _ => None
  end.

(** Every document is a text file. *)
Definition documents_readable (w : world) : Prop :=
  ∀ path, is_document w path → is_Some (text_of w path).

(** Section 4.4: a document needs indexing if it has no entry, or its
    stored hash differs from its live hash. *)
Definition needs_indexing (entries : list (string * entry))
    (path text : string) : bool :=
  match Dict.get path entries with
  | None => true
  | Some e => negb (String.eqb (stored_hash e) (content_hash text))
  end.

(** Section 4.6, step by step: the query terms, lowercased and
    deduplicated; the lowercased keywords; the lowercased words of the
    summary; one point per term among the keywords and half a point per
    term among the summary words. *)
Definition spec_query_terms (query : string) : list string :=
  remove_dups (Str.split (Str.lower query)).

Definition spec_keyword_matches (query : string) (kws : list string) : nat :=
  length (filter (λ t, t ∈ List.map Str.lower kws) (spec_query_terms query)).

Definition spec_summary_matches (query : string) (text : string) : nat :=
  length (filter (λ t, t ∈ Str.split (Str.lower text))
                 (spec_query_terms query)).

Definition spec_score (query : string) (e : entry) : Q :=
  (inject_Z (Z.of_nat (spec_keyword_matches query (keywords e)))
   + inject_Z (Z.of_nat (spec_summary_matches query (summary e))) * (1 # 2))%Q.

(** ** The scan, as a function of the world *)

(** The documents [vault_files] lists, in its order. *)
Definition vault_listing (w : world) : list string :=
  sorted_strings (List.filter Path.matches_vault_md
                              (List.map fst (map_to_list (fs w)))).

(** Whether the scan reports a document: Section 4.4 on its live text. *)
Definition scan_needs (w : world) (entries : list (string * entry))
    (path : string) : bool :=
  match text_of w path with
  | Some text => needs_indexing entries path text
  | None => false
  end.

(** What the scan prints for a document it reports. *)
Definition scan_report (path text : string) : list string :=
  [("NEEDS_INDEX: " ++ path)%string;
   ("  hash: " ++ content_hash text)%string]
  ++ List.map (fun line => ("  | " ++ line)%string)
              (firstn 5 (Str.split_on Json.newline text))
  ++ [""].

Definition scan_lines (w : world) (entries : list (string * entry))
    (path : string) : list string :=
  match text_of w path with
  | Some text =>
      if needs_indexing entries path text then scan_report path text else []
  | None => []
  end.

(** The last line of the scan. *)
Definition scan_summary (needs : list string) : string :=
  match needs with
  | [] => "All files indexed and up to date."
  | _ => (Py.nl ++ Py.nat_str (length needs) ++ " file(s) need indexing.")%string
  end.

(** The line a successful update prints. *)
Definition indexed_line (fpath : string) (keywords : list string) : string :=
  ("Indexed: " ++ fpath ++ " (" ++ Py.nat_str (length keywords)
   ++ " keywords)")%string.

(** ** The range of the content hash *)

Definition hex_alphabet : list ascii := Str.chars "0123456789abcdef".

(** All the strings of [n] characters of an alphabet. *)
Fixpoint words (n : nat) (alphabet : list ascii) : list string :=
  match n with
  | O => [""]
  | S n' => flat_map (fun c => List.map (String c) (words n' alphabet)) alphabet
  end.

(** A text of [n] letters. *)
Definition run_of_a (n : nat) : string := Str.of_chars (repeat "a"%char n).

(** The last part of claim C5 as it is worded: whatever the new text of
    an indexed document, the scan reports the document again. *)
Definition changed_content_reappears : Prop :=
  ∀ w es p t t' smry kws rel w1 needs w2,
    store_holds w es → documents_readable w → is_document w p →
    text_of w p = Some t → writable w INDEX_FILE = true →
    cmd_update p smry kws rel w = (Ok tt, w1) →
    t' ≠ t →
    cmd_scan (with_fs w1 (<[p := File (Text t')]> (fs w1))) = (Ok needs, w2) →
    p ∈ needs.

(** ** The miss log and the search, as functions of the store *)

(** The line a logged miss prints. *)
Definition miss_line (query expected_path : string) : string :=
  ("Logged miss: query='" ++ query ++ "' expected='" ++ expected_path
   ++ "'")%string.

(** Section 4.6, steps 3 to 5: every entry with its score, those with
    score 0 discarded, the rest sorted by score, highest first. *)
Definition with_score (query : string) (pe : string * entry)
  : Q * string * entry :=
  (spec_score query (snd pe), fst pe, snd pe).

Definition spec_candidates (query : string) (entries : list (string * entry))
  : list (Q * string * entry) :=
  List.filter (fun r => score_positive (fst (fst r)))
              (List.map (with_score query) entries).

Definition higher_score_first (a b : Q * string * entry) : bool :=
  Qle_bool (- fst (fst a)) (- fst (fst b)).

Definition spec_ranking (query : string) (entries : list (string * entry))
  : list (Q * string * entry) :=
  stable_sort higher_score_first (spec_candidates query entries).

(** A result as the search commands hold it. *)
Definition result_json (r : Q * string * entry) : Q * string * json :=
  (fst (fst r), snd (fst r), entry_json (snd r)).

(** The query terms among the keywords of an entry. *)
Definition matched_terms (query : string) (e : entry) : gset string :=
  query_terms_of query ∩ list_to_set (List.map Str.lower (keywords e)).

(** What the human mode prints for one result. *)
Definition result_lines (query : string) (r : Q * string * entry)
  : list string :=
  [("  [" ++ format_score (fst (fst r)) ++ "] " ++ snd (fst r))%string;
   ("        " ++ Str.prefix 100 (summary (snd r)))%string]
  ++ (if decide (matched_terms query (snd r) = ∅) then []
      else [("        matched keywords: "
             ++ Str.join ", " (sorted_strings
                                 (elements (matched_terms query (snd r)))))%string])
  ++ [""].

(** What the human mode prints in all. *)
Definition search_lines (query : string) (entries : list (string * entry))
  : list string :=
  match spec_ranking query entries with
  | [] => [("No matches for: " ++ query)%string]
  | ranking =>
      ("Results for: " ++ query ++ Py.nl)%string
      :: flat_map (result_lines query) (firstn 10 ranking)
  end.

(** The candidate the structured mode makes of a result. *)
Definition candidate_of (query : string) (r : Q * string * entry)
  : candidate :=
  {| cand_path := snd (fst r);
     keyword_score := fst (fst r);
     cand_summary := JStr (summary (snd r));
     cand_keywords := JArr (List.map JStr (keywords (snd r)));
     cand_matched := sorted_strings (elements (matched_terms query (snd r)));
     cand_related := JArr (List.map JStr (related (snd r))) |}.

(** What the structured mode returns. *)
Definition search_output_of (query : string) (top_n : nat)
    (entries : list (string * entry)) : search_output :=
  let cands :=
    List.map (candidate_of query) (firstn top_n (spec_ranking query entries)) in
  {| out_query := query;
     out_query_terms := sorted_strings (elements (query_terms_of query));
     candidate_count := length cands;
     candidates := cands |}.

(** An entry without one of its keywords. *)
Definition without_keyword (k : string) (e : entry) : entry :=
  {| source_path := source_path e;
     stored_hash := stored_hash e;
     summary := summary e;
     keywords := List.filter (fun x => negb (String.eqb x k)) (keywords e);
     related := related e |}.

(** ** Statistics, as functions of the store *)

(** Section 4.8: the union of the keywords of all entries, case-folded. *)
Definition all_keywords_of (entries : list (string * entry)) : gset string :=
  list_to_set (flat_map (fun pe => List.map Str.lower (keywords (snd pe)))
                        entries).

(** Section 4.8: the indexed paths that are no regular file any more. *)
Definition stale_entries (w : world) (entries : list (string * entry))
  : list string :=
  List.filter (fun p => negb (file_exists w p)) (List.map fst entries).

(** The line about stale entries, for a count that is not 0. *)
Definition stale_line (count : nat) : string :=
  ("Stale entries:    " ++ Py.nat_str count
   ++ " (indexed file no longer exists)")%string.

(** What [cmd_stats] prints before it turns to the miss log. *)
Definition stats_lines (w : world) (entries : list (string * entry))
  : list string :=
  [("Vault files:      " ++ Py.nat_str (length (vault_listing w)))%string;
   ("Indexed:          " ++ Py.nat_str (length entries))%string;
   ("Unique keywords:  "
    ++ Py.nat_str (size (all_keywords_of entries)))%string]
  ++ match stale_entries w entries with
     | [] => []
     | stale => [stale_line (length stale)]
     end
  ++ (if decide (all_keywords_of entries = ∅) then []
      else [("Sample keywords:  "
             ++ Str.join ", "
                  (firstn 20 (sorted_strings
                                (elements (all_keywords_of entries)))))%string]).

(** What keeps a command from reading the entries of a loaded value
    that is no index: [v['entries']] raises [TypeError] when [v] is no
    dictionary and [KeyError] when it has no such key. *)
Definition shape_error (v : json) : option exn :=
  match v with
  | JObj d =>
      match Dict.get "entries" d with
      | Some _ => None
      | None => Some KeyError
      end
  | _ => Some TypeError
  end.

(** The last line [cmd_file] prints. *)
Definition hash_line (text : string) : string :=
  (Py.nl ++ "Content hash: " ++ content_hash text)%string.

(** The pass of the annotator over the documents a scan reported: one
    update for each, with the summary and the keywords chosen for it. *)
Definition index_all (annotate : string → string * list string)
    (paths : list string) : M unit :=
  for_each paths
    (fun p => cmd_update p (fst (annotate p)) (snd (annotate p)) None).

(** The path of the note [name] at the top of the vault. *)
Definition top_note (name : string) : string :=
  ("memory/" ++ name ++ ".md")%string.

(** The result has the score [s]. *)
Definition has_score {E : Type} (s : Q) (r : Q * string * E) : bool :=
  Qeq_bool (fst (fst r)) s.

(** The paths of the index whose entry scores [s] for the query, in the
    order of the index. *)
Definition paths_scoring (query : string) (s : Q)
    (entries : list (string * entry)) : list string :=
  List.map fst
    (List.filter (fun pe => Qeq_bool (spec_score query (snd pe)) s) entries).

(** ** The miss log, record by record *)

(** A MissLogRecord. *)
Record miss : Type := {
  miss_timestamp : string;
  miss_query : string;
  miss_expected : string;
  miss_reason : string
}.

Definition miss_json (m : miss) : json :=
  miss_record (miss_timestamp m) (miss_query m) (miss_expected m)
              (miss_reason m).

(** The record a call of [cmd_miss] at the time [now] logs. *)
Definition logged_miss (now : datetime) (query expected reason : string)
  : miss :=
  {| miss_timestamp := isoformat now;
     miss_query := query;
     miss_expected := expected;
     miss_reason := reason |}.

(** What [cmd_misses] prints for a record: the date, which is the first
    ten characters of the time stamp, with the query; the expected path;
    the reason when there is one; an empty line. *)
Definition miss_lines (m : miss) : list string :=
  [("  [" ++ Str.prefix 10 (miss_timestamp m) ++ "] query: "
    ++ miss_query m)%string;
   ("    expected: " ++ miss_expected m)%string]
  ++ (if String.eqb (miss_reason m) "" then []
      else [("    reason: " ++ miss_reason m)%string])
  ++ [""].

(** The first line [cmd_misses] prints for a log of [n] records. *)
Definition misses_header (n : nat) : string :=
  ("Miss log: " ++ Py.nat_str n ++ " entries" ++ Py.nl)%string.

(** The line of [cmd_stats] about the miss log. *)
Definition logged_misses_line (n : nat) : string :=
  ("Logged misses:    " ++ Py.nat_str n)%string.

(** ** What a command may write *)

(** The command changes no path outside [paths], whatever it returns or
    raises. *)
Definition writes_within {A} (paths : list string) (m : M A) : Prop :=
  ∀ w p, p ∉ paths → fs (snd (m w)) !! p = fs w !! p.

(** The paths of the Index Store and of the Miss Log Store, with the
    directories above them. *)
Definition index_store_paths : list string :=
  ["memory"; "memory/meta"; INDEX_FILE].

Definition miss_log_paths : list string :=
  ["memory"; "memory/meta"; MISS_LOG_FILE].

(** The command-line arguments a command cannot do without, and the
    line it prints when one is missing. *)
Definition required_arguments (cmd : string) : option nat :=
  if String.eqb cmd "file" then Some 1%nat
  else if String.eqb cmd "search" then Some 1%nat
  else if String.eqb cmd "search-json" then Some 1%nat
  else if String.eqb cmd "update" then Some 3%nat
  else if String.eqb cmd "miss" then Some 2%nat
  else None.

Definition usage_line (cmd : string) : string :=
  if String.eqb cmd "file" then "Usage: index-vault.py file <path>"
  else if String.eqb cmd "search" then "Usage: index-vault.py search <query>"
  else if String.eqb cmd "search-json"
  then "Usage: index-vault.py search-json <query>"
  else if String.eqb cmd "update"
  then "Usage: index-vault.py update <path> <summary> <keywords-csv> [related-csv]"
  else "Usage: index-vault.py miss <query> <expected-path> [reason]".

Definition known_commands : list string :=
  ["scan"; "file"; "search"; "search-json"; "update"; "miss"; "misses";
   "stats"].

(** The command a command line names, if any. *)
Definition command_of (argv : list string) : option string :=
  match argv with
  | _ :: cmd :: _ => Some cmd
  | _ => None
  end.

(** The number of commas in a string. *)
Definition commas (s : string) : nat :=
  length (List.filter (fun c => Ascii.eqb c ","%char) (Str.chars s)).

(** ** Sample worlds *)

(** JSON text is written below with apostrophes where the file has
    quotes. *)
Definition with_quotes (s : string) : string :=
  Str.of_chars (List.map (fun c => if Ascii.eqb c "'"%char then Json.quote
                                   else c)
                         (Str.chars s)).

Definition noon : datetime :=
  {| year := 2026; month := 3; day := 14; hour := 12; minute := 0;
     second := 0; microsecond := 0 |}.

(** A vault with one note and no store. *)
Definition one_note (text : string) : world :=
  {| fs := {[ "memory/a.md" := File (Text text) ]};
     stdout := [];
     clock := noon |}.

(** An index file whose bytes are not text. *)
Definition undecodable_store : world :=
  {| fs := {[ INDEX_FILE := File Undecodable ]};
     stdout := [];
     clock := noon |}.

(** A vault with two notes and no store yet. *)
Definition sample_vault : world :=
  {| fs := list_to_map [("memory", Dir);
                        ("memory/a.md", File (Text "notes on rust"));
                        ("memory/sub", Dir);
                        ("memory/sub/b.md", File (Text "daily standup"))];
     stdout := [];
     clock := noon |}.

(** The entry of the scoring scenario of the specification. *)
Definition rust_entry : entry :=
  {| source_path := "memory/a.md";
     stored_hash := content_hash "notes on rust";
     summary := "notes on rust borrow checker";
     keywords := ["rust"; "memory"];
     related := [] |}.

Definition sample_entries : list (string * entry) :=
  [("memory/a.md", rust_entry)].

(** The vault after its first note was indexed. *)
Definition indexed_vault : world :=
  with_fs sample_vault
    (stored INDEX_FILE (Json.dumps (index_json sample_entries))
            (fs sample_vault)).

(** A miss log in a file of the vault, two records long. *)
Definition logged_vault : world :=
  with_fs sample_vault
    (stored MISS_LOG_FILE
       (Json.dumps (JArr [miss_record "2026-03-01T08:00:00+00:00" "borrow"
                                       "memory/a.md" "";
                          miss_record "2026-03-02T09:30:00.000250+00:00"
                                       "standup" "memory/sub/b.md" "typo"]))
       (fs sample_vault)).

(** A vault whose index has three entries, the note of one of them
    gone. *)
Definition three_entries : list (string * entry) :=
  [("memory/a.md", rust_entry);
   ("memory/sub/b.md",
    {| source_path := "memory/sub/b.md";
       stored_hash := content_hash "daily standup";
       summary := "daily standup notes";
       keywords := ["Standup"; "daily"; "Rust"];
       related := ["memory/a.md"] |});
   ("memory/old.md",
    {| source_path := "memory/old.md";
       stored_hash := content_hash "an old note";
       summary := "a note that was deleted";
       keywords := ["old"];
       related := [] |})].

Definition stale_vault : world :=
  with_fs sample_vault
    (stored INDEX_FILE (Json.dumps (index_json three_entries))
            (fs sample_vault)).

(** A regular file where the directory [memory/meta] should be. *)
Definition meta_is_a_file : world :=
  {| fs := list_to_map [("memory", Dir); ("memory/meta", File (Text ""))];
     stdout := [];
     clock := noon |}.

(** A regular file where the directory [memory] should be. *)
Definition memory_is_a_file : world :=
  {| fs := {[ "memory" := File (Text "") ]};
     stdout := [];
     clock := noon |}.

(** The sample vault with an index file that holds a JSON list. *)
Definition list_as_index : world :=
  with_fs sample_vault (stored INDEX_FILE "[]" (fs sample_vault)).

(** The sample vault with a miss log that holds a JSON object. *)
Definition object_as_miss_log : world :=
  with_fs sample_vault (stored MISS_LOG_FILE "{}" (fs sample_vault)).

(** The sample vault with a directory whose name ends in [.md]. *)
Definition directory_note_vault : world :=
  with_fs sample_vault (<["memory/archive.md" := Dir]> (fs sample_vault)).

(** The two records of the miss log of [logged_vault]. *)
Definition logged_misses : list miss :=
  [{| miss_timestamp := "2026-03-01T08:00:00+00:00";
      miss_query := "borrow";
      miss_expected := "memory/a.md";
      miss_reason := "" |};
   {| miss_timestamp := "2026-03-02T09:30:00.000250+00:00";
      miss_query := "standup";
      miss_expected := "memory/sub/b.md";
      miss_reason := "typo" |}].

(** The summary and the keywords an annotator gives every document. *)
Definition same_for_all (p : string) : string * list string :=
  ("a note", ["note"]).

(* ===================================================================== *)
(** * Facts about the JSON reader and writer *)
(* ===================================================================== *)

Module JsonFacts.
Import Json.

Ltac by_char c :=
  destruct c as [[] [] [] [] [] [] [] []].

Lemma lex_string_escape (c : ascii) (tail : list ascii) :
  lex_string (escape_char c ++ tail) = cons_fst c (lex_string tail).
Proof. by_char c; reflexivity. Qed.

Lemma lex_string_body (cs tail : list ascii) :
  lex_string (flat_map escape_char cs ++ quote :: tail) = Some (cs, tail).
Proof.
  induction cs as [|c cs IH]; [reflexivity|].
  cbn [flat_map]. rewrite <- app_assoc, lex_string_escape, IH. reflexivity.
Qed.

Lemma read_uint_chars (d : Decimal.uint) (tail : list ascii) :
  not_digit_head tail → read_uint (uint_chars d ++ tail) = (d, tail).
Proof.
  intros Htail. induction d; cbn; try (rewrite IHd; reflexivity).
  destruct tail as [|c tail]; [reflexivity|]. cbn in *.
  unfold is_digit in Htail. destruct (digit_of c); [discriminate|reflexivity].
Qed.

Lemma canonical_unorm (d : Decimal.uint) : canonical (Decimal.unorm d) = true.
Proof. induction d; cbn; auto. Qed.

Lemma canonical_to_uint (n : N) : canonical (N.to_uint n) = true.
Proof.
  rewrite <- (DecimalN.Unsigned.of_to n) at 1.
  rewrite DecimalN.Unsigned.to_of. apply canonical_unorm.
Qed.

Lemma is_digit_inv (c : ascii) :
  is_digit c = true → In c (Str.chars "0123456789").
Proof.
  by_char c; intros H; vm_compute in H; try discriminate H;
    cbn; auto 12.
Qed.

Ltac by_digit H :=
  apply is_digit_inv in H; cbn in H;
  repeat (destruct H as [<-|H]; [reflexivity|]); destruct H.

Lemma number_end_not_digit cs : number_end cs → not_digit_head cs.
Proof. destruct cs; cbn; tauto. Qed.

Lemma uint_chars_head (d : Decimal.uint) :
  canonical d = true →
  ∃ c r, uint_chars d = c :: r ∧ is_digit c = true.
Proof. destruct d; cbn; try discriminate; eauto. Qed.

Lemma lex_fraction_end cs : number_end cs → lex_fraction cs = Some ([], cs).
Proof.
  destruct cs as [|c cs]; [reflexivity|]. cbn. intros (_ & -> & _). reflexivity.
Qed.

Lemma lex_exponent_end cs : number_end cs → lex_exponent cs = Some ([], cs).
Proof.
  destruct cs as [|c cs]; [reflexivity|]. cbn. intros (_ & _ & -> & ->).
  reflexivity.
Qed.

Lemma lex_number_nat (n : N) (tail : list ascii) :
  number_end tail →
  lex_number (nat_chars n ++ tail) = Some (TInt (Z.of_N n), tail).
Proof.
  intros Hend. unfold lex_number, nat_chars.
  destruct (uint_chars_head _ (canonical_to_uint n)) as (c & r & Hc & Hd).
  assert (Hminus : Ascii.eqb c "-"%char = false)
    by (clear - Hd; by_digit Hd).
  rewrite Hc. cbn [app]. rewrite Hminus. rewrite app_comm_cons.
  rewrite <- Hc, read_uint_chars by (apply number_end_not_digit, Hend).
  rewrite canonical_to_uint, lex_fraction_end, lex_exponent_end by assumption.
  rewrite DecimalN.Unsigned.of_to. reflexivity.
Qed.

Lemma lex_number_neg (p : positive) (tail : list ascii) :
  number_end tail →
  lex_number ("-"%char :: nat_chars (Npos p) ++ tail)
  = Some (TInt (Zneg p), tail).
Proof.
  intros Hend. unfold lex_number, nat_chars. cbn [Ascii.eqb Bool.eqb].
  change (Ascii.eqb "-" "-") with true. cbv iota.
  rewrite read_uint_chars by (apply number_end_not_digit, Hend).
  rewrite canonical_to_uint, lex_fraction_end, lex_exponent_end by assumption.
  rewrite DecimalN.Unsigned.of_to. reflexivity.
Qed.

Lemma lex_word_digit (c : ascii) (cs : list ascii) :
  is_digit c = true → lex_word (c :: cs) = lex_number (c :: cs).
Proof. intros H. by_digit H. Qed.

Lemma lex_word_minus_digit (c : ascii) (cs : list ascii) :
  is_digit c = true →
  lex_word ("-"%char :: c :: cs) = lex_number ("-"%char :: c :: cs).
Proof. intros H. by_digit H. Qed.

Lemma lex_word_int (z : Z) (tail : list ascii) :
  number_end tail →
  lex_word (int_chars z ++ tail) = Some (TInt z, tail).
Proof.
  intros Hend. destruct z as [|p|p]; cbn [int_chars].
  - exact (lex_number_nat 0 tail Hend).
  - etransitivity; [|exact (lex_number_nat (Npos p) tail Hend)].
    change (Z.to_N (Z.pos p)) with (Npos p). unfold nat_chars.
    destruct (uint_chars_head _ (canonical_to_uint (Npos p)))
      as (c & r & Hc & Hd).
    rewrite Hc. apply lex_word_digit, Hd.
  - etransitivity; [|exact (lex_number_neg p tail Hend)].
    unfold nat_chars.
    destruct (uint_chars_head _ (canonical_to_uint (Npos p)))
      as (c & r & Hc & Hd).
    rewrite Hc. apply lex_word_minus_digit, Hd.
Qed.

(** The first character of an integer literal is a digit or the sign. *)
Lemma int_chars_head (z : Z) :
  ∃ c r, int_chars z = c :: r
         ∧ (is_digit c = true ∨ c = "-"%char).
Proof.
  destruct z as [|p|p]; cbn [int_chars].
  - exists "0"%char, []. split; [reflexivity|left; reflexivity].
  - destruct (uint_chars_head _ (canonical_to_uint (Npos p)))
      as (c & r & Hc & Hd).
    exists c, r. split; [exact Hc|left; exact Hd].
  - eauto.
Qed.

Lemma lex_nil n : lex n [] = Some [].
Proof. destruct n; reflexivity. Qed.

Lemma cons_opt_mono {A} (t : A) (a b : option (list A)) ts :
  (∀ l, a = Some l → b = Some l) →
  cons_opt t a = Some ts → cons_opt t b = Some ts.
Proof.
  intros Hab. destruct a as [l|]; [|discriminate].
  rewrite (Hab l eq_refl). trivial.
Qed.

(** More fuel does not change what the lexer returns. *)
Lemma lex_mono (n m : nat) (cs : list ascii) (ts : list token) :
  (n ≤ m)%nat → lex n cs = Some ts → lex m cs = Some ts.
Proof.
  revert m cs ts. induction n as [|n IH]; intros m cs ts Hle H.
  - destruct cs; [rewrite lex_nil; exact H|discriminate].
  - destruct m as [|m]; [lia|]. destruct cs as [|c cs]; [exact H|].
    assert (Hrec : ∀ r l, lex n r = Some l → lex m r = Some l)
      by (intros r l; apply IH; lia).
    cbn [lex] in *.
    repeat match goal with
           | |- context [if ?b then _ else _] => destruct b
           | |- context [match ?o with Some _ => _ | None => _ end] =>
               destruct o as [[? ?]|]
           end;
      try discriminate; eauto using cons_opt_mono.
Qed.

Lemma lexes_loads cs ts : lexes cs ts → lex (length cs) cs = Some ts.
Proof. intros (n & Hn & H). exact (lex_mono _ _ _ _ Hn H). Qed.

Lemma lexes_nil : lexes [] [].
Proof. exists 0. split; [cbn; lia|reflexivity]. Qed.

Lemma lexes_ws c cs ts : is_ws c = true → lexes cs ts → lexes (c :: cs) ts.
Proof.
  intros Hc (n & Hn & H). exists (S n). split; [cbn; lia|].
  cbn [lex]. rewrite Hc. exact H.
Qed.

Lemma lexes_indent level cs ts : lexes cs ts → lexes (indent level ++ cs) ts.
Proof.
  intros H. unfold indent. cbn [app]. apply lexes_ws; [reflexivity|].
  induction (2 * level) as [|k IH]; [exact H|].
  cbn. apply lexes_ws; [reflexivity|exact IH].
Qed.

Lemma lexes_space cs ts : lexes cs ts → lexes (" "%char :: cs) ts.
Proof. apply lexes_ws. reflexivity. Qed.

Ltac lexes_step :=
  let n := fresh "n" in let Hn := fresh "Hn" in let H := fresh "H" in
  intros (n & Hn & H); exists (S n);
  split; [cbn [length]; rewrite ?length_app; cbn [length]; lia|].

Lemma lexes_lbrace cs ts : lexes cs ts → lexes ("{"%char :: cs) (TLBrace :: ts).
Proof. lexes_step. cbn. change (lex n cs) with (lex n cs). rewrite H. reflexivity. Qed.
Lemma lexes_rbrace cs ts : lexes cs ts → lexes ("}"%char :: cs) (TRBrace :: ts).
Proof. lexes_step. cbn. rewrite H. reflexivity. Qed.
Lemma lexes_lbracket cs ts :
  lexes cs ts → lexes ("["%char :: cs) (TLBracket :: ts).
Proof. lexes_step. cbn. rewrite H. reflexivity. Qed.
Lemma lexes_rbracket cs ts :
  lexes cs ts → lexes ("]"%char :: cs) (TRBracket :: ts).
Proof. lexes_step. cbn. rewrite H. reflexivity. Qed.
Lemma lexes_colon cs ts : lexes cs ts → lexes (":"%char :: cs) (TColon :: ts).
Proof. lexes_step. cbn. rewrite H. reflexivity. Qed.
Lemma lexes_comma cs ts : lexes cs ts → lexes (","%char :: cs) (TComma :: ts).
Proof. lexes_step. cbn. rewrite H. reflexivity. Qed.

Lemma of_chars_chars (l : list ascii) : Str.chars (Str.of_chars l) = l.
Proof. apply list_ascii_of_string_of_list_ascii. Qed.

Lemma chars_of_chars (s : string) : Str.of_chars (Str.chars s) = s.
Proof. apply string_of_list_ascii_of_string. Qed.

Lemma lexes_string s cs ts :
  lexes cs ts → lexes (string_chars s ++ cs) (TStr s :: ts).
Proof.
  intros (n & Hn & H). exists (S n). unfold string_chars.
  split; [cbn [length app]; rewrite !length_app; cbn [length]; lia|].
  cbn [app lex].
  change (is_ws quote) with false. cbv iota.
  change (Ascii.eqb quote "{") with false.
  change (Ascii.eqb quote "}") with false.
  change (Ascii.eqb quote "[") with false.
  change (Ascii.eqb quote "]") with false.
  change (Ascii.eqb quote ":") with false.
  change (Ascii.eqb quote ",") with false.
  change (Ascii.eqb quote quote) with true. cbv iota.
  rewrite <- app_assoc. cbn [app]. rewrite lex_string_body, H.
  cbn. rewrite chars_of_chars. reflexivity.
Qed.

Lemma lex_word_step n c cs t rest ts :
  (is_digit c = true ∨ c = "-"%char ∨ c = "n"%char ∨ c = "t"%char
   ∨ c = "f"%char) →
  lex_word (c :: cs) = Some (t, rest) →
  lex n rest = Some ts →
  lex (S n) (c :: cs) = Some (t :: ts).
Proof.
  intros Hc Hw Hr.
  assert (Hshape : lex (S n) (c :: cs)
                   = match lex_word (c :: cs) with
                     | Some (t, rest) => cons_opt t (lex n rest)
                     | None => None
                     end).
  { destruct Hc as [Hd|[->|[->|[->| ->]]]]; try reflexivity.
    clear - Hd. by_digit Hd. }
  rewrite Hshape, Hw, Hr. reflexivity.
Qed.

Lemma lexes_int z cs ts :
  number_end cs → lexes cs ts → lexes (int_chars z ++ cs) (TInt z :: ts).
Proof.
  intros Hend (n & Hn & H). exists (S n).
  destruct (int_chars_head z) as (c & r & Hz & Hc).
  split; [rewrite Hz; cbn [length app]; rewrite length_app; lia|].
  pose proof (lex_word_int z cs Hend) as Hw. rewrite Hz in *. cbn [app] in *.
  eapply lex_word_step; [tauto|exact Hw|exact H].
Qed.

Lemma lexes_word (word : string) t cs ts :
  (word, t) ∈ [("null", TNull); ("true", TTrue); ("false", TFalse)] →
  lexes cs ts → lexes (Str.chars word ++ cs) (t :: ts).
Proof.
  intros Hin (n & Hn & H). exists (S n).
  rewrite !elem_of_cons, elem_of_nil in Hin.
  destruct Hin as [Heq|[Heq|[Heq|[]]]]; inversion Heq; subst; clear Heq;
    (split; [cbn; lia|]);
    (eapply lex_word_step; [tauto|reflexivity|exact H]).
Qed.

(** Induction on a JSON value, with the hypothesis for every item of a
    list and every member of an object. *)
Lemma json_ind (P : json → Prop) :
  P JNull → (∀ b, P (JBool b)) → (∀ n, P (JInt n)) →
  (∀ lit, P (JFloat lit)) → (∀ s, P (JStr s)) →
  (∀ l, Forall P l → P (JArr l)) →
  (∀ kvs, Forall (λ kv, P (snd kv)) kvs → P (JObj kvs)) →
  ∀ v, P v.
Proof.
  intros Hnull Hbool Hint Hfloat Hstr Harr Hobj.
  fix IH 1. intros [ |b|n|lit|s|l|kvs].
  - exact Hnull.
  - apply Hbool.
  - apply Hint.
  - apply Hfloat.
  - apply Hstr.
  - apply Harr. revert l. fix IHl 1. intros [|x l]; constructor.
    + apply IH.
    + apply IHl.
  - apply Hobj. revert kvs. fix IHl 1. intros [|kv kvs]; constructor.
    + apply IH.
    + apply IHl.
Qed.

Lemma number_end_comma cs : number_end (","%char :: cs).
Proof. cbn. auto. Qed.

Lemma number_end_indent level cs : number_end (indent level ++ cs).
Proof. cbn. auto. Qed.

Ltac flatten :=
  cbn [List.map concat];
  repeat (rewrite <- app_assoc || rewrite <- app_comm_cons).

Lemma lexes_items level (l : list json) cs ts :
  Forall lexes_as_tokens l → forallb plain l = true →
  number_end cs → lexes cs ts →
  number_end (concat (List.map (fun y => ","%char :: indent level
                                          ++ dump level y) l) ++ cs)
  ∧ lexes (concat (List.map (fun y => ","%char :: indent level
                                       ++ dump level y) l) ++ cs)
          (concat (List.map (fun y => TComma :: tokens y) l) ++ ts).
Proof.
  intros Hall. revert cs ts.
  induction Hall as [|y l Hy _ IH]; intros cs ts Hp Hend Hcs; [auto|].
  cbn in Hp. apply andb_prop in Hp as [Hpy Hpl].
  destruct (IH cs ts Hpl Hend Hcs) as [Hend' Hl].
  cbn [List.map concat]. split; [apply number_end_comma|].
  flatten.
  apply lexes_comma, lexes_indent. apply Hy; assumption.
Qed.

Lemma lexes_members level (l : list (string * json)) cs ts :
  Forall (λ kv, lexes_as_tokens (snd kv)) l →
  forallb (fun kv => plain (snd kv)) l = true →
  number_end cs → lexes cs ts →
  number_end (concat (List.map (fun kv => ","%char :: indent level
                                ++ string_chars (fst kv)
                                ++ ":"%char :: " "%char
                                :: dump level (snd kv)) l) ++ cs)
  ∧ lexes (concat (List.map (fun kv => ","%char :: indent level
                                ++ string_chars (fst kv)
                                ++ ":"%char :: " "%char
                                :: dump level (snd kv)) l) ++ cs)
          (concat (List.map (fun kv => TComma :: TStr (fst kv) :: TColon
                                       :: tokens (snd kv)) l) ++ ts).
Proof.
  intros Hall. revert cs ts.
  induction Hall as [|y l Hy _ IH]; intros cs ts Hp Hend Hcs; [auto|].
  cbn in Hp. apply andb_prop in Hp as [Hpy Hpl].
  destruct (IH cs ts Hpl Hend Hcs) as [Hend' Hl].
  cbn [List.map concat]. split; [apply number_end_comma|].
  flatten.
  apply lexes_comma, lexes_indent.
  apply lexes_string. apply lexes_colon, lexes_space.
  apply Hy; assumption.
Qed.

Lemma lexes_dump (v : json) : lexes_as_tokens v.
Proof.
  induction v as [ |b|n|lit|s|l IH|kvs IH] using json_ind;
    intros Hp level cs ts Hend Hcs.
  - apply (lexes_word "null"); [set_solver|exact Hcs].
  - destruct b.
    + apply (lexes_word "true"); [set_solver|exact Hcs].
    + apply (lexes_word "false"); [set_solver|exact Hcs].
  - apply lexes_int; assumption.
  - discriminate.
  - apply lexes_string, Hcs.
  - destruct IH as [|x l Hx Hl].
    + apply lexes_lbracket, lexes_rbracket, Hcs.
    + cbn in Hp. apply andb_prop in Hp as [Hpx Hpl].
      cbn [dump tokens]. flatten.
      apply lexes_lbracket, lexes_indent.
      destruct (lexes_items (S level) l (indent level ++ "]"%char :: cs)
                  (TRBracket :: ts) Hl Hpl) as [Hend' Hitems].
      { apply number_end_indent. }
      { apply lexes_indent, lexes_rbracket, Hcs. }
      apply Hx; assumption.
  - destruct IH as [|x l Hx Hl].
    + apply lexes_lbrace, lexes_rbrace, Hcs.
    + cbn in Hp. apply andb_prop in Hp as [_ Hp].
      apply andb_prop in Hp as [Hpx Hpl].
      cbn [dump tokens]. flatten.
      apply lexes_lbrace, lexes_indent.
      apply lexes_string. apply lexes_colon, lexes_space.
      destruct (lexes_members (S level) l (indent level ++ "}"%char :: cs)
                  (TRBrace :: ts) Hl Hpl) as [Hend' Hitems].
      { apply number_end_indent. }
      { apply lexes_indent, lexes_rbrace, Hcs. }
      apply Hx; assumption.
Qed.

(** *** The parser reads the tokens of a value back *)

Lemma set_fresh {A} (k : string) (v : A) (d : list (string * A)) :
  k ∉ List.map fst d → Dict.set k v d = d ++ [(k, v)].
Proof.
  induction d as [|[k' v'] d IH]; intros Hk; [reflexivity|].
  cbn in *. apply not_elem_of_cons in Hk as [Hne Hk].
  destruct (String.eqb_spec k k'); [congruence|]. rewrite IH; auto.
Qed.

Lemma of_pairs_nodup_from {A} (l d : list (string * A)) :
  NoDup (List.map fst (d ++ l)) →
  fold_left (fun d kv => Dict.set (fst kv) (snd kv) d) l d = d ++ l.
Proof.
  revert d. induction l as [|[k v] l IH]; intros d Hnd; cbn.
  - rewrite app_nil_r. reflexivity.
  - rewrite set_fresh.
    + rewrite IH; rewrite <- app_assoc; [reflexivity|exact Hnd].
    + rewrite map_app in Hnd. apply NoDup_app in Hnd as (_ & Hdis & _).
      intros Hin. apply (Hdis k Hin). cbn. left.
Qed.

Lemma of_pairs_nodup {A} (l : list (string * A)) :
  NoDup (List.map fst l) → Dict.of_pairs l = l.
Proof. intros H. apply (of_pairs_nodup_from l []). exact H. Qed.

Lemma tokens_head (v : json) :
  ∃ t tl, tokens v = t :: tl ∧ t ≠ TRBracket.
Proof.
  destruct v as [ |[]| | | |[|x l]|[|kv l]]; cbn; eauto.
Qed.

Lemma parse_value_array_start n t r :
  t ≠ TRBracket →
  parse_value (S n) (TLBracket :: t :: r)
  = match parse_value n (t :: r) with
    | Some (v, r') => parse_items n [v] r'
    | None => None
    end.
Proof. destruct t; intros H; try reflexivity. congruence. Qed.

Lemma parse_items_back (l : list json) :
  Forall parses_back l → forallb plain l = true →
  ∀ n acc rest,
    (length (concat (List.map (fun y => TComma :: tokens y) l)) + 1 ≤ n)%nat →
    parse_items n acc
      (concat (List.map (fun y => TComma :: tokens y) l)
       ++ TRBracket :: rest)
    = Some (JArr (rev acc ++ l), rest).
Proof.
  induction 1 as [|y l Hy _ IH]; intros Hp n acc rest Hn.
  - destruct n; [cbn in Hn; lia|]. cbn. rewrite app_nil_r. reflexivity.
  - cbn in Hp. apply andb_prop in Hp as [Hpy Hpl].
    cbn [List.map concat length app] in Hn. rewrite length_app in Hn.
    destruct n as [|n]; [lia|]. flatten. cbn [parse_items].
    rewrite (Hy Hpy) by lia. rewrite (IH Hpl) by lia.
    cbn [rev]. rewrite <- app_assoc. reflexivity.
Qed.

Lemma parse_members_back (l : list (string * json)) :
  Forall (λ kv, parses_back (snd kv)) l →
  forallb (fun kv => plain (snd kv)) l = true →
  ∀ n acc rest,
    (length (concat (List.map (fun kv => TComma :: TStr (fst kv) :: TColon
                                         :: tokens (snd kv)) l)) + 1 ≤ n)%nat →
    parse_members n acc
      (concat (List.map (fun kv => TComma :: TStr (fst kv) :: TColon
                                   :: tokens (snd kv)) l)
       ++ TRBrace :: rest)
    = Some (JObj (Dict.of_pairs (rev acc ++ l)), rest).
Proof.
  induction 1 as [|[k y] l Hy _ IH]; intros Hp n acc rest Hn.
  - destruct n; [cbn in Hn; lia|]. cbn. rewrite app_nil_r. reflexivity.
  - cbn in Hp. apply andb_prop in Hp as [Hpy Hpl].
    cbn [List.map concat length app fst snd] in Hn.
    rewrite length_app in Hn. cbn [fst snd].
    destruct n as [|n]; [lia|]. flatten. cbn [parse_members fst snd] in *.
    rewrite (Hy Hpy) by lia. rewrite (IH Hpl) by lia.
    cbn [rev]. rewrite <- app_assoc. reflexivity.
Qed.

Lemma parse_back (v : json) : parses_back v.
Proof.
  induction v as [ |b|z|lit|s|l IH|kvs IH] using json_ind;
    intros Hp n rest Hn.
  - destruct n; [cbn in Hn; lia|reflexivity].
  - destruct b; (destruct n; [cbn in Hn; lia|reflexivity]).
  - destruct n; [cbn in Hn; lia|reflexivity].
  - discriminate.
  - destruct n; [cbn in Hn; lia|reflexivity].
  - destruct IH as [|x l Hx Hl].
    + destruct n; [cbn in Hn; lia|reflexivity].
    + cbn in Hp. apply andb_prop in Hp as [Hpx Hpl].
      cbn [tokens] in *. cbn [length] in Hn. rewrite !length_app in Hn.
      cbn [length] in Hn.
      destruct n as [|n]; [lia|]. flatten.
      destruct (tokens_head x) as (t & tl & Hx' & Ht).
      pose proof (Hx Hpx n) as Hxn. rewrite Hx' in *.
      rewrite <- app_comm_cons, parse_value_array_start by exact Ht.
      rewrite app_comm_cons, Hxn by lia.
      rewrite (parse_items_back l Hl Hpl) by lia. reflexivity.
  - destruct IH as [|[k x] l Hx Hl].
    + destruct n; [cbn in Hn; lia|reflexivity].
    + cbn in Hp. apply andb_prop in Hp as [Hnd Hp].
      apply andb_prop in Hp as [Hpx Hpl].
      apply bool_decide_eq_true in Hnd.
      cbn [tokens fst snd] in *. cbn [length] in Hn.
      rewrite !length_app in Hn. cbn [length] in Hn.
      destruct n as [|n]; [lia|]. flatten. cbn [parse_value].
      rewrite (Hx Hpx) by lia.
      rewrite (parse_members_back l Hl Hpl) by lia.
      cbn [rev app]. rewrite of_pairs_nodup by exact Hnd. reflexivity.
Qed.

(** A store value written by [json.dump] is read back by [json.load]. *)
Lemma loads_dumps (v : json) :
  plain v = true → loads (dumps v) = Some v.
Proof.
  intros Hp. unfold loads, dumps. rewrite of_chars_chars.
  pose proof (lexes_dump v Hp 0 [] [] I lexes_nil) as Hlex.
  rewrite !app_nil_r in Hlex. rewrite (lexes_loads _ _ Hlex).
  pose proof (parse_back v Hp (S (length (tokens v))) []) as Hparse.
  rewrite app_nil_r in Hparse. rewrite Hparse by lia. reflexivity.
Qed.
End JsonFacts.


(* ===================================================================== *)
(** * Facts about the commands *)
(* ===================================================================== *)

(** ** The monad *)

Lemma bind_ok {A B} (m : M A) (k : A → M B) w a w' :
  m w = (Ok a, w') → bind m k w = k a w'.
Proof. unfold bind. intros ->. reflexivity. Qed.

Lemma bind_raise {A B} (m : M A) (k : A → M B) w e w' :
  m w = (Raise e, w') → bind m k w = (Raise e, w').
Proof. unfold bind. intros ->. reflexivity. Qed.

Lemma world_eta (w : world) :
  {| fs := fs w; stdout := stdout w; clock := clock w |} = w.
Proof. destruct w; reflexivity. Qed.

Lemma printed_nil w : printed w [] = w.
Proof. unfold printed. rewrite app_nil_r. apply world_eta. Qed.

Lemma printed_printed w a b : printed (printed w a) b = printed w (a ++ b).
Proof. unfold printed. cbn. rewrite app_assoc. reflexivity. Qed.

Lemma print_printed line w : print line w = (Ok tt, printed w [line]).
Proof. reflexivity. Qed.

Lemma with_fs_same w : with_fs w (fs w) = w.
Proof. apply world_eta. Qed.

(** ** Reading files *)

Lemma read_text_spec path w :
  read_text path w
  = (match fs w !! path with
     | None => Raise FileNotFoundError
     | Some Dir => Raise IsADirectoryError
     | Some (File Undecodable) => Raise UnicodeDecodeError
     | Some (File (Text s)) => Ok s
     end, w).
Proof.
  unfold read_text, bind, lookup_node.
  destruct (fs w !! path) as [[|[]]|]; reflexivity.
Qed.

Lemma isfile_spec path w :
  isfile path w
  = (Ok (match fs w !! path with Some (File _) => true | _ => false end), w).
Proof. reflexivity. Qed.

(** What [load_index] does, by the state of the index file. *)
Lemma load_index_spec w :
  load_index w
  = (match fs w !! INDEX_FILE with
     | None => Ok empty_index
     | Some Dir => Raise IsADirectoryError
     | Some (File Undecodable) => Raise UnicodeDecodeError
     | Some (File (Text s)) =>
         match Json.loads s with
         | Some v => Ok v
         | None => Ok empty_index
         end
     end, w).
Proof.
  unfold load_index, try_except, catch, bind. rewrite read_text_spec.
  destruct (fs w !! INDEX_FILE) as [[|[s|]]|]; try reflexivity.
  unfold Py.json_loads. destruct (Json.loads s); reflexivity.
Qed.

Lemma load_index_world w : snd (load_index w) = w.
Proof. rewrite load_index_spec. reflexivity. Qed.

Lemma store_holds_inv w es :
  store_holds w es → load_index w = (Ok (index_json es), w).
Proof. intros [_ H]. exact H. Qed.

(** ** Writing the store files *)

Lemma dirname_meta : Path.dirname "memory/meta" = "memory".
Proof. reflexivity. Qed.
Lemma basename_meta : Path.basename "memory/meta" = "meta".
Proof. reflexivity. Qed.
Lemma dirname_memory : Path.dirname "memory" = "".
Proof. reflexivity. Qed.
Lemma dirname_index : Path.dirname INDEX_FILE = "memory/meta".
Proof. reflexivity. Qed.
Lemma dirname_miss_log : Path.dirname MISS_LOG_FILE = "memory/meta".
Proof. reflexivity. Qed.

Lemma with_fs_insert_dir w path :
  fs w !! path = Some Dir → with_fs w (<[path := Dir]> (fs w)) = w.
Proof. intros H. rewrite insert_id by exact H. apply with_fs_same. Qed.

Lemma mkdir_exist_ok_memory w :
  dir_or_free w "memory" = true →
  catch (mkdir "memory")
    (fun e =>
       if is_os_error e then
         let* d := isdir "memory" in
         if d then ret tt else raise e
       else raise e) w
  = (Ok tt, with_fs w (<["memory" := Dir]> (fs w))).
Proof.
  unfold dir_or_free, catch, mkdir, bind, lookup_node, isdir, check_parent.
  rewrite dirname_memory. cbn [String.eqb].
  destruct (fs w !! "memory") as [[|c]|] eqn:E; intros H; try discriminate H.
  - cbn. rewrite E. cbn. rewrite with_fs_insert_dir by exact E. reflexivity.
  - reflexivity.
Qed.

Lemma makedirs_fuel_memory n w :
  dir_or_free w "memory" = true →
  makedirs_fuel n "memory" w = (Ok tt, with_fs w (<["memory" := Dir]> (fs w))).
Proof.
  intros H. destruct n; cbn [makedirs_fuel]; rewrite ?dirname_memory;
    cbn [String.eqb negb andb]; unfold bind at 1; cbn [ret];
    apply mkdir_exist_ok_memory, H.
Qed.

Lemma makedirs_fuel_S n name :
  makedirs_fuel (S n) name
  = ((if negb (String.eqb (Path.dirname name) "")
         && negb (String.eqb (Path.basename name) "")
      then
        let* there := exists_ (Path.dirname name) in
        if there then ret tt
        else try_except (makedirs_fuel n (Path.dirname name))
               (fun e => match e with FileExistsError => true | _ => false end)
               (ret tt)
      else ret tt) ;;
     catch (mkdir name)
       (fun e =>
          if is_os_error e then
            let* d := isdir name in
            if d then ret tt else raise e
          else raise e)).
Proof. reflexivity. Qed.

Lemma makedirs_meta w :
  dir_or_free w "memory" = true → dir_or_free w "memory/meta" = true →
  makedirs "memory/meta" w
  = (Ok tt, with_fs w (<["memory/meta" := Dir]> (<["memory" := Dir]> (fs w)))).
Proof.
  intros Hmem Hmeta. unfold makedirs.
  change (String.length "memory/meta") with (S 10). generalize 10%nat as n.
  intros n. rewrite makedirs_fuel_S, dirname_meta, basename_meta.
  cbn [String.eqb negb andb].
  assert (Hfirst :
    (let* there := exists_ "memory" in
     if there then ret tt
     else try_except (makedirs_fuel n "memory")
            (fun e => match e with FileExistsError => true | _ => false end)
            (ret tt)) w
    = (Ok tt, with_fs w (<["memory" := Dir]> (fs w)))).
  { unfold bind at 1. unfold exists_, bind, lookup_node. cbn [ret].
    pose proof Hmem as Hmem'. unfold dir_or_free in Hmem'.
    destruct (fs w !! "memory") as [[|c]|] eqn:E; try discriminate Hmem'.
    - cbn. rewrite with_fs_insert_dir by exact E. reflexivity.
    - unfold try_except, catch. rewrite makedirs_fuel_memory by exact Hmem.
      reflexivity. }
  rewrite (bind_ok _ _ _ _ _ Hfirst).
  unfold dir_or_free in Hmeta.
  unfold catch, mkdir, bind, lookup_node, isdir, check_parent.
  rewrite dirname_meta. cbn [String.eqb fs with_fs].
  rewrite lookup_insert_ne by discriminate.
  destruct (fs w !! "memory/meta") as [[|c]|] eqn:E; try discriminate Hmeta.
  - cbn. rewrite lookup_insert_ne, E by discriminate. cbn.
    f_equal. unfold with_fs. cbn. f_equal.
    rewrite (insert_id (<["memory":=Dir]> (fs w))); [reflexivity|].
    rewrite lookup_insert_ne by discriminate. exact E.
  - cbn. rewrite lookup_insert_eq. reflexivity.
Qed.

Lemma write_store file text w :
  Path.dirname file = "memory/meta" →
  file ≠ "memory" → file ≠ "memory/meta" →
  writable w file = true →
  (makedirs "memory/meta" ;; write_text file text) w
  = (Ok tt, with_fs w (stored file text (fs w))).
Proof.
  intros Hdir Hne1 Hne2 Hw. unfold writable in Hw.
  apply andb_prop in Hw as [Hw Hfile]. apply andb_prop in Hw as [Hmem Hmeta].
  rewrite (bind_ok _ _ _ _ _ (makedirs_meta w Hmem Hmeta)).
  unfold write_text, check_parent, bind, lookup_node. rewrite Hdir.
  cbn [String.eqb fs with_fs]. rewrite lookup_insert_eq. cbn [ret].
  cbn [fs with_fs]. rewrite !lookup_insert_ne by congruence.
  destruct (fs w !! file) as [[|c]|]; try discriminate Hfile; reflexivity.
Qed.

Lemma save_index_spec index w :
  writable w INDEX_FILE = true →
  save_index index w
  = (Ok tt, with_fs w (stored INDEX_FILE (Json.dumps index) (fs w))).
Proof.
  intros Hw. unfold save_index. rewrite dirname_index.
  apply write_store; [reflexivity|discriminate|discriminate|exact Hw].
Qed.

Lemma load_index_stored index w :
  Json.plain index = true →
  load_index (with_fs w (stored INDEX_FILE (Json.dumps index) (fs w)))
  = (Ok index, with_fs w (stored INDEX_FILE (Json.dumps index) (fs w))).
Proof.
  intros Hp. rewrite load_index_spec. cbn [fs with_fs]. unfold stored.
  rewrite lookup_insert_eq, JsonFacts.loads_dumps by exact Hp. reflexivity.
Qed.

(** ** Valid indexes are plain JSON *)

Lemma plain_strings (l : list string) : forallb Json.plain (List.map JStr l) = true.
Proof. induction l; cbn; auto. Qed.

Lemma plain_entry (e : entry) : Json.plain (entry_json e) = true.
Proof.
  unfold entry_json, make_entry. cbn [Json.plain List.map fst snd forallb].
  rewrite !plain_strings. reflexivity.
Qed.

Lemma plain_index (es : list (string * entry)) :
  NoDup (List.map fst es) → Json.plain (index_json es) = true.
Proof.
  intros Hnd. unfold index_json. cbn [Json.plain List.map fst snd forallb].
  change (bool_decide (NoDup ["version"; "entries"])) with true.
  cbn [andb]. rewrite List.map_map. cbn [fst].
  rewrite bool_decide_eq_true_2 by exact Hnd. cbn [andb].
  rewrite andb_true_r. induction es as [|[p e] es IH]; [reflexivity|].
  cbn [List.map forallb snd fst]. rewrite plain_entry. cbn [andb].
  apply IH. inversion Hnd; assumption.
Qed.

Lemma save_then_load w es :
  NoDup (List.map fst es) → writable w INDEX_FILE = true →
  ∃ w1, save_index (index_json es) w = (Ok tt, w1) ∧ store_holds w1 es.
Proof.
  intros Hnd Hw. eexists. split; [apply save_index_spec, Hw|].
  split; [exact Hnd|]. apply load_index_stored, plain_index, Hnd.
Qed.

(** ** Dictionaries *)

Lemma dict_get_map {A B} (f : A → B) (k : string) (d : list (string * A)) :
  Dict.get k (List.map (fun kv => (fst kv, f (snd kv))) d)
  = option_map f (Dict.get k d).
Proof.
  induction d as [|[k' v] d IH]; [reflexivity|]. cbn.
  destruct (String.eqb k k'); [reflexivity|exact IH].
Qed.

Lemma dict_set_map {A B} (f : A → B) (k : string) (v : A)
    (d : list (string * A)) :
  Dict.set k (f v) (List.map (fun kv => (fst kv, f (snd kv))) d)
  = List.map (fun kv => (fst kv, f (snd kv))) (Dict.set k v d).
Proof.
  induction d as [|[k' v'] d IH]; [reflexivity|]. cbn.
  destruct (String.eqb k k'); [reflexivity|]. cbn. rewrite IH. reflexivity.
Qed.

Lemma dict_get_set {A} (k : string) (v : A) (d : list (string * A)) :
  Dict.get k (Dict.set k v d) = Some v.
Proof.
  induction d as [|[k' v'] d IH]; cbn.
  - rewrite String.eqb_refl. reflexivity.
  - destruct (String.eqb k k') eqn:E; cbn.
    + rewrite String.eqb_refl. reflexivity.
    + rewrite E. exact IH.
Qed.

Lemma dict_get_set_ne {A} (k k' : string) (v : A) (d : list (string * A)) :
  k ≠ k' → Dict.get k' (Dict.set k v d) = Dict.get k' d.
Proof.
  intros Hne. induction d as [|[k0 v0] d IH]; cbn.
  - destruct (String.eqb_spec k' k); [congruence|reflexivity].
  - destruct (String.eqb_spec k k0) as [->|Hk]; cbn.
    + destruct (String.eqb_spec k' k0); [congruence|reflexivity].
    + destruct (String.eqb k' k0); [reflexivity|exact IH].
Qed.

Lemma dict_set_set {A} (k : string) (v v' : A) (d : list (string * A)) :
  Dict.set k v' (Dict.set k v d) = Dict.set k v' d.
Proof.
  induction d as [|[k0 v0] d IH]; cbn.
  - rewrite String.eqb_refl. reflexivity.
  - destruct (String.eqb k k0) eqn:E; cbn.
    + rewrite String.eqb_refl. reflexivity.
    + rewrite E, IH. reflexivity.
Qed.

Lemma dict_keys_set {A} (k : string) (v : A) (d : list (string * A)) :
  List.map fst (Dict.set k v d)
  = if bool_decide (k ∈ List.map fst d) then List.map fst d
    else List.map fst d ++ [k].
Proof.
  induction d as [|[k0 v0] d IH]; [reflexivity|]. cbn.
  destruct (String.eqb_spec k k0) as [->|Hk]; cbn.
  - rewrite bool_decide_eq_true_2 by left. reflexivity.
  - rewrite IH. destruct (bool_decide (k ∈ List.map fst d)) eqn:E.
    + apply bool_decide_eq_true in E.
      rewrite bool_decide_eq_true_2 by (right; exact E). reflexivity.
    + apply bool_decide_eq_false in E.
      rewrite bool_decide_eq_false_2; [reflexivity|].
      intros Hin. apply elem_of_cons in Hin as [?|?]; congruence.
Qed.

Lemma dict_set_nodup {A} (k : string) (v : A) (d : list (string * A)) :
  NoDup (List.map fst d) → NoDup (List.map fst (Dict.set k v d)).
Proof.
  intros Hnd. rewrite dict_keys_set.
  destruct (bool_decide (k ∈ List.map fst d)) eqn:E; [exact Hnd|].
  apply bool_decide_eq_false in E. apply NoDup_app. split; [exact Hnd|].
  split; [|apply NoDup_singleton].
  intros x Hx Hk. apply list_elem_of_singleton in Hk. subst. contradiction.
Qed.

Lemma dict_get_elem {A} (k : string) (v : A) (d : list (string * A)) :
  NoDup (List.map fst d) → (k, v) ∈ d ↔ Dict.get k d = Some v.
Proof.
  induction d as [|[k0 v0] d IH]; intros Hnd; cbn.
  - split; [intros H; inversion H|discriminate].
  - inversion Hnd as [|?? Hnotin Hnd']; subst.
    destruct (String.eqb_spec k k0) as [->|Hk].
    + split.
      * intros Hin. apply elem_of_cons in Hin as [Heq|Hin]; [congruence|].
        exfalso. apply Hnotin. apply list_elem_of_fmap. exists (k0, v). auto.
      * intros [= ->]. left.
    + rewrite <- (IH Hnd'). split.
      * intros Hin. apply elem_of_cons in Hin as [Heq|Hin]; [congruence|exact Hin].
      * intros Hin. right. exact Hin.
Qed.

(** ** Updating *)

Lemma set_entry_index es p e w :
  Py.set_entry (index_json es) p (entry_json e) w
  = (Ok (index_json (Dict.set p e es)), w).
Proof.
  unfold Py.set_entry, index_json, bind. cbn.
  rewrite (dict_set_map entry_json). reflexivity.
Qed.

Lemma text_of_file w p t : text_of w p = Some t → fs w !! p = Some (File (Text t)).
Proof.
  unfold text_of. destruct (fs w !! p) as [[|[s|]]|]; congruence.
Qed.

(** What a successful update does. *)
Lemma cmd_update_spec w es p t smry kws rel :
  store_holds w es → text_of w p = Some t → writable w INDEX_FILE = true →
  cmd_update p smry kws rel w
  = (Ok tt,
     printed (with_fs w (stored INDEX_FILE
                (Json.dumps (index_json
                   (Dict.set p (updated_entry p t smry kws rel) es)))
                (fs w)))
             [indexed_line p kws]).
Proof.
  intros [Hnd Hload] Ht Hw. apply text_of_file in Ht.
  unfold cmd_update. unfold bind at 1. rewrite isfile_spec, Ht. cbn [negb].
  rewrite (bind_ok _ _ _ _ _ Hload).
  unfold bind at 1. rewrite read_text_spec, Ht.
  change (make_entry p (content_hash t) smry kws
            match rel with Some l => l | None => [] end)
    with (entry_json (updated_entry p t smry kws rel)).
  rewrite (bind_ok _ _ _ _ _ (set_entry_index _ _ _ _)).
  rewrite (bind_ok _ _ _ _ _ (save_index_spec _ _ Hw)).
  reflexivity.
Qed.

(** ** The store after a write *)

Lemma stored_lookup_file file text m :
  stored file text m !! file = Some (File (Text text)).
Proof. unfold stored. apply lookup_insert_eq. Qed.

Lemma stored_lookup_other file text m p :
  p ≠ file → p ≠ "memory/meta" → p ≠ "memory" →
  stored file text m !! p = m !! p.
Proof.
  intros H1 H2 H3. unfold stored. rewrite !lookup_insert_ne by congruence.
  reflexivity.
Qed.

Lemma stored_stored file text text' m :
  file ≠ "memory/meta" → file ≠ "memory" →
  stored file text' (stored file text m) = stored file text' m.
Proof.
  intros H1 H2. unfold stored. apply map_eq. intros k.
  destruct (decide (k = file)) as [->|Hk]; [rewrite !lookup_insert_eq; reflexivity|].
  rewrite (lookup_insert_ne _ file k) by congruence.
  rewrite (lookup_insert_ne _ file k) by congruence.
  destruct (decide (k = "memory/meta")) as [->|Hk2];
    [rewrite !lookup_insert_eq; reflexivity|].
  rewrite (lookup_insert_ne _ "memory/meta" k) by congruence.
  rewrite (lookup_insert_ne _ "memory/meta" k) by congruence.
  destruct (decide (k = "memory")) as [->|Hk3];
    [rewrite !lookup_insert_eq; reflexivity|].
  rewrite !lookup_insert_ne by congruence. reflexivity.
Qed.

Lemma writable_stored file text w f :
  file ≠ "memory/meta" → file ≠ "memory" →
  writable (printed (with_fs w (stored file text (fs w))) f) file = true.
Proof.
  intros H1 H2. unfold writable, dir_or_free, stored. cbn [fs printed with_fs].
  rewrite lookup_insert_eq.
  rewrite (lookup_insert_ne _ file "memory/meta") by congruence.
  rewrite lookup_insert_eq.
  rewrite (lookup_insert_ne _ file "memory") by congruence.
  rewrite (lookup_insert_ne _ "memory/meta" "memory") by discriminate.
  rewrite lookup_insert_eq. reflexivity.
Qed.

Lemma file_not_dir_or_free w p t d :
  text_of w p = Some t → dir_or_free w d = true → p ≠ d.
Proof.
  unfold text_of, dir_or_free. intros Ht Hd ->.
  destruct (fs w !! d) as [[|[s|]]|]; congruence.
Qed.

Lemma load_index_printed w f : 
  load_index (printed w f) = (fst (load_index w), printed w f).
Proof. rewrite !load_index_spec. reflexivity. Qed.

Lemma store_holds_stored w es f :
  NoDup (List.map fst es) →
  store_holds (printed (with_fs w (stored INDEX_FILE
                                     (Json.dumps (index_json es)) (fs w))) f) es.
Proof.
  intros Hnd. split; [exact Hnd|]. rewrite load_index_printed.
  rewrite load_index_stored by (apply plain_index, Hnd). reflexivity.
Qed.

(** ** The claims about the store and the update *)

(** The tolerant part of [load_index]: with no file, or a file whose text
    is not JSON, it returns the empty index and raises nothing. *)
Lemma load_index_tolerant w :
  fs w !! INDEX_FILE = None
  ∨ (∃ text, fs w !! INDEX_FILE = Some (File (Text text))
             ∧ Json.loads text = None) →
  load_index w = (Ok empty_index, w).
Proof.
  rewrite load_index_spec. intros [->|(text & -> & ->)]; reflexivity.
Qed.

(** C2, at the failing input: an index file whose bytes are not text
    makes [load_index] raise [UnicodeDecodeError], which its [except]
    clause does not name, instead of returning the empty index. *)
Theorem load_index_undecodable_raises :
  load_index undecodable_store = (Raise UnicodeDecodeError, undecodable_store).
Proof. rewrite load_index_spec. reflexivity. Qed.

(** C3: saving a valid index and loading it again yields the index that
    was saved. *)
Theorem save_load_round_trip (w : world) (es : list (string * entry)) :
  NoDup (List.map fst es) → writable w INDEX_FILE = true →
  ∃ w1, save_index (index_json es) w = (Ok tt, w1)
        ∧ load_index w1 = (Ok (index_json es), w1).
Proof.
  intros Hnd Hw. destruct (save_then_load w es Hnd Hw) as (w1 & Hs & _ & Hl).
  eauto.
Qed.

(** C4: an update for a path that is no regular file prints the "not
    found" error, exits with status 1 and leaves the file system, and
    with it the Index Store, as it was. *)
Theorem update_missing_document_aborts (w : world) (fpath smry : string)
    (kws : list string) (rel : option (list string)) :
  file_exists w fpath = false →
  ∃ w', cmd_update fpath smry kws rel w = (Raise (SystemExit 1), w')
        ∧ stdout w' = stdout w ++ [("Error: file not found: " ++ fpath)%string]
        ∧ fs w' = fs w
        ∧ fst (load_index w') = fst (load_index w).
Proof.
  intros Hno. exists (printed w [("Error: file not found: " ++ fpath)%string]).
  split; [|split; [reflexivity|split; [reflexivity|]]].
  - unfold cmd_update. unfold bind at 1. rewrite isfile_spec.
    unfold file_exists in Hno. rewrite Hno. reflexivity.
  - rewrite load_index_printed. reflexivity.
Qed.

(** C6: an update stores the entry made of its arguments and of the hash
    of the document as it is at the call, whatever entry the path had
    before, and leaves the other entries alone; a second update with the
    same arguments, the document unchanged, leaves the store as the
    first one made it. *)
Theorem update_overwrites_and_is_idempotent (w : world)
    (es : list (string * entry)) (fpath text smry : string)
    (kws : list string) (rel : option (list string)) :
  store_holds w es → text_of w fpath = Some text → fpath ≠ INDEX_FILE →
  writable w INDEX_FILE = true →
  let e := updated_entry fpath text smry kws rel in
  ∃ w1 w2,
    cmd_update fpath smry kws rel w = (Ok tt, w1)
    ∧ store_holds w1 (Dict.set fpath e es)
    ∧ Dict.get fpath (Dict.set fpath e es) = Some e
    ∧ (∀ other, other ≠ fpath →
                Dict.get other (Dict.set fpath e es) = Dict.get other es)
    ∧ stored_hash e = content_hash text ∧ summary e = smry
    ∧ keywords e = kws
    ∧ related e = match rel with Some l => l | None => [] end
    ∧ cmd_update fpath smry kws rel w1 = (Ok tt, w2)
    ∧ store_holds w2 (Dict.set fpath e es)
    ∧ fs w2 = fs w1.
Proof.
  intros Hs Ht Hne Hw e.
  pose proof (cmd_update_spec w es fpath text smry kws rel Hs Ht Hw) as H1.
  fold e in H1.
  set (w1 := printed (with_fs w (stored INDEX_FILE
               (Json.dumps (index_json (Dict.set fpath e es))) (fs w)))
               [indexed_line fpath kws]) in *.
  assert (Hnd : NoDup (List.map fst (Dict.set fpath e es)))
    by (apply dict_set_nodup, Hs).
  assert (Hs1 : store_holds w1 (Dict.set fpath e es))
    by (apply store_holds_stored, Hnd).
  pose proof Hw as Hw'. unfold writable in Hw'.
  apply andb_prop in Hw' as [Hw' _]. apply andb_prop in Hw' as [Hmem Hmeta].
  assert (Ht1 : text_of w1 fpath = Some text).
  { unfold text_of, w1. cbn [fs printed with_fs].
    rewrite stored_lookup_other by eauto using file_not_dir_or_free.
    exact Ht. }
  assert (Hw1 : writable w1 INDEX_FILE = true)
    by (apply writable_stored; discriminate).
  pose proof (cmd_update_spec w1 _ fpath text smry kws rel Hs1 Ht1 Hw1) as H2.
  fold e in H2. rewrite dict_set_set in H2.
  eexists w1, _. split; [exact H1|]. split; [exact Hs1|].
  split; [apply dict_get_set|]. split; [intros; apply dict_get_set_ne; congruence|].
  do 4 (split; [reflexivity|]). split; [exact H2|]. split.
  - apply store_holds_stored, Hnd.
  - cbn [fs printed with_fs w1]. apply stored_stored; discriminate.
Qed.

(** ** Sorting *)

Section SortFacts.
Context {A : Type} (leb : A → A → bool).
Hypothesis leb_total : ∀ a b, leb a b = true ∨ leb b a = true.
Hypothesis leb_trans : ∀ a b c, leb a b = true → leb b c = true → leb a c = true.

Lemma insert_sorted_perm (x : A) (l : list A) :
  insert_sorted leb x l ≡ₚ x :: l.
Proof.
  induction l as [|y l IH]; [reflexivity|]. cbn.
  destruct (leb x y); [reflexivity|]. rewrite IH. apply Permutation_swap.
Qed.

Lemma stable_sort_perm (l : list A) : stable_sort leb l ≡ₚ l.
Proof.
  induction l as [|x l IH]; [reflexivity|]. cbn.
  rewrite insert_sorted_perm, IH. reflexivity.
Qed.

Lemma elem_of_stable_sort (x : A) (l : list A) :
  x ∈ stable_sort leb l ↔ x ∈ l.
Proof. rewrite stable_sort_perm. reflexivity. Qed.

Lemma insert_sorted_sorted (x : A) (l : list A) :
  StronglySorted (λ a b, leb a b = true) l →
  StronglySorted (λ a b, leb a b = true) (insert_sorted leb x l).
Proof.
  induction 1 as [|y l Hl IH Hy]; cbn.
  - repeat constructor.
  - destruct (leb x y) eqn:E.
    + constructor; [constructor; assumption|].
      constructor; [exact E|].
      eapply Forall_impl; [exact Hy|]. intros z Hz. cbn in Hz. eauto.
    + constructor; [exact IH|].
      rewrite insert_sorted_perm. constructor; [|exact Hy].
      destruct (leb_total x y) as [H|H]; congruence.
Qed.

Lemma stable_sort_sorted (l : list A) :
  StronglySorted (λ a b, leb a b = true) (stable_sort leb l).
Proof.
  induction l as [|x l IH]; cbn; [constructor|].
  apply insert_sorted_sorted, IH.
Qed.
End SortFacts.

Lemma strongly_sorted_filter {A} (R : A → A → Prop) (P : A → bool) (l : list A) :
  StronglySorted R l → StronglySorted R (List.filter P l).
Proof.
  induction 1 as [|x l Hl IH Hx]; cbn; [constructor|].
  destruct (P x); [|exact IH]. constructor; [exact IH|].
  rewrite Forall_forall in *. intros y Hy.
  apply list_elem_of_In, filter_In in Hy as [Hy _].
  apply Hx, list_elem_of_In, Hy.
Qed.

(** ** The order on strings *)

Lemma ascii_compare_eq (a b : ascii) : Ascii.compare a b = Eq → a = b.
Proof. apply Ascii.compare_eq_iff. Qed.

Lemma string_compare_trans_le (a b c : string) :
  String.compare a b ≠ Gt → String.compare b c ≠ Gt → String.compare a c ≠ Gt.
Proof.
  revert b c. induction a as [|x a IH]; intros [|y b] [|z c]; cbn; try congruence.
  unfold Ascii.compare.
  destruct (N.compare_spec (N_of_ascii x) (N_of_ascii y)) as [Hxy|Hxy|Hxy];
    destruct (N.compare_spec (N_of_ascii y) (N_of_ascii z)) as [Hyz|Hyz|Hyz];
    try congruence; intros H1 H2.
  - rewrite Hxy, Hyz in *. rewrite N.compare_refl. eauto.
  - rewrite Hxy. apply N.compare_lt_iff in Hyz. rewrite Hyz. congruence.
  - rewrite <- Hyz. apply N.compare_lt_iff in Hxy. rewrite Hxy. congruence.
  - assert (H : (N_of_ascii x < N_of_ascii z)%N) by lia.
    apply N.compare_lt_iff in H. rewrite H. congruence.
Qed.

Lemma str_leb_trans (a b c : string) :
  Str.leb a b = true → Str.leb b c = true → Str.leb a c = true.
Proof.
  unfold Str.leb, String.leb. intros H1 H2.
  pose proof (string_compare_trans_le a b c) as H.
  destruct (String.compare a b), (String.compare b c), (String.compare a c);
    try congruence; exfalso; apply H; congruence.
Qed.

Lemma str_leb_total (a b : string) : Str.leb a b = true ∨ Str.leb b a = true.
Proof. apply String.leb_total. Qed.

Lemma sorted_strings_sorted (l : list string) :
  StronglySorted (λ a b, Str.leb a b = true) (sorted_strings l).
Proof. apply stable_sort_sorted; [apply str_leb_total|apply str_leb_trans]. Qed.

Lemma elem_of_sorted_strings (x : string) (l : list string) :
  x ∈ sorted_strings l ↔ x ∈ l.
Proof. apply elem_of_stable_sort. Qed.

(** ** The documents of the vault *)

Lemma vault_files_spec w :
  vault_files w
  = (Ok (sorted_strings
           (List.filter Path.matches_vault_md
                        (List.map fst (map_to_list (fs w))))), w).
Proof. reflexivity. Qed.

Lemma elem_of_vault_listing w p :
  p ∈ sorted_strings (List.filter Path.matches_vault_md
                                  (List.map fst (map_to_list (fs w))))
  ↔ is_document w p.
Proof.
  rewrite elem_of_sorted_strings, list_elem_of_In, filter_In, <- list_elem_of_In.
  unfold is_document. split.
  - intros [Hin Hm]. split; [exact Hm|].
    apply list_elem_of_fmap in Hin as ([k v] & -> & Hin).
    apply elem_of_map_to_list in Hin. eauto.
  - intros [Hm [v Hv]]. split; [|exact Hm].
    apply list_elem_of_fmap. exists (p, v). split; [reflexivity|].
    apply elem_of_map_to_list. exact Hv.
Qed.

Lemma vault_listing_nodup w :
  NoDup (sorted_strings (List.filter Path.matches_vault_md
                                     (List.map fst (map_to_list (fs w))))).
Proof.
  unfold sorted_strings. rewrite stable_sort_perm.
  apply NoDup_ListNoDup, List.NoDup_filter, NoDup_ListNoDup.
  apply NoDup_fst_map_to_list.
Qed.

(** ** The scan *)

Lemma for_each_print {A} (f : A → string) (l : list A) w :
  for_each l (fun x => print (f x)) w = (Ok tt, printed w (List.map f l)).
Proof.
  revert w. induction l as [|x l IH]; intros w; cbn [for_each List.map].
  - unfold ret. rewrite printed_nil. reflexivity.
  - unfold bind. rewrite print_printed, IH, printed_printed. reflexivity.
Qed.

Lemma text_of_printed w out p : text_of (printed w out) p = text_of w p.
Proof. reflexivity. Qed.

Lemma entry_truthy e : Py.truthy (entry_json e) = true.
Proof. reflexivity. Qed.

Lemma entry_get_hash e d w :
  Py.get (entry_json e) "content_hash" d w = (Ok (JStr (stored_hash e)), w).
Proof. reflexivity. Qed.

Lemma entry_get_keywords e d w :
  Py.get (entry_json e) "keywords" d w
  = (Ok (JArr (List.map JStr (keywords e))), w).
Proof. reflexivity. Qed.

Lemma entry_get_summary e d w :
  Py.get (entry_json e) "summary" d w = (Ok (JStr (summary e)), w).
Proof. reflexivity. Qed.

Lemma entry_get_related e d w :
  Py.get (entry_json e) "related" d w
  = (Ok (JArr (List.map JStr (related e))), w).
Proof. reflexivity. Qed.

Section Scan.
Variables (w0 : world) (es : list (string * entry)).

Lemma scan_body p t out :
  text_of w0 p = Some t →
  scan_document (index_json es) p (printed w0 out)
  = (Ok (if scan_needs w0 es p then [p] else []),
     printed w0 (out ++ scan_lines w0 es p)).
Proof.
  intros Ht. unfold scan_document, scan_needs, scan_lines. rewrite Ht.
  unfold bind at 1. rewrite read_text_spec.
  rewrite (text_of_file _ _ _ (eq_trans (text_of_printed w0 out p) Ht)).
  unfold index_json. cbn [Py.getitem Dict.get String.eqb Ascii.eqb Bool.eqb].
  unfold bind at 1. cbn [ret]. unfold Py.get at 1. unfold bind at 1. cbn [ret].
  rewrite (dict_get_map entry_json). unfold needs_indexing.
  destruct (Dict.get p es) as [e|]; cbn [option_map].
  - rewrite entry_truthy. unfold bind at 1. unfold bind at 1.
    rewrite entry_get_hash. cbn [ret Py.eq_str].
    destruct (String.eqb (stored_hash e) (content_hash t)); cbn [negb].
    + unfold ret. rewrite app_nil_r. reflexivity.
    + unfold bind. rewrite !print_printed, for_each_print, print_printed.
      rewrite !printed_printed. unfold ret, scan_report.
      repeat (rewrite <- app_assoc; cbn [app]). reflexivity.
  - cbn [Py.truthy]. unfold bind at 1. cbn [ret negb].
    unfold bind. rewrite !print_printed, for_each_print, print_printed.
    rewrite !printed_printed. unfold ret, scan_report.
    repeat (rewrite <- app_assoc; cbn [app]). reflexivity.
Qed.

Lemma scan_loop (files : list string) :
  ∀ acc out,
    (∀ p, p ∈ files → is_Some (text_of w0 p)) →
    for_collect files (scan_document (index_json es)) acc (printed w0 out)
    = (Ok (acc ++ List.filter (scan_needs w0 es) files),
       printed w0 (out ++ flat_map (scan_lines w0 es) files)).
Proof.
  induction files as [|p files IH]; intros acc out Hall.
  - cbn. unfold ret. rewrite !app_nil_r. reflexivity.
  - destruct (Hall p) as [t Ht]; [left|].
    cbn [for_collect]. unfold bind. rewrite (scan_body p t out Ht).
    rewrite IH by (intros q Hq; apply Hall; right; exact Hq).
    cbn [List.filter flat_map]. rewrite <- !app_assoc.
    destruct (scan_needs w0 es p); reflexivity.
Qed.
End Scan.

(** What a scan returns and prints. *)
Lemma cmd_scan_spec w es :
  store_holds w es → documents_readable w →
  cmd_scan w
  = (Ok (List.filter (scan_needs w es) (vault_listing w)),
     printed w (flat_map (scan_lines w es) (vault_listing w)
                ++ [scan_summary (List.filter (scan_needs w es)
                                              (vault_listing w))])).
Proof.
  intros [_ Hload] Hdocs. unfold cmd_scan.
  rewrite (bind_ok _ _ _ _ _ Hload).
  unfold bind at 1. rewrite vault_files_spec. fold (vault_listing w).
  assert (Hall : ∀ p, p ∈ vault_listing w → is_Some (text_of w p))
    by (intros p Hp; apply Hdocs, elem_of_vault_listing, Hp).
  pose proof (scan_loop w es (vault_listing w) [] [] Hall) as Hloop.
  rewrite printed_nil in Hloop. cbn [app] in Hloop.
  rewrite (bind_ok _ _ _ _ _ Hloop). unfold bind.
  destruct (List.filter (scan_needs w es) (vault_listing w)) as [|x l] eqn:E;
    rewrite print_printed, printed_printed; reflexivity.
Qed.

Lemma scan_result_elem w es p :
  p ∈ List.filter (scan_needs w es) (vault_listing w)
  ↔ (is_document w p
     ∧ ∃ t, text_of w p = Some t ∧ needs_indexing es p t = true).
Proof.
  rewrite list_elem_of_In, filter_In, <- list_elem_of_In.
  unfold vault_listing. rewrite elem_of_vault_listing. unfold scan_needs.
  split.
  - intros [Hd Hn]. split; [exact Hd|].
    destruct (text_of w p) as [t|]; [eauto|discriminate].
  - intros [Hd (t & Ht & Hn)]. rewrite Ht. auto.
Qed.

Lemma scan_result_sorted w es :
  StronglySorted (λ a b, Str.leb a b = true)
                 (List.filter (scan_needs w es) (vault_listing w)).
Proof. apply strongly_sorted_filter, sorted_strings_sorted. Qed.

Lemma scan_result_nodup w es :
  NoDup (List.filter (scan_needs w es) (vault_listing w)).
Proof.
  apply NoDup_ListNoDup, List.NoDup_filter, NoDup_ListNoDup, vault_listing_nodup.
Qed.

(** Two worlds with the same documents. *)
Lemma is_document_same w w' p :
  fs w' !! p = fs w !! p → is_document w' p ↔ is_document w p.
Proof. unfold is_document. intros ->. reflexivity. Qed.

Lemma text_of_same w w' p :
  fs w' !! p = fs w !! p → text_of w' p = text_of w p.
Proof. unfold text_of. intros ->. reflexivity. Qed.

Lemma document_not_store p :
  Path.matches_vault_md p = true →
  p ≠ INDEX_FILE ∧ p ≠ "memory/meta" ∧ p ≠ "memory".
Proof. intros H. repeat split; intros ->; discriminate H. Qed.

Lemma stored_lookup_document file text m p :
  file = INDEX_FILE ∨ file = MISS_LOG_FILE →
  Path.matches_vault_md p = true →
  stored file text m !! p = m !! p.
Proof.
  intros Hf Hp. apply stored_lookup_other.
  - destruct Hf as [-> | ->]; intros ->; discriminate Hp.
  - intros ->; discriminate Hp.
  - intros ->; discriminate Hp.
Qed.

Lemma documents_readable_same w w' :
  (∀ p, Path.matches_vault_md p = true → fs w' !! p = fs w !! p) →
  documents_readable w → documents_readable w'.
Proof.
  intros Hsame Hr p Hd. pose proof Hd as [Hm _].
  rewrite (text_of_same w w' p (Hsame p Hm)). apply Hr.
  apply (is_document_same w w' p (Hsame p Hm)), Hd.
Qed.

(** The world after an update of a document. *)
Lemma update_keeps_documents w es p t smry kws rel :
  store_holds w es → documents_readable w → is_document w p →
  text_of w p = Some t → writable w INDEX_FILE = true →
  ∃ w1, cmd_update p smry kws rel w = (Ok tt, w1)
        ∧ store_holds w1 (Dict.set p (updated_entry p t smry kws rel) es)
        ∧ documents_readable w1
        ∧ is_document w1 p
        ∧ text_of w1 p = Some t.
Proof.
  intros Hs Hr [Hm Hp] Ht Hw.
  pose proof (cmd_update_spec w es p t smry kws rel Hs Ht Hw) as Hu.
  set (e := updated_entry p t smry kws rel) in *.
  set (w1 := printed (with_fs w (stored INDEX_FILE
               (Json.dumps (index_json (Dict.set p e es))) (fs w)))
               [indexed_line p kws]) in *.
  assert (Hsame : ∀ q, Path.matches_vault_md q = true →
                       fs w1 !! q = fs w !! q)
    by (intros q Hq; apply stored_lookup_document; auto).
  exists w1. split; [exact Hu|]. split.
  { apply store_holds_stored, dict_set_nodup, Hs. }
  split; [apply (documents_readable_same w w1); assumption|]. split.
  - apply (is_document_same w w1 p (Hsame p Hm)). split; assumption.
  - rewrite (text_of_same w w1 p (Hsame p Hm)). exact Ht.
Qed.

(** The world after the text of a document was replaced. *)
Lemma change_keeps_store w es p t' :
  store_holds w es → documents_readable w →
  Path.matches_vault_md p = true →
  let w' := with_fs w (<[p := File (Text t')]> (fs w)) in
  store_holds w' es ∧ documents_readable w' ∧ is_document w' p
  ∧ text_of w' p = Some t'.
Proof.
  intros [Hnd Hl] Hr Hm w'.
  assert (Hidx : fs w' !! INDEX_FILE = fs w !! INDEX_FILE).
  { cbn [fs with_fs w']. apply lookup_insert_ne. intros ->. discriminate Hm. }
  assert (Ht : text_of w' p = Some t').
  { unfold text_of. cbn [fs with_fs w']. rewrite lookup_insert_eq. reflexivity. }
  split; [|split; [|split; [|exact Ht]]].
  - split; [exact Hnd|]. rewrite load_index_spec in *. rewrite Hidx.
    destruct (fs w !! INDEX_FILE) as [[|[s|]]|];
      try destruct (Json.loads s); congruence.
  - intros q Hq. destruct (decide (q = p)) as [->|Hqp]; [rewrite Ht; eauto|].
    assert (Hq' : fs w' !! q = fs w !! q)
      by (cbn [fs with_fs w']; apply lookup_insert_ne; congruence).
    rewrite (text_of_same w w' q Hq'). apply Hr.
    apply (is_document_same w w' q Hq'), Hq.
  - split; [exact Hm|]. cbn [fs with_fs w']. rewrite lookup_insert_eq. eauto.
Qed.

(** Whether the scan reports a document that has an entry. *)
Lemma scan_reports_indexed w es p e t :
  store_holds w es → documents_readable w → is_document w p →
  text_of w p = Some t → Dict.get p es = Some e →
  p ∈ List.filter (scan_needs w es) (vault_listing w)
  ↔ stored_hash e ≠ content_hash t.
Proof.
  intros Hs Hr Hd Ht He. rewrite scan_result_elem. unfold needs_indexing.
  rewrite He. split.
  - intros [_ (t1 & Ht1 & Hn)]. rewrite Ht in Ht1. injection Ht1 as <-.
    destruct (String.eqb_spec (stored_hash e) (content_hash t));
      [discriminate Hn|assumption].
  - intros Hne. split; [exact Hd|]. exists t. split; [exact Ht|].
    destruct (String.eqb_spec (stored_hash e) (content_hash t));
      [contradiction|reflexivity].
Qed.

(** C5, as the code has it: the scan returns, in the order of the sorted
    listing and without touching the file system, exactly the documents
    with no entry or with a stored hash other than the hash of their
    text; a document that was just indexed is not among them, and it is
    again once its text has another hash. *)
Theorem scan_reports_documents_needing_indexing (w : world)
    (es : list (string * entry)) :
  store_holds w es → documents_readable w →
  ∃ needs w',
    cmd_scan w = (Ok needs, w')
    ∧ fs w' = fs w
    ∧ (∀ p, p ∈ needs
            ↔ (is_document w p
               ∧ ∃ t, text_of w p = Some t ∧ needs_indexing es p t = true))
    ∧ StronglySorted (λ a b, Str.leb a b = true) needs
    ∧ NoDup needs
    ∧ (∀ p t smry kws rel,
         is_document w p → text_of w p = Some t →
         writable w INDEX_FILE = true →
         ∃ w1 needs1 w2,
           cmd_update p smry kws rel w = (Ok tt, w1)
           ∧ cmd_scan w1 = (Ok needs1, w2)
           ∧ (p ∉ needs1)
           ∧ (∀ t', content_hash t' ≠ content_hash t →
                    ∃ needs2 w3,
                      cmd_scan (with_fs w1 (<[p := File (Text t')]> (fs w1)))
                      = (Ok needs2, w3)
                      ∧ p ∈ needs2)).
Proof.
  intros Hs Hr. eexists _, _. split; [exact (cmd_scan_spec w es Hs Hr)|].
  split; [reflexivity|]. split; [apply scan_result_elem|].
  split; [apply scan_result_sorted|]. split; [apply scan_result_nodup|].
  intros p t smry kws rel Hd Ht Hw.
  destruct (update_keeps_documents w es p t smry kws rel Hs Hr Hd Ht Hw)
    as (w1 & Hu & Hs1 & Hr1 & Hd1 & Ht1).
  set (e := updated_entry p t smry kws rel) in *.
  eexists w1, _, _. split; [exact Hu|].
  split; [exact (cmd_scan_spec w1 _ Hs1 Hr1)|]. split.
  - rewrite (scan_reports_indexed w1 _ p e t Hs1 Hr1 Hd1 Ht1)
      by apply dict_get_set.
    intros Hne. apply Hne. reflexivity.
  - intros t' Hneq.
    destruct (change_keeps_store w1 _ p t' Hs1 Hr1 (proj1 Hd))
      as (Hs2 & Hr2 & Hd2 & Ht2).
    eexists _, _. split; [exact (cmd_scan_spec _ _ Hs2 Hr2)|].
    rewrite (scan_reports_indexed _ _ p e t' Hs2 Hr2 Hd2 Ht2)
      by apply dict_get_set.
    cbn. congruence.
Qed.

(** ** Content hashes collide *)

Lemma elem_of_words (l : list ascii) (alphabet : list ascii) :
  Forall (λ c, c ∈ alphabet) l →
  Str.of_chars l ∈ words (length l) alphabet.
Proof.
  induction 1 as [|c l Hc _ IH]; cbn; [left|].
  apply list_elem_of_In, in_flat_map. exists c.
  split; [apply list_elem_of_In, Hc|].
  apply in_map, list_elem_of_In, IH.
Qed.

Lemma round_length st kw : length (Sha256.round st kw) = length st.
Proof.
  unfold Sha256.round.
  do 9 (destruct st as [|? st]; try reflexivity).
Qed.

Lemma fold_round_length kws st :
  length (fold_left Sha256.round kws st) = length st.
Proof.
  revert st. induction kws as [|kw kws IH]; intros st; cbn [fold_left]; [reflexivity|].
  rewrite IH. apply round_length.
Qed.

Lemma compress_length h block : length (Sha256.compress h block) = length h.
Proof.
  unfold Sha256.compress. rewrite length_map, length_combine, fold_round_length.
  lia.
Qed.

Lemma fold_compress_length blocks h :
  length (fold_left Sha256.compress blocks h) = length h.
Proof.
  revert h. induction blocks as [|b blocks IH]; intros h; cbn [fold_left]; [reflexivity|].
  rewrite IH. apply compress_length.
Qed.

Lemma digest_words_length msg : length (Sha256.digest_words msg) = 8%nat.
Proof.
  unfold Sha256.digest_words. rewrite fold_compress_length.
  unfold Sha256.initial_hash. rewrite length_map. reflexivity.
Qed.

Lemma hex_digit_alphabet (x : N) :
  Sha256.hex_digit (N.land x 0xF) ∈ hex_alphabet.
Proof.
  assert (H : (N.land x 0xF < 16)%N).
  { change 0xF%N with (N.ones 4). rewrite N.land_ones.
    apply N.mod_lt. discriminate. }
  rewrite <- (N2Nat.id (N.land x 0xF)).
  assert (Hk : (N.to_nat (N.land x 0xF) < 16)%nat) by lia.
  generalize dependent (N.to_nat (N.land x 0xF)). intros k Hk.
  apply list_elem_of_In.
  do 16 (destruct k as [|k];
         [vm_compute; repeat (first [left; reflexivity|right])|]).
  lia.
Qed.

Lemma hex_word_alphabet (x : N) :
  Forall (λ c, c ∈ hex_alphabet) (Sha256.hex_word x).
Proof.
  unfold Sha256.hex_word. apply Forall_forall. intros c Hc.
  apply list_elem_of_In, in_map_iff in Hc as (i & <- & _).
  apply hex_digit_alphabet.
Qed.

Lemma hex_word_length (x : N) : length (Sha256.hex_word x) = 8%nat.
Proof. unfold Sha256.hex_word. rewrite length_map. reflexivity. Qed.

Lemma substring_of_chars (n : nat) (l : list ascii) :
  substring 0 n (Str.of_chars l) = Str.of_chars (firstn n l).
Proof.
  revert l. induction n as [|n IH]; intros [|c l]; cbn; try reflexivity.
  rewrite IH. reflexivity.
Qed.

(** A content hash is a string of 16 hexadecimal digits. *)
Lemma content_hash_range (text : string) :
  content_hash text ∈ words 16 hex_alphabet.
Proof.
  unfold content_hash, Str.prefix, Sha256.hexdigest.
  rewrite substring_of_chars.
  pose proof (digest_words_length (Sha256.utf8_encode text)) as Hlen.
  destruct (Sha256.digest_words (Sha256.utf8_encode text))
    as [|a [|b ws]]; try discriminate Hlen.
  cbn [flat_map]. rewrite app_assoc.
  rewrite take_app_length'
    by (rewrite length_app, !hex_word_length; reflexivity).
  replace 16%nat with (length (Sha256.hex_word a ++ Sha256.hex_word b))
    by (rewrite length_app, !hex_word_length; reflexivity).
  apply elem_of_words, Forall_app. split; apply hex_word_alphabet.
Qed.


Lemma run_of_a_length n : String.length (run_of_a n) = n.
Proof.
  unfold run_of_a. induction n; cbn; [reflexivity|]. f_equal. exact IHn.
Qed.

(** The 16 hexadecimal digits of a content hash are fewer than the
    texts: some two texts have the same content hash. *)
Lemma content_hash_collides :
  ¬ (∀ t t', t ≠ t' → content_hash t ≠ content_hash t').
Proof.
  intros Hinj.
  set (range := words 16 hex_alphabet).
  set (inputs := List.map run_of_a (seq 0 (S (length range)))).
  assert (Hnd : NoDup (List.map content_hash inputs)).
  { apply NoDup_fmap_2_strong.
    - intros t t' _ _ Heq. destruct (decide (t = t')) as [|Hne]; [assumption|].
      exfalso. exact (Hinj t t' Hne Heq).
    - apply NoDup_fmap_2_strong; [|apply NoDup_seq].
      intros n m _ _ Heq. rewrite <- (run_of_a_length n), Heq.
      apply run_of_a_length. }
  assert (Hsub : List.map content_hash inputs ⊆+ range).
  { apply NoDup_submseteq; [exact Hnd|].
    intros h Hh. apply list_elem_of_fmap in Hh as (t & -> & _).
    apply content_hash_range. }
  apply submseteq_length in Hsub.
  unfold inputs in Hsub. rewrite !length_map, length_seq in Hsub. lia.
Qed.

Lemma one_note_lookup text p :
  fs (one_note text) !! p
  = if decide (p = "memory/a.md") then Some (File (Text text)) else None.
Proof.
  cbn [fs one_note]. destruct (decide (p = "memory/a.md")) as [->|Hne].
  - apply lookup_singleton_eq.
  - apply lookup_singleton_ne. congruence.
Qed.

Lemma one_note_store text : store_holds (one_note text) [].
Proof.
  split; [constructor|]. rewrite load_index_spec, one_note_lookup.
  reflexivity.
Qed.

Lemma one_note_readable text : documents_readable (one_note text).
Proof.
  intros p [_ Hp]. unfold text_of. rewrite one_note_lookup in *.
  destruct (decide (p = "memory/a.md")); [eauto|].
  destruct Hp as [? Hp]. discriminate Hp.
Qed.

Lemma one_note_document text : is_document (one_note text) "memory/a.md".
Proof. split; [reflexivity|]. rewrite one_note_lookup. cbn. eauto. Qed.

Lemma one_note_text text : text_of (one_note text) "memory/a.md" = Some text.
Proof. unfold text_of. rewrite one_note_lookup. reflexivity. Qed.

Lemma one_note_writable text : writable (one_note text) INDEX_FILE = true.
Proof.
  unfold writable, dir_or_free. rewrite !one_note_lookup. reflexivity.
Qed.

(** C5 as worded fails: two texts with the same 16-digit hash are not
    told apart, so a document whose text changed from one to the other
    after indexing is not reported. *)
Lemma changed_content_may_stay_hidden : ¬ changed_content_reappears.
Proof.
  intros Hclaim. apply content_hash_collides. intros t t' Hne Heq.
  destruct (update_keeps_documents (one_note t) [] "memory/a.md" t "" [] None
              (one_note_store t) (one_note_readable t) (one_note_document t)
              (one_note_text t) (one_note_writable t))
    as (w1 & Hu & Hs1 & Hr1 & Hd1 & Ht1).
  destruct (change_keeps_store w1 _ "memory/a.md" t' Hs1 Hr1 eq_refl)
    as (Hs2 & Hr2 & Hd2 & Ht2).
  pose proof (cmd_scan_spec _ _ Hs2 Hr2) as Hscan.
  pose proof (Hclaim (one_note t) [] "memory/a.md" t t' "" [] None w1 _ _
                (one_note_store t) (one_note_readable t)
                (one_note_document t) (one_note_text t)
                (one_note_writable t) Hu (not_eq_sym Hne) Hscan) as Hin.
  apply (scan_reports_indexed _ _ "memory/a.md"
           (updated_entry "memory/a.md" t "" [] None) t' Hs2 Hr2 Hd2 Ht2)
    in Hin; [|apply dict_get_set].
  apply Hin. exact Heq.
Qed.

(** A test that decides [documents_readable]. *)
Lemma documents_readable_check w :
  forallb (fun p => match text_of w p with Some _ => true | None => false end)
          (vault_listing w) = true →
  documents_readable w.
Proof.
  intros H p Hd. apply elem_of_vault_listing, list_elem_of_In in Hd.
  rewrite forallb_forall in H. specialize (H p Hd).
  destruct (text_of w p); [eauto|discriminate].
Qed.

(** ** The miss log *)

Lemma bind_assoc {A B C} (m : M A) (f : A → M B) (g : B → M C) w :
  bind (bind m f) g w = bind m (fun x => bind (f x) g) w.
Proof. unfold bind. destruct (m w) as [[a|e] w']; reflexivity. Qed.

(** What reading the miss log gives, by the state of its file. *)
Lemma read_miss_log_spec w :
  try_except (let* text := read_text MISS_LOG_FILE in Py.json_loads text)
             missing_or_corrupt (ret (JArr [])) w
  = (match fs w !! MISS_LOG_FILE with
     | None => Ok (JArr [])
     | Some Dir => Raise IsADirectoryError
     | Some (File Undecodable) => Raise UnicodeDecodeError
     | Some (File (Text s)) =>
         match Json.loads s with
         | Some v => Ok v
         | None => Ok (JArr [])
         end
     end, w).
Proof.
  unfold try_except, catch, bind. rewrite read_text_spec.
  destruct (fs w !! MISS_LOG_FILE) as [[|[s|]]|]; try reflexivity.
  unfold Py.json_loads. destruct (Json.loads s); reflexivity.
Qed.

Lemma miss_log_absent w log :
  fs w !! MISS_LOG_FILE = None → miss_log_holds w log → log = [].
Proof.
  unfold miss_log_holds. rewrite read_miss_log_spec. intros ->. congruence.
Qed.

Lemma plain_miss_record t q p r : Json.plain (miss_record t q p r) = true.
Proof. reflexivity. Qed.

Lemma miss_log_stored w log f :
  forallb Json.plain log = true →
  miss_log_holds
    (printed (with_fs w (stored MISS_LOG_FILE (Json.dumps (JArr log)) (fs w))) f)
    log.
Proof.
  intros Hp. unfold miss_log_holds. rewrite read_miss_log_spec.
  cbn [fs printed with_fs]. rewrite stored_lookup_file.
  rewrite JsonFacts.loads_dumps by exact Hp. reflexivity.
Qed.

(** What logging a miss does. *)
Lemma cmd_miss_spec w log q p r :
  miss_log_holds w log → writable w MISS_LOG_FILE = true →
  cmd_miss q p r w
  = (Ok tt,
     printed (with_fs w (stored MISS_LOG_FILE
                (Json.dumps (JArr (log ++ [miss_record (isoformat (clock w))
                                                       q p r])))
                (fs w)))
             [miss_line q p]).
Proof.
  intros Hlog Hw. unfold cmd_miss.
  rewrite (bind_ok _ _ _ _ _ Hlog).
  unfold bind at 1. unfold now_utc at 1. unfold bind at 1.
  cbn [Py.append ret]. rewrite dirname_miss_log.
  rewrite <- bind_assoc.
  rewrite (bind_ok _ _ _ _ _
             (write_store MISS_LOG_FILE _ w eq_refl
                ltac:(discriminate) ltac:(discriminate) Hw)).
  reflexivity.
Qed.

Lemma string_app_assoc (a b c : string) :
  (a ++ (b ++ c))%string = ((a ++ b) ++ c)%string.
Proof.
  induction a as [|x a IH]; [reflexivity|].
  change (String x (a ++ (b ++ c)) = String x ((a ++ b) ++ c))%string.
  f_equal. exact IH.
Qed.

Lemma isoformat_utc d : ∃ body, isoformat d = (body ++ "+00:00")%string.
Proof.
  unfold isoformat. rewrite !string_app_assoc. eexists. reflexivity.
Qed.

(** C7: logging a miss leaves the records of the log as they were and
    adds one at the end, made of the query, the expected path, the
    reason and the time of the call in ISO format with the UTC offset;
    with no log file the new log is that one record. *)
Theorem miss_appends_one_record (w : world) (log : list json)
    (query expected_path reason : string) :
  miss_log_holds w log → forallb Json.plain log = true →
  writable w MISS_LOG_FILE = true →
  let record :=
    miss_record (isoformat (clock w)) query expected_path reason in
  ∃ w',
    cmd_miss query expected_path reason w = (Ok tt, w')
    ∧ miss_log_holds w' (log ++ [record])
    ∧ fs w' !! MISS_LOG_FILE
      = Some (File (Text (Json.dumps (JArr (log ++ [record])))))
    ∧ (∃ body, isoformat (clock w) = (body ++ "+00:00")%string)
    ∧ (fs w !! MISS_LOG_FILE = None → miss_log_holds w' [record]).
Proof.
  intros Hlog Hp Hw record. eexists. split; [apply cmd_miss_spec; eassumption|].
  assert (Hp' : forallb Json.plain (log ++ [record]) = true)
    by (rewrite forallb_app, Hp; reflexivity).
  split; [apply miss_log_stored, Hp'|].
  split; [cbn [fs printed with_fs]; apply stored_lookup_file|].
  split; [apply isoformat_utc|].
  intros Habs. rewrite (miss_log_absent w log Habs Hlog) in *.
  apply miss_log_stored, Hp'.
Qed.

(** ** Scores *)

Lemma map_M_lower (l : list string) w :
  Py.map_M Py.lower (List.map JStr l) w = (Ok (List.map Str.lower l), w).
Proof.
  induction l as [|x l IH]; [reflexivity|].
  cbn [List.map Py.map_M]. unfold bind at 1. cbn [Py.lower ret].
  unfold bind at 1. rewrite IH. reflexivity.
Qed.

Lemma lower_set_strings (l : list string) w :
  Py.lower_set (JArr (List.map JStr l)) w
  = (Ok (list_to_set (List.map Str.lower l)), w).
Proof.
  unfold Py.lower_set. unfold bind at 1. cbn [Py.iter ret].
  unfold bind. rewrite map_M_lower. reflexivity.
Qed.

(** The size of an intersection of two sets given by lists, counted on
    the first list without its repetitions. *)
Lemma size_inter_lists (l k : list string) :
  size ((list_to_set l : gset string) ∩ list_to_set k)
  = length (filter (λ t, t ∈ k) (remove_dups l)).
Proof.
  rewrite <- (size_list_to_set (C := gset string)
                (filter (λ t, t ∈ k) (remove_dups l))).
  - f_equal. apply set_eq. intros x.
    rewrite elem_of_intersection, !elem_of_list_to_set, list_elem_of_filter,
      elem_of_remove_dups.
    tauto.
  - apply NoDup_filter, NoDup_remove_dups.
Qed.

(** The score the code computes is the score of Section 4.6. *)
Lemma entry_score_spec (query : string) (e : entry) w :
  entry_score (query_terms_of query) (entry_json e) w
  = (Ok (spec_score query e), w).
Proof.
  unfold entry_score. unfold bind at 1. rewrite entry_get_keywords.
  unfold bind at 1. rewrite lower_set_strings.
  unfold bind at 1. rewrite entry_get_summary.
  unfold bind at 1. unfold Py.lower_split, bind. cbn [Py.lower ret].
  unfold query_terms_of. rewrite !size_inter_lists. reflexivity.
Qed.

Lemma matched_keywords_spec (query : string) (e : entry) w :
  matched_keywords (query_terms_of query) (entry_json e) w
  = (Ok (query_terms_of query
         ∩ list_to_set (List.map Str.lower (keywords e))), w).
Proof.
  unfold matched_keywords. unfold bind at 1. rewrite entry_get_keywords.
  unfold bind. rewrite lower_set_strings. reflexivity.
Qed.

Lemma score_entry_spec (query : string) (p : string) (e : entry) w :
  score_entry (query_terms_of query) p (entry_json e) w
  = (Ok (if score_positive (spec_score query e)
         then [(spec_score query e, p, entry_json e)] else []), w).
Proof.
  unfold score_entry, bind. rewrite entry_score_spec.
  destruct (score_positive (spec_score query e)); reflexivity.
Qed.

Lemma score_loop (query : string) (es : list (string * entry)) acc w :
  for_collect
    (List.map (fun pe => (fst pe, entry_json (snd pe))) es)
    (fun kv => score_entry (query_terms_of query) (fst kv) (snd kv)) acc w
  = (Ok (acc ++ List.map result_json (spec_candidates query es)), w).
Proof.
  revert acc. induction es as [|[p e] es IH]; intros acc.
  - cbn. unfold ret. rewrite app_nil_r. reflexivity.
  - cbn [List.map for_collect fst snd]. unfold bind.
    rewrite score_entry_spec, IH. unfold spec_candidates.
    cbn [List.map List.filter with_score fst snd].
    destruct (score_positive (spec_score query e));
      cbn [List.map]; rewrite <- ?app_assoc; reflexivity.
Qed.

(** ** Sorting results *)

Lemma insert_sorted_map {A B} (f : A → B) (leb : A → A → bool)
    (leb' : B → B → bool) (x : A) (l : list A) :
  (∀ a b, leb' (f a) (f b) = leb a b) →
  List.map f (insert_sorted leb x l) = insert_sorted leb' (f x) (List.map f l).
Proof.
  intros H. induction l as [|y l IH]; [reflexivity|]. cbn.
  rewrite H. destruct (leb x y); cbn; [reflexivity|]. rewrite IH. reflexivity.
Qed.

Lemma stable_sort_map {A B} (f : A → B) (leb : A → A → bool)
    (leb' : B → B → bool) (l : list A) :
  (∀ a b, leb' (f a) (f b) = leb a b) →
  List.map f (stable_sort leb l) = stable_sort leb' (List.map f l).
Proof.
  intros H. induction l as [|x l IH]; [reflexivity|]. cbn.
  rewrite (insert_sorted_map f leb leb') by exact H. rewrite IH. reflexivity.
Qed.

Lemma results_sorted (query : string) (es : list (string * entry)) :
  stable_sort by_score_desc (List.map result_json (spec_candidates query es))
  = List.map result_json (spec_ranking query es).
Proof.
  unfold spec_ranking. symmetry. apply stable_sort_map. reflexivity.
Qed.

Lemma higher_score_first_total a b :
  higher_score_first a b = true ∨ higher_score_first b a = true.
Proof.
  unfold higher_score_first. rewrite !Qle_bool_iff.
  destruct (Qlt_le_dec (- fst (fst b)) (- fst (fst a))) as [H|H];
    [right; apply Qlt_le_weak, H|left; exact H].
Qed.

Lemma higher_score_first_trans a b c :
  higher_score_first a b = true → higher_score_first b c = true →
  higher_score_first a c = true.
Proof. unfold higher_score_first. rewrite !Qle_bool_iff. apply Qle_trans. Qed.

Lemma higher_score_first_le a b :
  higher_score_first a b = true → (fst (fst b) <= fst (fst a))%Q.
Proof.
  unfold higher_score_first. rewrite Qle_bool_iff. intros H.
  apply Qopp_le_compat in H. rewrite !Qopp_involutive in H. exact H.
Qed.

Lemma strongly_sorted_impl {A} (R R' : A → A → Prop) (l : list A) :
  (∀ a b, R a b → R' a b) → StronglySorted R l → StronglySorted R' l.
Proof.
  intros H. induction 1 as [|x l Hl IH Hx]; constructor; [exact IH|].
  eapply Forall_impl; [exact Hx|]. intros y. apply H.
Qed.

Lemma strongly_sorted_map {A B} (f : A → B) (R : B → B → Prop) (l : list A) :
  StronglySorted (λ a b, R (f a) (f b)) l → StronglySorted R (List.map f l).
Proof.
  induction 1 as [|x l Hl IH Hx]; cbn; constructor; [exact IH|].
  apply Forall_forall. intros y Hy.
  apply list_elem_of_fmap in Hy as (z & -> & Hz).
  rewrite Forall_forall in Hx. apply Hx, Hz.
Qed.

Lemma spec_ranking_sorted (query : string) (es : list (string * entry)) :
  StronglySorted (λ a b, (fst (fst b) <= fst (fst a))%Q)
                 (spec_ranking query es).
Proof.
  apply (strongly_sorted_impl (λ a b, higher_score_first a b = true)).
  - apply higher_score_first_le.
  - apply stable_sort_sorted;
      [apply higher_score_first_total|apply higher_score_first_trans].
Qed.

Lemma score_positive_lt (s : Q) : score_positive s = true ↔ (0 < s)%Q.
Proof.
  unfold score_positive. rewrite negb_true_iff, <- not_true_iff_false.
  rewrite Qle_bool_iff. split; [apply Qnot_le_lt|apply Qlt_not_le].
Qed.

Lemma elem_of_spec_ranking (query : string) (es : list (string * entry)) s p e :
  (s, p, e) ∈ spec_ranking query es
  ↔ ((p, e) ∈ es ∧ s = spec_score query e ∧ (0 < s)%Q).
Proof.
  unfold spec_ranking. rewrite elem_of_stable_sort. unfold spec_candidates.
  rewrite list_elem_of_In, filter_In, <- list_elem_of_In, list_elem_of_fmap.
  cbn [fst]. rewrite score_positive_lt. split.
  - intros [([p' e'] & Heq & Hin) Hpos]. unfold with_score in Heq.
    cbn in Heq. injection Heq as -> -> ->. auto.
  - intros (Hin & -> & Hpos). split; [|exact Hpos].
    exists (p, e). split; [reflexivity|exact Hin].
Qed.

(** ** The search commands *)

Lemma index_entries es w :
  Py.getitem (index_json es) "entries" w
  = (Ok (JObj (List.map (fun pe => (fst pe, entry_json (snd pe))) es)), w).
Proof. reflexivity. Qed.

Lemma print_results (query : string) (l : list (Q * string * entry)) w :
  for_each (List.map result_json l)
    (fun r =>
       let '(score, fpath, entry) := r in
       print ("  [" ++ format_score score ++ "] " ++ fpath) ;;
       (let* summary := Py.get entry "summary" (JStr "") in
        let* shown := Py.str_prefix 100 summary in
        print ("        " ++ shown)) ;;
       (let* matched := matched_keywords (query_terms_of query) entry in
        if decide (matched = ∅) then ret tt
        else print ("        matched keywords: "
                    ++ Str.join ", " (sorted_strings (elements matched)))) ;;
       print "") w
  = (Ok tt, printed w (flat_map (result_lines query) l)).
Proof.
  revert w. induction l as [|[[s p] e] l IH]; intros w.
  - cbn. unfold ret. rewrite printed_nil. reflexivity.
  - cbn [List.map for_each result_json fst snd flat_map].
    unfold bind at 1. unfold bind at 1. rewrite print_printed.
    unfold bind at 1. unfold bind at 1. rewrite entry_get_summary.
    unfold bind at 1. cbn [Py.str_prefix ret]. rewrite print_printed.
    unfold bind at 1. unfold bind at 1. rewrite matched_keywords_spec.
    fold (matched_terms query e). unfold result_lines. cbn [fst snd].
    destruct (decide (matched_terms query e = ∅)) as [Hm|Hm].
    + cbn [ret]. unfold bind. rewrite print_printed, IH.
      rewrite !printed_printed. cbn [app]. reflexivity.
    + rewrite print_printed. unfold bind. rewrite print_printed, IH.
      rewrite !printed_printed. cbn [app]. reflexivity.
Qed.

(** What the human mode returns and prints. *)
Lemma cmd_search_spec (w : world) (es : list (string * entry)) (query : string) :
  store_holds w es →
  cmd_search query w
  = (Ok (List.map result_json (spec_ranking query es)),
     printed w (search_lines query es)).
Proof.
  intros [_ Hload]. unfold cmd_search.
  rewrite (bind_ok _ _ _ _ _ Hload).
  unfold bind at 1. rewrite index_entries.
  unfold bind at 1. cbn [Py.items ret].
  unfold bind at 1. rewrite score_loop. cbn [app].
  rewrite results_sorted. unfold search_lines.
  destruct (spec_ranking query es) as [|r l] eqn:E.
  - cbn [List.map]. unfold bind. rewrite print_printed. reflexivity.
  - cbn [List.map]. unfold bind at 1. rewrite print_printed.
    change (result_json r :: List.map result_json l)
      with (List.map result_json (r :: l)).
    rewrite firstn_map. unfold bind at 1. rewrite print_results.
    rewrite printed_printed. reflexivity.
Qed.

Lemma map_M_pure {A B C} (f : B → M C) (h : A → B) (g : A → C)
    (l : list A) w :
  (∀ x w, f (h x) w = (Ok (g x), w)) →
  Py.map_M f (List.map h l) w = (Ok (List.map g l), w).
Proof.
  intros H. induction l as [|x l IH]; [reflexivity|].
  cbn [List.map Py.map_M]. unfold bind at 1. rewrite H.
  unfold bind at 1. rewrite IH. reflexivity.
Qed.

Lemma make_candidates (query : string) (l : list (Q * string * entry)) w :
  Py.map_M
    (fun r =>
       let '(score, fpath, entry) := r in
       let* matched := matched_keywords (query_terms_of query) entry in
       let* summary := Py.get entry "summary" (JStr "") in
       let* kws := Py.get entry "keywords" (JArr []) in
       let* related := Py.get entry "related" (JArr []) in
       ret {| cand_path := fpath;
              keyword_score := score;
              cand_summary := summary;
              cand_keywords := kws;
              cand_matched := sorted_strings (elements matched);
              cand_related := related |})
    (List.map result_json l) w
  = (Ok (List.map (candidate_of query) l), w).
Proof.
  apply map_M_pure. intros [[s p] e] w'. cbn [result_json fst snd].
  unfold bind at 1. rewrite matched_keywords_spec.
  unfold bind at 1. rewrite entry_get_summary.
  unfold bind at 1. rewrite entry_get_keywords.
  unfold bind at 1. rewrite entry_get_related. reflexivity.
Qed.

(** What the structured mode returns and prints. *)
Lemma cmd_search_json_spec (w : world) (es : list (string * entry))
    (query : string) (top_n : nat) :
  store_holds w es →
  cmd_search_json query top_n w
  = (Ok (search_output_of query top_n es),
     printed w [Json.dumps (output_json (search_output_of query top_n es))]).
Proof.
  intros [_ Hload]. unfold cmd_search_json.
  rewrite (bind_ok _ _ _ _ _ Hload).
  unfold bind at 1. rewrite index_entries.
  unfold bind at 1. cbn [Py.items ret].
  unfold bind at 1. rewrite score_loop. cbn [app].
  rewrite results_sorted, firstn_map.
  unfold bind at 1. rewrite make_candidates.
  unfold bind. rewrite print_printed. reflexivity.
Qed.

(** ** Words and lower case *)

Lemma isspace_lower_char (c : ascii) :
  Str.isspace (Str.lower_char c) = Str.isspace c.
Proof. destruct c as [[] [] [] [] [] [] [] []]; reflexivity. Qed.

Lemma lower_of_chars (l : list ascii) :
  Str.lower (Str.of_chars l) = Str.of_chars (List.map Str.lower_char l).
Proof. induction l as [|c l IH]; cbn; [reflexivity|]. f_equal. exact IH. Qed.

Lemma split_lower_aux (cur : list ascii) (s : string) :
  Str.split_ws_aux (List.map Str.lower_char cur) (Str.lower s)
  = List.map Str.lower (Str.split_ws_aux cur s).
Proof.
  revert cur. induction s as [|c s IH]; intros cur; cbn [Str.lower Str.split_ws_aux].
  - destruct cur as [|x cur]; [reflexivity|]. cbn [List.map].
    rewrite lower_of_chars, map_rev. reflexivity.
  - rewrite isspace_lower_char. destruct (Str.isspace c).
    + destruct cur as [|x cur]; cbn [List.map].
      * apply (IH []).
      * rewrite lower_of_chars, map_rev. f_equal. apply (IH []).
    + apply (IH (c :: cur)).
Qed.

(** Lowering a text lowers its words. *)
Lemma split_lower (s : string) :
  Str.split (Str.lower s) = List.map Str.lower (Str.split s).
Proof. apply (split_lower_aux [] s). Qed.

Lemma has_space_of_chars (l : list ascii) :
  Str.has_space (Str.of_chars l) = existsb Str.isspace l.
Proof. unfold Str.has_space. rewrite JsonFacts.of_chars_chars. reflexivity. Qed.

Lemma existsb_rev {A} (f : A → bool) (l : list A) :
  existsb f (rev l) = existsb f l.
Proof.
  induction l as [|x l IH]; [reflexivity|]. cbn.
  rewrite existsb_app, IH. cbn. rewrite orb_false_r. apply orb_comm.
Qed.

Lemma split_no_space_aux (cur : list ascii) (s : string) :
  existsb Str.isspace cur = false →
  Forall (λ t, Str.has_space t = false) (Str.split_ws_aux cur s).
Proof.
  revert cur. induction s as [|c s IH]; intros cur Hcur; cbn [Str.split_ws_aux].
  - destruct cur as [|x cur]; [constructor|]. constructor; [|constructor].
    rewrite has_space_of_chars, existsb_rev. exact Hcur.
  - destruct (Str.isspace c) eqn:E.
    + destruct cur as [|x cur]; [apply IH; reflexivity|].
      constructor; [|apply IH; reflexivity].
      rewrite has_space_of_chars, existsb_rev. exact Hcur.
    + apply IH. cbn. rewrite E. exact Hcur.
Qed.

(** A word of a text holds no white space. *)
Lemma split_no_space (s t : string) :
  t ∈ Str.split s → Str.has_space t = false.
Proof.
  intros Hin. pose proof (split_no_space_aux [] s eq_refl) as H.
  rewrite Forall_forall in H. apply H, Hin.
Qed.

Lemma has_space_lower (s : string) :
  Str.has_space (Str.lower s) = Str.has_space s.
Proof.
  unfold Str.has_space. induction s as [|c s IH]; [reflexivity|].
  cbn. rewrite isspace_lower_char. f_equal. exact IH.
Qed.

Lemma query_term_no_space (query t : string) :
  t ∈ spec_query_terms query → Str.has_space t = false.
Proof.
  unfold spec_query_terms. rewrite elem_of_remove_dups. apply split_no_space.
Qed.

Lemma elem_of_query_terms (query t : string) :
  t ∈ query_terms_of query ↔ t ∈ spec_query_terms query.
Proof.
  unfold query_terms_of, spec_query_terms.
  rewrite elem_of_list_to_set, elem_of_remove_dups. reflexivity.
Qed.

Lemma filter_agree {A} (P Q : A → Prop) `{∀ x, Decision (P x)}
    `{∀ x, Decision (Q x)} (l : list A) :
  (∀ x, x ∈ l → P x ↔ Q x) → filter P l = filter Q l.
Proof.
  induction l as [|x l IH]; intros Hall; [reflexivity|].
  rewrite !filter_cons.
  pose proof (Hall x ltac:(left)) as Hx.
  rewrite IH by (intros y Hy; apply Hall; right; exact Hy).
  destruct (decide (P x)), (decide (Q x)); tauto.
Qed.

(** ** Scores: order and growth *)

Lemma keyword_matches_same_set (query : string) (ks ks' : list string) :
  (∀ t, t ∈ spec_query_terms query →
        t ∈ List.map Str.lower ks ↔ t ∈ List.map Str.lower ks') →
  spec_keyword_matches query ks = spec_keyword_matches query ks'.
Proof.
  intros H. unfold spec_keyword_matches. f_equal. apply filter_agree. exact H.
Qed.

Lemma summary_matches_same_words (query : string) (s s' : string) :
  Str.split s ≡ₚ Str.split s' →
  spec_summary_matches query s = spec_summary_matches query s'.
Proof.
  intros H. unfold spec_summary_matches. f_equal. apply filter_agree.
  intros t _. rewrite !split_lower, H. reflexivity.
Qed.

Lemma score_value_mono (k k' s : nat) :
  (k ≤ k')%nat → (score_value k s <= score_value k' s)%Q.
Proof.
  intros H. unfold score_value. apply Qplus_le_compat; [|apply Qle_refl].
  rewrite <- Zle_Qle. lia.
Qed.

(** ** The claims about search *)

Lemma elem_of_results (l : list (Q * string * entry)) s p j :
  (s, p, j) ∈ List.map result_json l
  ↔ ∃ e, j = entry_json e ∧ (s, p, e) ∈ l.
Proof.
  rewrite list_elem_of_fmap. split.
  - intros ([[s' p'] e] & Heq & Hin). unfold result_json in Heq. cbn in Heq.
    injection Heq as -> -> ->. eauto.
  - intros (e & -> & Hin). exists (s, p, e). split; [reflexivity|exact Hin].
Qed.

(** C1: in both modes the score of an entry is one point per query term
    among its lowercased keywords plus half a point per query term among
    the lowercased words of its summary; the entries with score 0 are
    left out and the others are sorted by score, highest first; the
    structured mode lists the first [top_n] of them.  The entry of the
    scenario scores 1.5 for "rust ownership". *)
Theorem search_scores_filters_and_ranks (w : world)
    (es : list (string * entry)) (query : string) (top_n : nat) :
  store_holds w es →
  ∃ results out w1 w2,
    cmd_search query w = (Ok results, w1)
    ∧ cmd_search_json query top_n w = (Ok out, w2)
    ∧ (∀ s p j, (s, p, j) ∈ results
                ↔ (∃ e, (p, e) ∈ es ∧ j = entry_json e
                        ∧ s = spec_score query e ∧ (0 < s)%Q))
    ∧ StronglySorted (λ a b, (fst (fst b) <= fst (fst a))%Q) results
    ∧ List.map (λ c, (keyword_score c, cand_path c)) (candidates out)
      = List.map (λ r, (fst (fst r), snd (fst r))) (firstn top_n results)
    ∧ (∀ e w0,
         keywords e = ["rust"; "memory"] →
         summary e = "notes on rust borrow checker" →
         entry_score (query_terms_of "rust ownership") (entry_json e) w0
         = (Ok (3 # 2)%Q, w0)).
Proof.
  intros Hs. eexists _, _, _, _.
  split; [exact (cmd_search_spec w es query Hs)|].
  split; [exact (cmd_search_json_spec w es query top_n Hs)|].
  split; [|split; [|split]].
  - intros s p j. rewrite elem_of_results. split.
    + intros (e & -> & Hin). apply elem_of_spec_ranking in Hin.
      exists e. tauto.
    + intros (e & Hin & -> & Hsc & Hpos). exists e.
      split; [reflexivity|]. apply elem_of_spec_ranking. tauto.
  - apply strongly_sorted_map. apply spec_ranking_sorted.
  - cbn [candidates search_output_of]. rewrite firstn_map, !List.map_map.
    reflexivity.
  - intros e w0 Hk Hsum. rewrite entry_score_spec. unfold spec_score.
    rewrite Hk, Hsum. reflexivity.
Qed.

(** C8: the score does not go down when more query terms match the
    keywords (the summary matching as many), and it is the same after
    any reordering of the keywords or of the words of the summary. *)
Theorem score_monotone_and_order_independent (query : string)
    (e e' : entry) (w : world) :
  ∃ s s',
    entry_score (query_terms_of query) (entry_json e) w = (Ok s, w)
    ∧ entry_score (query_terms_of query) (entry_json e') w = (Ok s', w)
    ∧ s = score_value (spec_keyword_matches query (keywords e))
                      (spec_summary_matches query (summary e))
    ∧ (spec_summary_matches query (summary e)
       = spec_summary_matches query (summary e') →
       (spec_keyword_matches query (keywords e)
        ≤ spec_keyword_matches query (keywords e'))%nat →
       (s <= s')%Q)
    ∧ (keywords e ≡ₚ keywords e' →
       Str.split (summary e) ≡ₚ Str.split (summary e') →
       s = s').
Proof.
  exists (spec_score query e), (spec_score query e').
  split; [apply entry_score_spec|]. split; [apply entry_score_spec|].
  split; [reflexivity|]. split.
  - intros Hsum Hkw. unfold spec_score. rewrite Hsum.
    apply score_value_mono, Hkw.
  - intros Hkw Hsum. unfold spec_score.
    rewrite (keyword_matches_same_set query (keywords e) (keywords e'))
      by (intros t _; rewrite Hkw; reflexivity).
    rewrite (summary_matches_same_words query _ _ Hsum). reflexivity.
Qed.

Lemma spaced_keyword_not_a_term (query k : string) :
  Str.has_space k = true → Str.lower k ∉ query_terms_of query.
Proof.
  intros Hk Hin. apply elem_of_query_terms, query_term_no_space in Hin.
  rewrite has_space_lower in Hin. congruence.
Qed.

(** C10: a keyword that holds white space is no query term, whatever the
    query: it is never among the matched keywords, and the entry scores
    as it does without that keyword. *)
Theorem multiword_keyword_never_matches (query k : string) (e : entry)
    (w : world) :
  Str.has_space k = true →
  (Str.lower k ∉ query_terms_of query)
  ∧ (∃ m, matched_keywords (query_terms_of query) (entry_json e) w = (Ok m, w)
          ∧ Str.lower k ∉ m)
  ∧ entry_score (query_terms_of query) (entry_json e) w
    = entry_score (query_terms_of query)
                  (entry_json (without_keyword k e)) w.
Proof.
  intros Hk. pose proof (spaced_keyword_not_a_term query k Hk) as Hnot.
  split; [exact Hnot|]. split.
  - eexists. split; [apply matched_keywords_spec|].
    rewrite elem_of_intersection. tauto.
  - rewrite !entry_score_spec. f_equal. f_equal. unfold spec_score.
    cbn [summary keywords without_keyword]. f_equal. f_equal. f_equal.
    apply keyword_matches_same_set. intros t Ht.
    rewrite !list_elem_of_fmap. split.
    + intros (x & -> & Hx). exists x. split; [reflexivity|].
      apply list_elem_of_In, filter_In. split; [apply list_elem_of_In, Hx|].
      destruct (String.eqb_spec x k) as [->|]; [|reflexivity].
      apply query_term_no_space in Ht. rewrite has_space_lower in Ht.
      congruence.
    + intros (x & -> & Hx). exists x. split; [reflexivity|].
      apply list_elem_of_In, filter_In in Hx as [Hx _].
      apply list_elem_of_In, Hx.
Qed.

(** ** Statistics *)

Lemma collect_keywords_spec (es : list (string * entry)) (acc : gset string) w :
  collect_keywords (List.map (fun pe => entry_json (snd pe)) es) acc w
  = (Ok (acc ∪ all_keywords_of es), w).
Proof.
  revert acc. induction es as [|[p e] es IH]; intros acc.
  - cbn. unfold ret, all_keywords_of. cbn.
    rewrite (right_id_L ∅ (∪)). reflexivity.
  - cbn [List.map collect_keywords snd]. unfold bind at 1.
    rewrite entry_get_keywords. unfold bind at 1.
    rewrite lower_set_strings, IH. f_equal. f_equal.
    unfold all_keywords_of. cbn [flat_map snd].
    rewrite list_to_set_app_L, (assoc_L (∪)). reflexivity.
Qed.

Lemma index_keys (es : list (string * entry)) :
  Dict.keys (List.map (fun pe => (fst pe, entry_json (snd pe))) es)
  = List.map fst es.
Proof. unfold Dict.keys. rewrite List.map_map. reflexivity. Qed.

Lemma index_values (es : list (string * entry)) :
  Dict.values (List.map (fun pe => (fst pe, entry_json (snd pe))) es)
  = List.map (fun pe => entry_json (snd pe)) es.
Proof. unfold Dict.values. rewrite List.map_map. reflexivity. Qed.

Lemma stale_paths_spec (ps : list string) w :
  stale_paths (List.map JStr ps) w
  = (Ok (List.filter (fun p => negb (file_exists w p)) ps), w).
Proof.
  induction ps as [|p ps IH]; [reflexivity|].
  cbn [List.map stale_paths]. unfold bind at 1. rewrite isfile_spec.
  unfold bind at 1. rewrite IH. cbn [ret List.filter].
  unfold file_exists. destruct (fs w !! p) as [[|c]|]; reflexivity.
Qed.

Lemma log_miss_count_prints w :
  ∃ r out, log_miss_count w = (r, printed w out).
Proof.
  unfold log_miss_count, try_except, catch. unfold bind at 1.
  rewrite read_text_spec.
  destruct (fs w !! MISS_LOG_FILE) as [[|[s|]]|];
    try (eexists _, []; rewrite printed_nil; reflexivity).
  unfold bind at 1. unfold Py.json_loads.
  destruct (Json.loads s) as [v|];
    [|eexists _, []; rewrite printed_nil; reflexivity].
  unfold bind at 1. unfold ret at 1.
  destruct v; cbn [Py.len];
    try (eexists _, []; rewrite printed_nil; reflexivity);
    (eexists _, [_]; unfold ret, bind; rewrite print_printed; reflexivity).
Qed.

(** What [cmd_stats] does: it prints [stats_lines] and then the size of
    the miss log. *)
Lemma cmd_stats_spec (w : world) (es : list (string * entry)) :
  store_holds w es →
  cmd_stats w = log_miss_count (printed w (stats_lines w es)).
Proof.
  intros [_ Hload]. unfold cmd_stats.
  rewrite (bind_ok _ _ _ _ _ Hload).
  unfold bind at 1. unfold index_json at 1. cbn [Py.get Dict.get String.eqb
    Ascii.eqb Bool.eqb ret].
  unfold bind at 1. rewrite vault_files_spec. fold (vault_listing w).
  unfold bind at 1. cbn [Py.len ret]. rewrite length_map.
  unfold bind at 1. cbn [Py.values ret]. rewrite index_values.
  unfold bind at 1. rewrite collect_keywords_spec.
  rewrite (left_id_L ∅ (∪)).
  unfold bind at 1. cbn [Py.iter ret]. rewrite index_keys.
  unfold bind at 1. rewrite stale_paths_spec. fold (stale_entries w es).
  unfold bind at 1. rewrite print_printed.
  unfold bind at 1. rewrite print_printed.
  unfold bind at 1. rewrite print_printed.
  rewrite !printed_printed. cbn [app].
  unfold stats_lines.
  destruct (stale_entries w es) as [|p ps] eqn:Est;
    destruct (decide (all_keywords_of es = ∅)) as [Hk|Hk];
    unfold bind at 1; cbn [ret]; rewrite ?print_printed, ?printed_printed;
    unfold bind at 1; cbn [ret]; rewrite ?print_printed, ?printed_printed;
    reflexivity.
Qed.

Lemma store_holds_same_fs w w' es :
  fs w' = fs w → store_holds w es → store_holds w' es.
Proof.
  intros Hfs [Hnd Hl]. split; [exact Hnd|].
  rewrite load_index_spec in *. rewrite Hfs.
  destruct (fs w !! INDEX_FILE) as [[|[s|]]|];
    try destruct (Json.loads s); congruence.
Qed.

Lemma elem_of_stale_entries w es p :
  p ∈ stale_entries w es ↔ (p ∈ List.map fst es ∧ file_exists w p = false).
Proof.
  unfold stale_entries.
  rewrite list_elem_of_In, filter_In, <- list_elem_of_In, negb_true_iff.
  reflexivity.
Qed.

Lemma elem_of_all_keywords es k :
  k ∈ all_keywords_of es
  ↔ ∃ p e kw, (p, e) ∈ es ∧ kw ∈ keywords e ∧ k = Str.lower kw.
Proof.
  unfold all_keywords_of.
  rewrite elem_of_list_to_set, list_elem_of_In, in_flat_map. split.
  - intros ([p e] & Hin & Hk). cbn in Hk.
    apply list_elem_of_In, list_elem_of_fmap in Hk as (kw & -> & Hkw).
    exists p, e, kw. split; [apply list_elem_of_In, Hin|]. auto.
  - intros (p & e & kw & Hin & Hkw & ->). exists (p, e).
    split; [apply list_elem_of_In, Hin|]. cbn.
    apply list_elem_of_In, list_elem_of_fmap. eauto.
Qed.

Lemma stale_line_printed w es :
  stale_entries w es ≠ [] →
  stale_line (length (stale_entries w es)) ∈ stats_lines w es.
Proof.
  intros Hne. unfold stats_lines.
  destruct (stale_entries w es) as [|p ps]; [congruence|].
  rewrite !elem_of_app. right. left. left.
Qed.

(** C9: [cmd_stats] prints, as the number of stale entries, the number
    of indexed paths that are no regular file (the line is left out when
    there is none), and as the number of unique keywords the size of the
    set of all lowercased keywords; it changes no file, so the stale
    entries stay in the index.  With three entries of which one path is
    gone the line says 1. *)
Theorem stats_counts_stale_entries_and_keywords (w : world)
    (es : list (string * entry)) :
  store_holds w es →
  ∃ r out w',
    cmd_stats w = (r, w')
    ∧ stdout w' = stdout w ++ stats_lines w es ++ out
    ∧ fs w' = fs w
    ∧ store_holds w' es
    ∧ (∀ p, p ∈ stale_entries w es
            ↔ (p ∈ List.map fst es ∧ file_exists w p = false))
    ∧ (stale_entries w es ≠ [] →
       stale_line (length (stale_entries w es)) ∈ stats_lines w es)
    ∧ (length es = 3%nat → length (stale_entries w es) = 1%nat →
       stale_line 1 ∈ stats_lines w es)
    ∧ (∀ k, k ∈ all_keywords_of es
            ↔ ∃ p e kw, (p, e) ∈ es ∧ kw ∈ keywords e ∧ k = Str.lower kw)
    ∧ ("Unique keywords:  " ++ Py.nat_str (size (all_keywords_of es)))%string
      ∈ stats_lines w es.
Proof.
  intros Hs.
  destruct (log_miss_count_prints (printed w (stats_lines w es)))
    as (r & out & Hlog).
  exists r, out, (printed (printed w (stats_lines w es)) out).
  split; [rewrite (cmd_stats_spec w es Hs); exact Hlog|].
  split; [cbn [stdout printed]; rewrite app_assoc; reflexivity|].
  split; [reflexivity|].
  split; [apply (store_holds_same_fs w); [reflexivity|exact Hs]|].
  split; [apply elem_of_stale_entries|].
  split; [apply stale_line_printed|].
  split.
  { intros _ Hone. rewrite <- Hone. apply stale_line_printed.
    intros Hnil. rewrite Hnil in Hone. discriminate Hone. }
  split; [apply elem_of_all_keywords|].
  unfold stats_lines. rewrite !elem_of_app. left. right. right. left.
Qed.

(* ===================================================================== *)
(** * Further properties of the commands *)
(* ===================================================================== *)

(** ** The content hash and the store files *)

Lemma elem_of_words_inv (n : nat) (alphabet : list ascii) (s : string) :
  s ∈ words n alphabet →
  String.length s = n ∧ Forall (λ c, c ∈ alphabet) (Str.chars s).
Proof.
  revert s. induction n as [|n IH]; intros s; cbn [words].
  - intros ->%list_elem_of_singleton. split; [reflexivity|constructor].
  - intros Hs. apply list_elem_of_In, in_flat_map in Hs as (c & Hc & Hs).
    apply in_map_iff in Hs as (s' & <- & Hs').
    apply list_elem_of_In, IH in Hs' as [Hlen Hall].
    split; [cbn; f_equal; exact Hlen|].
    cbn. constructor; [apply list_elem_of_In, Hc|exact Hall].
Qed.

(** X1: a content hash is 16 characters long, each a digit or a letter from
    [a] to [f]. *)
Theorem content_hash_is_16_hex_digits (text : string) :
  String.length (content_hash text) = 16%nat
  ∧ Forall (λ c, c ∈ hex_alphabet) (Str.chars (content_hash text)).
Proof. apply elem_of_words_inv, content_hash_range. Qed.

(** X2: when nothing but directories stands where the store goes,
    [save_index] makes [memory] and [memory/meta] as needed, writes the
    index file, prints nothing and leaves every other path alone. *)
Theorem save_index_makes_the_directories (index : json) (w : world) :
  writable w INDEX_FILE = true →
  ∃ w1, save_index index w = (Ok tt, w1)
        ∧ fs w1 !! "memory" = Some Dir
        ∧ fs w1 !! "memory/meta" = Some Dir
        ∧ fs w1 !! INDEX_FILE = Some (File (Text (Json.dumps index)))
        ∧ (∀ p, p ∉ index_store_paths → fs w1 !! p = fs w !! p)
        ∧ stdout w1 = stdout w.
Proof.
  intros Hw. eexists. split; [apply save_index_spec, Hw|].
  cbn [fs with_fs stdout]. unfold stored.
  split; [rewrite !lookup_insert_ne by discriminate; apply lookup_insert_eq|].
  split; [rewrite lookup_insert_ne by discriminate; apply lookup_insert_eq|].
  split; [apply lookup_insert_eq|]. split; [|reflexivity].
  intros p Hp. unfold index_store_paths in Hp.
  rewrite !not_elem_of_cons in Hp. destruct Hp as (H1 & H2 & H3 & _).
  rewrite !lookup_insert_ne by congruence. reflexivity.
Qed.

Lemma makedirs_meta_blocked w c :
  fs w !! "memory" = Some Dir →
  fs w !! "memory/meta" = Some (File c) →
  makedirs "memory/meta" w = (Raise FileExistsError, w).
Proof.
  intros Hmem Hmeta. unfold makedirs.
  change (String.length "memory/meta") with (S 10). generalize 10%nat as n.
  intros n. rewrite makedirs_fuel_S, dirname_meta, basename_meta.
  cbn [String.eqb negb andb].
  unfold bind at 1. unfold bind at 1. unfold exists_, bind, lookup_node.
  rewrite Hmem. cbn [ret].
  unfold catch, mkdir, bind, lookup_node, isdir. rewrite Hmeta.
  cbn. rewrite Hmeta. reflexivity.
Qed.

Lemma makedirs_memory_blocked w c :
  fs w !! "memory" = Some (File c) →
  fs w !! "memory/meta" = None →
  makedirs "memory/meta" w = (Raise NotADirectoryError, w).
Proof.
  intros Hmem Hmeta. unfold makedirs.
  change (String.length "memory/meta") with (S 10). generalize 10%nat as n.
  intros n. rewrite makedirs_fuel_S, dirname_meta, basename_meta.
  cbn [String.eqb negb andb].
  unfold bind at 1. unfold bind at 1. unfold exists_, bind, lookup_node.
  rewrite Hmem. cbn [ret].
  unfold catch, mkdir, bind, lookup_node, isdir, check_parent.
  rewrite Hmeta, dirname_meta. cbn. rewrite Hmem. cbn. rewrite Hmeta.
  reflexivity.
Qed.

(** X3: a regular file where a directory of the store should be stops
    [save_index]: it raises [FileExistsError] for [memory/meta] and
    [NotADirectoryError] for [memory], and nothing is written. *)
Theorem save_index_blocked_by_a_file (index : json) (w : world) (c : content) :
  (fs w !! "memory" = Some Dir → fs w !! "memory/meta" = Some (File c) →
   save_index index w = (Raise FileExistsError, w))
  ∧ (fs w !! "memory" = Some (File c) → fs w !! "memory/meta" = None →
     save_index index w = (Raise NotADirectoryError, w)).
Proof.
  split; intros Hmem Hmeta; unfold save_index; rewrite dirname_index;
    apply bind_raise.
  - apply (makedirs_meta_blocked w c); assumption.
  - apply (makedirs_memory_blocked w c); assumption.
Qed.

Lemma load_index_text w text v :
  fs w !! INDEX_FILE = Some (File (Text text)) → Json.loads text = Some v →
  load_index w = (Ok v, w).
Proof. intros Hf Hl. rewrite load_index_spec, Hf, Hl. reflexivity. Qed.

Lemma getitem_shape_error v e w :
  shape_error v = Some e → Py.getitem v "entries" w = (Raise e, w).
Proof.
  unfold shape_error, Py.getitem. destruct v; try (intros [= <-]; reflexivity).
  destruct (Dict.get "entries" members); [discriminate|].
  intros [= <-]; reflexivity.
Qed.

(** X4: an index file that holds JSON of another shape than an index (no
    dictionary, or one without ['entries']) is not taken for a corrupt
    store: [load_index] returns it as it is, and the search commands
    and [cmd_update] raise [TypeError] or [KeyError] on it; the file
    stays as it is. *)
Theorem index_of_another_shape_is_not_replaced (w : world)
    (text : string) (v : json) (e : exn) (query : string) (top_n : nat)
    (fpath doc smry : string) (kws : list string)
    (rel : option (list string)) :
  fs w !! INDEX_FILE = Some (File (Text text)) →
  Json.loads text = Some v →
  shape_error v = Some e →
  text_of w fpath = Some doc →
  load_index w = (Ok v, w)
  ∧ cmd_search query w = (Raise e, w)
  ∧ cmd_search_json query top_n w = (Raise e, w)
  ∧ cmd_update fpath smry kws rel w = (Raise e, w).
Proof.
  intros Hf Hl Hs Hd. pose proof (load_index_text w text v Hf Hl) as Hload.
  split; [exact Hload|].
  split; [|split].
  - unfold cmd_search. rewrite (bind_ok _ _ _ _ _ Hload).
    apply bind_raise, getitem_shape_error, Hs.
  - unfold cmd_search_json. rewrite (bind_ok _ _ _ _ _ Hload).
    apply bind_raise, getitem_shape_error, Hs.
  - unfold cmd_update. unfold bind at 1. rewrite isfile_spec.
    rewrite (text_of_file _ _ _ Hd). cbn [negb].
    rewrite (bind_ok _ _ _ _ _ Hload).
    unfold bind at 1. rewrite read_text_spec, (text_of_file _ _ _ Hd).
    apply bind_raise. unfold Py.set_entry. apply bind_raise.
    apply getitem_shape_error, Hs.
Qed.

(** ** Updates *)

(** X5: a successful update prints one line with the number of keywords,
    keeps the indexed paths in their order (a new path goes last) and
    leaves the entries of the other paths as they were. *)
Theorem update_keeps_the_other_entries_in_place (w : world)
    (es : list (string * entry)) (fpath text smry : string)
    (kws : list string) (rel : option (list string)) :
  store_holds w es → text_of w fpath = Some text →
  writable w INDEX_FILE = true →
  ∃ w1 es1,
    cmd_update fpath smry kws rel w = (Ok tt, w1)
    ∧ store_holds w1 es1
    ∧ List.map fst es1
      = (if bool_decide (fpath ∈ List.map fst es) then List.map fst es
         else List.map fst es ++ [fpath])
    ∧ (∀ other, other ≠ fpath → Dict.get other es1 = Dict.get other es)
    ∧ stdout w1
      = stdout w ++ [("Indexed: " ++ fpath ++ " ("
                      ++ Py.nat_str (length kws) ++ " keywords)")%string].
Proof.
  intros Hs Ht Hw.
  eexists _, (Dict.set fpath (updated_entry fpath text smry kws rel) es).
  split; [apply (cmd_update_spec w es fpath text smry kws rel Hs Ht Hw)|].
  split; [apply store_holds_stored, dict_set_nodup, Hs|].
  split; [apply dict_keys_set|].
  split; [intros other Hne; apply dict_get_set_ne; congruence|reflexivity].
Qed.

(** ** Showing a document *)

(** X6: [cmd_file] prints the text of a document and then its content hash;
    for a path that is no regular file it prints the error and exits
    with status 1; a file that is no text makes it raise
    [UnicodeDecodeError] with nothing printed. *)
Theorem file_shows_text_and_hash (fpath : string) (w : world) :
  cmd_file fpath w
  = match fs w !! fpath with
    | Some (File (Text text)) => (Ok tt, printed w [text; hash_line text])
    | Some (File Undecodable) => (Raise UnicodeDecodeError, w)
    | _ => (Raise (SystemExit 1),
            printed w [("Error: file not found: " ++ fpath)%string])
    end.
Proof.
  unfold cmd_file. unfold bind at 1. rewrite isfile_spec.
  destruct (fs w !! fpath) as [[|[text|]]|] eqn:E; cbn [negb];
    try reflexivity.
  - unfold bind at 1. rewrite read_text_spec, E.
    unfold bind. rewrite !print_printed, printed_printed. reflexivity.
  - unfold bind at 1. rewrite read_text_spec, E. reflexivity.
Qed.

(** ** The index through the commands *)

Lemma load_index_undecodable w :
  fs w !! INDEX_FILE = Some (File Undecodable) →
  load_index w = (Raise UnicodeDecodeError, w).
Proof. intros H. rewrite load_index_spec, H. reflexivity. Qed.

(** X7: an index file that is no text stops every command that loads the
    index: [cmd_scan], [cmd_search], [cmd_search_json], [cmd_stats] and,
    for a document that is there, [cmd_update] raise
    [UnicodeDecodeError]; nothing is printed or written. *)
Theorem undecodable_index_blocks_the_commands (w : world)
    (query : string) (top_n : nat) (fpath smry : string)
    (kws : list string) (rel : option (list string)) :
  fs w !! INDEX_FILE = Some (File Undecodable) →
  file_exists w fpath = true →
  cmd_scan w = (Raise UnicodeDecodeError, w)
  ∧ cmd_search query w = (Raise UnicodeDecodeError, w)
  ∧ cmd_search_json query top_n w = (Raise UnicodeDecodeError, w)
  ∧ cmd_stats w = (Raise UnicodeDecodeError, w)
  ∧ cmd_update fpath smry kws rel w = (Raise UnicodeDecodeError, w).
Proof.
  intros Hi Hf. pose proof (load_index_undecodable w Hi) as Hl.
  repeat split; try (apply bind_raise, Hl).
  unfold cmd_update. unfold bind at 1. rewrite isfile_spec.
  unfold file_exists in Hf.
  destruct (fs w !! fpath) as [[|c]|]; try discriminate Hf.
  cbn [negb]. apply bind_raise, Hl.
Qed.

Lemma spec_score_one_word (q k : string) (e : entry) :
  Str.split (Str.lower q) = [Str.lower k] → k ∈ keywords e →
  (1 <= spec_score q e)%Q.
Proof.
  intros Hk Hin. unfold spec_score, spec_keyword_matches, spec_query_terms.
  rewrite Hk. cbn [remove_dups].
  destruct (decide_rel elem_of (Str.lower k) []) as [H|_]; [inversion H|].
  rewrite filter_cons.
  destruct (decide (Str.lower k ∈ List.map Str.lower (keywords e))) as [_|Hn].
  - cbn [filter list_filter length].
    generalize (spec_summary_matches q (summary e)). intros m.
    unfold Qle. cbn. lia.
  - exfalso. apply Hn, list_elem_of_fmap. exists k. auto.
Qed.

(** X8: what was indexed is found: after an update, a query that is one
    word, equal up to case to one of the keywords of the update, returns
    the document with a score of 1 at least. *)
Theorem indexed_keyword_is_found (w : world) (es : list (string * entry))
    (fpath text smry k query : string) (kws : list string)
    (rel : option (list string)) :
  store_holds w es → text_of w fpath = Some text →
  writable w INDEX_FILE = true →
  k ∈ kws → Str.split (Str.lower query) = [Str.lower k] →
  ∃ w1 results w2,
    cmd_update fpath smry kws rel w = (Ok tt, w1)
    ∧ cmd_search query w1 = (Ok results, w2)
    ∧ ∃ s entry, (s, fpath, entry) ∈ results ∧ (1 <= s)%Q.
Proof.
  intros Hs Ht Hw Hin Hk.
  set (e := updated_entry fpath text smry kws rel).
  assert (Hnd : NoDup (List.map fst (Dict.set fpath e es)))
    by apply dict_set_nodup, Hs.
  eexists _, _, _.
  split; [apply (cmd_update_spec w es fpath text smry kws rel Hs Ht Hw)|].
  split; [apply cmd_search_spec, store_holds_stored, Hnd|].
  fold e. exists (spec_score query e), (entry_json e).
  assert (Hone : (1 <= spec_score query e)%Q)
    by (apply (spec_score_one_word query k); [exact Hk|exact Hin]).
  split; [|exact Hone].
  apply list_elem_of_fmap. exists (spec_score query e, fpath, e).
  split; [reflexivity|]. apply elem_of_spec_ranking.
  split; [apply dict_get_elem; [exact Hnd|apply dict_get_set]|].
  split; [reflexivity|].
  eapply Qlt_le_trans; [|exact Hone]. reflexivity.
Qed.

(** ** Scanning and indexing *)

Lemma index_all_spec annotate (w0 : world) (l : list string) :
  ∀ w es,
    store_holds w es → writable w INDEX_FILE = true →
    (∀ q, Path.matches_vault_md q = true → fs w !! q = fs w0 !! q) →
    (∀ p, p ∈ l → Path.matches_vault_md p = true ∧ is_Some (text_of w0 p)) →
    ∃ w' es',
      index_all annotate l w = (Ok tt, w')
      ∧ store_holds w' es' ∧ writable w' INDEX_FILE = true
      ∧ (∀ q, Path.matches_vault_md q = true → fs w' !! q = fs w0 !! q)
      ∧ (∀ p, p ∉ l → Dict.get p es' = Dict.get p es)
      ∧ (∀ p t, p ∈ l → text_of w0 p = Some t →
                ∃ e, Dict.get p es' = Some e
                     ∧ stored_hash e = content_hash t).
Proof.
  unfold index_all. induction l as [|p l IH]; intros w es Hs Hw Hfs Hl.
  - exists w, es. cbn [for_each]. split; [reflexivity|].
    split; [exact Hs|]. split; [exact Hw|]. split; [exact Hfs|].
    split; [reflexivity|]. intros p t Hp. inversion Hp.
  - destruct (Hl p) as [Hm [t Ht]]; [left|].
    assert (Ht' : text_of w p = Some t)
      by (rewrite <- Ht; apply text_of_same, Hfs, Hm).
    set (e := updated_entry p t (fst (annotate p)) (snd (annotate p)) None).
    pose proof (cmd_update_spec w es p t (fst (annotate p))
                  (snd (annotate p)) None Hs Ht' Hw) as Hu.
    fold e in Hu.
    destruct (IH _ (Dict.set p e es)
                (store_holds_stored w _ [indexed_line p (snd (annotate p))]
                   (dict_set_nodup p e es (proj1 Hs)))
                (writable_stored INDEX_FILE _ w _ ltac:(discriminate)
                   ltac:(discriminate)))
      as (w' & es' & Hrun & Hs' & Hw' & Hfs' & Hout & Hin).
    + intros q Hq. cbn [fs printed with_fs].
      rewrite stored_lookup_document by auto. apply Hfs, Hq.
    + intros q Hq. apply Hl. right. exact Hq.
    + exists w', es'. cbn [for_each]. rewrite (bind_ok _ _ _ _ _ Hu).
      split; [exact Hrun|]. split; [exact Hs'|]. split; [exact Hw'|].
      split; [exact Hfs'|]. split.
      * intros q Hq. rewrite not_elem_of_cons in Hq. destruct Hq as [Hne Hq].
        rewrite (Hout q Hq). apply dict_get_set_ne. congruence.
      * intros q tq Hq Htq. destruct (decide (q ∈ l)) as [Hql|Hql].
        { apply (Hin q tq Hql Htq). }
        apply elem_of_cons in Hq as [->|Hq]; [|contradiction].
        rewrite (Hout p Hql), dict_get_set. exists e. split; [reflexivity|].
        rewrite Ht in Htq. injection Htq as <-. reflexivity.
Qed.

(** X9: once every document a scan reported has been indexed with
    [cmd_update], whatever the summaries and keywords, the next scan
    reports nothing and ends with the line that says so. *)
Theorem scan_after_indexing_everything
    (annotate : string → string * list string) (w : world)
    (es : list (string * entry)) :
  store_holds w es → documents_readable w → writable w INDEX_FILE = true →
  ∃ needs w1 w2 w3,
    cmd_scan w = (Ok needs, w1)
    ∧ index_all annotate needs w1 = (Ok tt, w2)
    ∧ cmd_scan w2 = (Ok [], w3)
    ∧ List.last (stdout w3) "" = "All files indexed and up to date.".
Proof.
  intros Hs Hr Hw. pose proof (cmd_scan_spec w es Hs Hr) as Hscan.
  set (needs := List.filter (scan_needs w es) (vault_listing w)) in *.
  set (w1 := printed w _) in Hscan.
  destruct (index_all_spec annotate w needs w1 es) as
    (w2 & es' & Hrun & Hs2 & Hw2 & Hfs2 & Hout & Hin).
  { apply (store_holds_same_fs w); [reflexivity|exact Hs]. }
  { exact Hw. }
  { reflexivity. }
  { intros p Hp. apply scan_result_elem in Hp as [[Hm _] (t & Ht & _)].
    split; [exact Hm|]. rewrite Ht. eauto. }
  assert (Hr2 : documents_readable w2)
    by (apply (documents_readable_same w); [exact Hfs2|exact Hr]).
  pose proof (cmd_scan_spec w2 es' Hs2 Hr2) as Hscan2.
  assert (Hnil : List.filter (scan_needs w2 es') (vault_listing w2) = []).
  { destruct (List.filter (scan_needs w2 es') (vault_listing w2))
      as [|x rest] eqn:E; [reflexivity|exfalso].
    assert (Hx : x ∈ List.filter (scan_needs w2 es') (vault_listing w2))
      by (rewrite E; left).
    apply scan_result_elem in Hx as [[Hm Hex] (t & Ht & Hn)].
    assert (Ht0 : text_of w x = Some t)
      by (rewrite <- Ht; symmetry; apply text_of_same, Hfs2, Hm).
    destruct (decide (x ∈ needs)) as [Hxn|Hxn].
    - destruct (Hin x t Hxn Ht0) as (e & He & Hh).
      unfold needs_indexing in Hn. rewrite He, Hh, String.eqb_refl in Hn.
      discriminate Hn.
    - unfold needs_indexing in Hn. rewrite (Hout x Hxn) in Hn.
      apply Hxn, scan_result_elem. split.
      + split; [exact Hm|]. rewrite <- (Hfs2 x Hm). exact Hex.
      + exists t. split; [exact Ht0|exact Hn]. }
  rewrite Hnil in Hscan2.
  eexists needs, w1, w2, _. split; [exact Hscan|]. split; [exact Hrun|].
  split; [exact Hscan2|].
  cbn [stdout printed]. rewrite app_assoc. apply last_last.
Qed.

Lemma scan_document_unreadable index p w :
  text_of w p = None → is_Some (fs w !! p) →
  ∃ e, scan_document index p w = (Raise e, w)
       ∧ (e = IsADirectoryError ∨ e = UnicodeDecodeError).
Proof.
  unfold text_of. intros Ht [n Hn]. unfold scan_document.
  unfold bind at 1. rewrite read_text_spec, Hn. rewrite Hn in Ht.
  destruct n as [|[t|]]; [eauto|discriminate Ht|eauto].
Qed.

Lemma scan_loop_raises (w0 : world) (es : list (string * entry))
    (files : list string) :
  ∀ acc out,
    (∀ q, q ∈ files → is_Some (fs w0 !! q)) →
    (∃ p, p ∈ files ∧ text_of w0 p = None) →
    ∃ e out',
      for_collect files (scan_document (index_json es)) acc (printed w0 out)
      = (Raise e, printed w0 out')
      ∧ (e = IsADirectoryError ∨ e = UnicodeDecodeError).
Proof.
  induction files as [|q files IH]; intros acc out Hex (p & Hp & Hnone).
  - inversion Hp.
  - cbn [for_collect]. destruct (text_of w0 q) as [t|] eqn:Eq.
    + rewrite (bind_ok _ _ _ _ _ (scan_body w0 es q t out Eq)).
      apply IH; [intros x Hx; apply Hex; right; exact Hx|].
      exists p. split; [|exact Hnone].
      apply elem_of_cons in Hp as [->|Hp]; [congruence|exact Hp].
    + destruct (scan_document_unreadable (index_json es) q (printed w0 out))
        as (e & He & Hcase); [exact Eq|apply Hex; left|].
      exists e, out. split; [apply bind_raise, He|exact Hcase].
Qed.

(** X10: a document that cannot be read as text (a directory whose name ends
    in [.md], or a file that is no text) stops the scan: [cmd_scan]
    raises the error of [open] or of [read], and prints no closing
    line; the file system is as before. *)
Theorem scan_aborts_on_unreadable_document (w : world)
    (es : list (string * entry)) (p : string) :
  store_holds w es → is_document w p → text_of w p = None →
  ∃ e w',
    cmd_scan w = (Raise e, w')
    ∧ (e = IsADirectoryError ∨ e = UnicodeDecodeError)
    ∧ fs w' = fs w.
Proof.
  intros [_ Hload] Hd Ht.
  destruct (scan_loop_raises w es (vault_listing w) [] [])
    as (e & out & Hloop & Hcase).
  { intros q Hq. apply elem_of_vault_listing in Hq as [_ Hq]. exact Hq. }
  { exists p. split; [apply elem_of_vault_listing, Hd|exact Ht]. }
  rewrite printed_nil in Hloop.
  exists e, (printed w out). split; [|split; [exact Hcase|reflexivity]].
  unfold cmd_scan. rewrite (bind_ok _ _ _ _ _ Hload).
  unfold bind at 1. rewrite vault_files_spec. fold (vault_listing w).
  apply bind_raise, Hloop.
Qed.

(** ** The documents of the vault *)

Lemma string_app_nil_r (a : string) : (a ++ "")%string = a.
Proof.
  induction a as [|c a IH]; [reflexivity|].
  change (String c (a ++ "") = String c a)%string. rewrite IH. reflexivity.
Qed.

Lemma chars_app (a b : string) :
  Str.chars (a ++ b) = Str.chars a ++ Str.chars b.
Proof.
  induction a as [|c a IH]; [reflexivity|].
  change (Str.chars (String c a ++ b))
    with (c :: Str.chars (a ++ b)).
  rewrite IH. reflexivity.
Qed.

Lemma of_chars_app (a b : list ascii) :
  Str.of_chars (a ++ b) = (Str.of_chars a ++ Str.of_chars b)%string.
Proof.
  induction a as [|c a IH]; [reflexivity|].
  change (Str.of_chars ((c :: a) ++ b))
    with (String c (Str.of_chars (a ++ b))).
  rewrite IH. reflexivity.
Qed.

Lemma split_on_aux_cons sep cur s :
  ∃ x l, Str.split_on_aux sep cur s = x :: l.
Proof.
  revert cur. induction s as [|c s IH]; intros cur; cbn [Str.split_on_aux].
  - eauto.
  - destruct (Ascii.eqb c sep); [eauto|apply IH].
Qed.

Lemma join_split_on_aux sep cur s :
  Str.join (String sep "") (Str.split_on_aux sep cur s)
  = (Str.of_chars (rev cur) ++ s)%string.
Proof.
  revert cur. induction s as [|c s IH]; intros cur; cbn [Str.split_on_aux].
  - cbn [Str.join]. rewrite string_app_nil_r. reflexivity.
  - destruct (Ascii.eqb_spec c sep) as [->|Hne].
    + destruct (split_on_aux_cons sep [] s) as (x & l & E).
      pose proof (IH []) as IH0. rewrite E in IH0 |- *.
      change (Str.join (String sep "") (Str.of_chars (rev cur) :: x :: l))
        with (Str.of_chars (rev cur) ++ String sep ""
              ++ Str.join (String sep "") (x :: l))%string.
      rewrite IH0. reflexivity.
    + rewrite IH. cbn [rev]. rewrite of_chars_app.
      rewrite <- string_app_assoc. reflexivity.
Qed.

Lemma join_split_on sep s :
  Str.join (String sep "") (Str.split_on sep s) = s.
Proof. unfold Str.split_on. apply join_split_on_aux. Qed.

Lemma last_cons {A} (l : list A) (x y : A) :
  List.last (y :: l) x = List.last l y.
Proof.
  revert x y. induction l as [|z l IH]; intros x y; [reflexivity|].
  change (List.last (y :: z :: l) x) with (List.last (z :: l) x).
  rewrite !IH. reflexivity.
Qed.

Lemma join_ends_with_last sep (l : list string) x :
  ∃ pre, Str.join sep (x :: l) = (pre ++ List.last l x)%string.
Proof.
  revert x. induction l as [|y l IH]; intros x.
  - exists "". reflexivity.
  - destruct (IH y) as (pre & Hpre).
    exists (x ++ sep ++ pre)%string.
    change (Str.join sep (x :: y :: l))
      with (x ++ sep ++ Str.join sep (y :: l))%string.
    rewrite Hpre, <- !string_app_assoc, last_cons. reflexivity.
Qed.

Lemma ends_with_md_inv x :
  Path.ends_with_md x = true → ∃ y, x = (y ++ ".md")%string.
Proof.
  unfold Path.ends_with_md.
  destruct (rev (Str.chars x)) as [|d [|m [|dot r]]] eqn:E; try discriminate.
  rewrite !andb_true_iff.
  intros [[->%Ascii.eqb_eq ->%Ascii.eqb_eq] ->%Ascii.eqb_eq].
  exists (Str.of_chars (rev r)).
  apply (f_equal (@rev ascii)) in E. rewrite rev_involutive in E.
  cbn [rev] in E. rewrite <- !app_assoc in E. cbn [app] in E.
  rewrite <- (JsonFacts.chars_of_chars x), E, of_chars_app. reflexivity.
Qed.

Lemma matches_vault_md_inv p :
  Path.matches_vault_md p = true → ∃ name, p = top_note name.
Proof.
  unfold Path.matches_vault_md.
  pose proof (join_split_on Path.slash p) as Hj.
  destruct (Str.split_on Path.slash p) as [|top [|c rest]];
    try discriminate.
  rewrite !andb_true_iff. intros [[Htop _] Hmd].
  apply String.eqb_eq in Htop. subst top.
  destruct (join_ends_with_last "/" rest c) as (pre & Hpre).
  destruct (ends_with_md_inv _ Hmd) as (y & Hy).
  exists (pre ++ y)%string. rewrite <- Hj.
  change (Str.join (String Path.slash "") (VAULT_DIR :: c :: rest))
    with ("memory" ++ "/" ++ Str.join "/" (c :: rest))%string.
  rewrite Hpre, Hy. unfold top_note.
  rewrite <- !string_app_assoc. reflexivity.
Qed.

Lemma split_on_aux_no_sep sep cur s :
  sep ∉ Str.chars s →
  Str.split_on_aux sep cur s = [(Str.of_chars (rev cur) ++ s)%string].
Proof.
  revert cur. induction s as [|c s IH]; intros cur Hs;
    cbn [Str.split_on_aux].
  - rewrite string_app_nil_r. reflexivity.
  - cbn [Str.chars list_ascii_of_string] in Hs.
    rewrite not_elem_of_cons in Hs. destruct Hs as [Hne Hs].
    destruct (Ascii.eqb_spec c sep) as [->|_]; [congruence|].
    rewrite (IH _ Hs). cbn [rev]. rewrite of_chars_app.
    rewrite <- string_app_assoc. reflexivity.
Qed.

Lemma ends_with_md_app name : Path.ends_with_md (name ++ ".md") = true.
Proof.
  unfold Path.ends_with_md. rewrite chars_app, rev_app_distr. reflexivity.
Qed.

Lemma matches_top_note name :
  name ≠ "" → Path.starts_with_dot name = false →
  Path.slash ∉ Str.chars name →
  Path.matches_vault_md (top_note name) = true.
Proof.
  intros Hne Hdot Hslash. unfold Path.matches_vault_md, top_note.
  change (Str.split_on Path.slash ("memory/" ++ name ++ ".md"))
    with ("memory" :: Str.split_on_aux Path.slash [] (name ++ ".md")).
  rewrite split_on_aux_no_sep.
  - cbn [rev Str.of_chars string_of_list_ascii String.append List.last forallb].
    change ("" ++ name ++ ".md")%string with (name ++ ".md")%string.
    rewrite ends_with_md_app.
    destruct name as [|c name]; [congruence|].
    change (String c name ++ ".md")%string
      with (String c (name ++ ".md"))%string.
    cbn [String.eqb Path.starts_with_dot] in *.
    rewrite Hdot. reflexivity.
  - rewrite chars_app, elem_of_app. intros [H|H]; [exact (Hslash H)|].
    cbn in H. rewrite !elem_of_cons in H.
    destruct H as [H|[H|[H|H]]]; try discriminate H. inversion H.
Qed.

(** X11: [vault_files] lists paths that are there, each of the form
    [memory/....md], in increasing order and without repetition; among
    them is every note at the top of the vault whose name is not hidden.
    The two store files are never among them. *)
Theorem vault_files_lists_the_markdown_below_memory (w : world) :
  ∃ files,
    vault_files w = (Ok files, w)
    ∧ StronglySorted (fun a b => Str.leb a b = true) files
    ∧ NoDup files
    ∧ (∀ p, p ∈ files → is_Some (fs w !! p) ∧ ∃ name, p = top_note name)
    ∧ (∀ name, name ≠ "" → Path.starts_with_dot name = false →
               Path.slash ∉ Str.chars name →
               is_Some (fs w !! top_note name) → top_note name ∈ files)
    ∧ (INDEX_FILE ∉ files) ∧ (MISS_LOG_FILE ∉ files).
Proof.
  eexists. split; [apply vault_files_spec|]. fold (vault_listing w).
  split; [apply sorted_strings_sorted|]. split; [apply vault_listing_nodup|].
  split; [|split; [|split]].
  - intros p Hp. apply elem_of_vault_listing in Hp as [Hm Hex].
    split; [exact Hex|apply matches_vault_md_inv, Hm].
  - intros name H1 H2 H3 Hex. apply elem_of_vault_listing.
    split; [apply matches_top_note; assumption|exact Hex].
  - intros H. apply elem_of_vault_listing in H as [H _]. discriminate H.
  - intros H. apply elem_of_vault_listing in H as [H _]. discriminate H.
Qed.

(** ** More on searching *)

Lemma spec_score_terms (q q' : string) (e : entry) :
  query_terms_of q = query_terms_of q' → spec_score q e = spec_score q' e.
Proof.
  intros H. pose proof (entry_score_spec q e {| fs := ∅; stdout := [];
                                               clock := noon |}) as H1.
  rewrite H, entry_score_spec in H1. congruence.
Qed.

Lemma spec_ranking_terms (q q' : string) (es : list (string * entry)) :
  query_terms_of q = query_terms_of q' →
  spec_ranking q es = spec_ranking q' es.
Proof.
  intros H. unfold spec_ranking, spec_candidates. do 2 f_equal.
  apply List.map_ext. intros [p e]. unfold with_score. cbn [fst snd].
  rewrite (spec_score_terms q q' e H). reflexivity.
Qed.

Lemma candidate_of_terms (q q' : string) (r : Q * string * entry) :
  query_terms_of q = query_terms_of q' → candidate_of q r = candidate_of q' r.
Proof. intros H. unfold candidate_of, matched_terms. rewrite H. reflexivity. Qed.

Lemma spec_score_no_terms (q : string) (e : entry) :
  Str.split (Str.lower q) = [] → spec_score q e = (0 + 0 * (1 # 2))%Q.
Proof.
  intros H. unfold spec_score, spec_keyword_matches, spec_summary_matches,
    spec_query_terms.
  rewrite H. reflexivity.
Qed.

Lemma spec_ranking_no_terms (q : string) (es : list (string * entry)) :
  Str.split (Str.lower q) = [] → spec_ranking q es = [].
Proof.
  intros H. destruct (spec_ranking q es) as [|[[s p] e] l] eqn:E;
    [reflexivity|exfalso].
  assert (Hin : (s, p, e) ∈ spec_ranking q es) by (rewrite E; left).
  apply elem_of_spec_ranking in Hin as (_ & -> & Hpos).
  rewrite (spec_score_no_terms q e H) in Hpos. discriminate Hpos.
Qed.

(** X12: a query without a word (empty, or white space only) matches no
    entry: the human mode prints the "No matches" line and returns
    nothing, the structured mode returns no term and no candidate. *)
Theorem query_without_words_matches_nothing (w : world)
    (es : list (string * entry)) (query : string) (top_n : nat) :
  store_holds w es → Str.split (Str.lower query) = [] →
  cmd_search query w
  = (Ok [], printed w [("No matches for: " ++ query)%string])
  ∧ ∃ out w1,
      cmd_search_json query top_n w = (Ok out, w1)
      ∧ out_query_terms out = [] ∧ candidate_count out = 0%nat
      ∧ candidates out = [].
Proof.
  intros Hs Hq. split.
  - rewrite (cmd_search_spec w es query Hs). unfold search_lines.
    rewrite (spec_ranking_no_terms query es Hq). reflexivity.
  - eexists _, _. split; [exact (cmd_search_json_spec w es query top_n Hs)|].
    unfold search_output_of.
    rewrite (spec_ranking_no_terms query es Hq), firstn_nil.
    cbn [out_query_terms candidate_count candidates List.map length].
    split; [|split; reflexivity].
    unfold query_terms_of. rewrite Hq. reflexivity.
Qed.

(** X13: two queries with the same set of lowercased words (the same words in
    another order, in another case, or repeated) find the same entries
    with the same scores in the same order, in both modes. *)
Theorem search_depends_on_the_set_of_terms (w : world)
    (es : list (string * entry)) (q q' : string) (top_n : nat) :
  store_holds w es → query_terms_of q = query_terms_of q' →
  fst (cmd_search q w) = fst (cmd_search q' w)
  ∧ ∃ out out' w1 w1',
      cmd_search_json q top_n w = (Ok out, w1)
      ∧ cmd_search_json q' top_n w = (Ok out', w1')
      ∧ candidates out = candidates out'
      ∧ candidate_count out = candidate_count out'
      ∧ out_query_terms out = out_query_terms out'.
Proof.
  intros Hs Hq. split.
  - rewrite !(cmd_search_spec w es _ Hs). cbn [fst].
    rewrite (spec_ranking_terms q q' es Hq). reflexivity.
  - eexists _, _, _, _.
    split; [exact (cmd_search_json_spec w es q top_n Hs)|].
    split; [exact (cmd_search_json_spec w es q' top_n Hs)|].
    unfold search_output_of. cbn [candidates candidate_count out_query_terms].
    rewrite (spec_ranking_terms q q' es Hq), Hq.
    rewrite (List.map_ext _ _ (fun r => candidate_of_terms q q' r Hq)).
    auto.
Qed.

Lemma insert_sorted_has_score (s : Q) (x : Q * string * entry)
    (l : list (Q * string * entry)) :
  List.filter (has_score s) (insert_sorted higher_score_first x l)
  = if has_score s x then x :: List.filter (has_score s) l
    else List.filter (has_score s) l.
Proof.
  induction l as [|y l IH]; cbn [insert_sorted List.filter].
  - destruct (has_score s x); reflexivity.
  - destruct (higher_score_first x y) eqn:Exy; cbn [List.filter].
    + destruct (has_score s x); reflexivity.
    + rewrite IH. destruct (has_score s x) eqn:Ex; [|reflexivity].
      destruct (has_score s y) eqn:Ey; [exfalso|reflexivity].
      unfold has_score in Ex, Ey. apply Qeq_bool_iff in Ex, Ey.
      unfold higher_score_first in Exy.
      apply not_true_iff_false in Exy. apply Exy, Qle_bool_iff.
      rewrite Ex, Ey. apply Qle_refl.
Qed.

Lemma stable_sort_has_score (s : Q) (l : list (Q * string * entry)) :
  List.filter (has_score s) (stable_sort higher_score_first l)
  = List.filter (has_score s) l.
Proof.
  induction l as [|x l IH]; [reflexivity|].
  cbn [stable_sort List.filter]. rewrite insert_sorted_has_score, IH.
  reflexivity.
Qed.

Lemma candidates_has_score (query : string) (s : Q)
    (es : list (string * entry)) :
  (0 < s)%Q →
  List.map (fun r => snd (fst r))
           (List.filter (has_score s) (spec_candidates query es))
  = paths_scoring query s es.
Proof.
  intros Hpos. unfold spec_candidates, paths_scoring.
  induction es as [|[p e] es IH]; [reflexivity|].
  cbn [List.map List.filter].
  change (with_score query (p, e)) with (spec_score query e, p, e).
  cbn [fst snd].
  destruct (Qeq_bool (spec_score query e) s) eqn:E.
  - assert (Hp : score_positive (spec_score query e) = true).
    { apply score_positive_lt. apply Qeq_bool_iff in E. rewrite E. exact Hpos. }
    rewrite Hp. cbn [List.filter]. unfold has_score at 1. cbn [fst].
    rewrite E. cbn [List.map fst snd]. f_equal. exact IH.
  - destruct (score_positive (spec_score query e)); [|exact IH].
    cbn [List.filter]. unfold has_score at 1. cbn [fst]. rewrite E. exact IH.
Qed.

Lemma filter_map_result_json (s : Q) (l : list (Q * string * entry)) :
  List.map (fun r => snd (fst r))
           (List.filter (has_score s) (List.map result_json l))
  = List.map (fun r => snd (fst r)) (List.filter (has_score s) l).
Proof.
  induction l as [|[[x p] e] l IH]; [reflexivity|].
  cbn [List.map List.filter].
  change (result_json (x, p, e)) with (x, p, entry_json e).
  change (has_score s (x, p, entry_json e)) with (Qeq_bool x s).
  change (has_score s (x, p, e)) with (Qeq_bool x s).
  destruct (Qeq_bool x s); cbn [List.map fst snd]; rewrite IH; reflexivity.
Qed.

(** X14: the sort of the results is stable: the results with one and the
    same score come in the order their entries have in the index. *)
Theorem equal_scores_keep_index_order (w : world)
    (es : list (string * entry)) (query : string) :
  store_holds w es →
  ∃ results w1,
    cmd_search query w = (Ok results, w1)
    ∧ ∀ s, (0 < s)%Q →
           List.map (fun r => snd (fst r))
                    (List.filter (has_score s) results)
           = paths_scoring query s es.
Proof.
  intros Hs. eexists _, _. split; [exact (cmd_search_spec w es query Hs)|].
  intros s Hpos. rewrite filter_map_result_json. unfold spec_ranking.
  rewrite stable_sort_has_score. apply candidates_has_score, Hpos.
Qed.

(** X15: the structured mode returns as many candidates as the human mode
    returns results, but [top_n] at most, and [candidate_count] is
    their number. *)
Theorem structured_mode_keeps_top_n (w : world)
    (es : list (string * entry)) (query : string) (top_n : nat) :
  store_holds w es →
  ∃ results out w1 w2,
    cmd_search query w = (Ok results, w1)
    ∧ cmd_search_json query top_n w = (Ok out, w2)
    ∧ candidate_count out = Nat.min top_n (length results)
    ∧ length (candidates out) = candidate_count out.
Proof.
  intros Hs. eexists _, _, _, _.
  split; [exact (cmd_search_spec w es query Hs)|].
  split; [exact (cmd_search_json_spec w es query top_n Hs)|].
  cbn [candidate_count candidates search_output_of].
  rewrite !length_map, length_firstn. split; reflexivity.
Qed.

Lemma size_query_terms (query : string) :
  size (query_terms_of query) = length (spec_query_terms query).
Proof.
  unfold query_terms_of, spec_query_terms.
  rewrite <- (size_list_to_set (C := gset string)
                (remove_dups (Str.split (Str.lower query))))
    by apply NoDup_remove_dups.
  f_equal. apply set_eq. intros x.
  rewrite !elem_of_list_to_set, elem_of_remove_dups. reflexivity.
Qed.

(** X16: the score of an entry is never negative and at most one and a half
    times the number of distinct query terms. *)
Theorem score_is_bounded_by_the_query (query : string) (e : entry)
    (w : world) :
  ∃ s, entry_score (query_terms_of query) (entry_json e) w = (Ok s, w)
       ∧ (0 <= s)%Q
       ∧ (s <= (3 # 2) * inject_Z (Z.of_nat (size (query_terms_of query))))%Q.
Proof.
  exists (spec_score query e). split; [apply entry_score_spec|].
  rewrite size_query_terms. unfold spec_score.
  pose proof (length_filter (λ t, t ∈ List.map Str.lower (keywords e))
                (spec_query_terms query)) as Hk.
  pose proof (length_filter (λ t, t ∈ Str.split (Str.lower (summary e)))
                (spec_query_terms query)) as Hm.
  fold (spec_keyword_matches query (keywords e)) in Hk.
  fold (spec_summary_matches query (summary e)) in Hm.
  revert Hk Hm.
  generalize (spec_keyword_matches query (keywords e)) as k.
  generalize (spec_summary_matches query (summary e)) as m.
  generalize (length (spec_query_terms query)) as n.
  intros n m k Hk Hm. unfold Qle. cbn. split; lia.
Qed.

(** ** The miss log *)

Lemma read_miss_log_text w text v :
  fs w !! MISS_LOG_FILE = Some (File (Text text)) →
  Json.loads text = Some v →
  try_except (let* text := read_text MISS_LOG_FILE in Py.json_loads text)
             missing_or_corrupt (ret (JArr [])) w
  = (Ok v, w).
Proof. intros Hf Hl. rewrite read_miss_log_spec, Hf, Hl. reflexivity. Qed.

(** X17: a miss log that holds JSON other than a list is not taken for a
    corrupt one: [cmd_miss] raises [AttributeError] on it, writes
    nothing and prints nothing. *)
Theorem miss_on_a_log_that_is_no_list_fails (w : world) (text : string)
    (v : json) (query expected reason : string) :
  fs w !! MISS_LOG_FILE = Some (File (Text text)) →
  Json.loads text = Some v →
  (∀ records, v ≠ JArr records) →
  cmd_miss query expected reason w = (Raise AttributeError, w).
Proof.
  intros Hf Hl Hv. unfold cmd_miss.
  rewrite (bind_ok _ _ _ _ _ (read_miss_log_text w text v Hf Hl)).
  unfold bind at 1. cbn [now_utc]. apply bind_raise.
  destruct v; try reflexivity. exfalso. exact (Hv _ eq_refl).
Qed.



Lemma show_miss_spec (m : miss) w :
  show_miss (miss_json m) w = (Ok tt, printed w (miss_lines m)).
Proof.
  unfold show_miss, miss_json, miss_record, miss_lines.
  cbn [Py.get Py.getitem Py.str_prefix Dict.get String.eqb Ascii.eqb
       Bool.eqb format_value Py.truthy].
  destruct (String.eqb (miss_reason m) "") eqn:E;
    repeat first
      [ rewrite print_printed
      | progress (unfold bind at 1;
                  cbn [ret Py.str_prefix format_value Py.truthy];
                  rewrite ?E; cbn [negb]) ];
    rewrite !printed_printed; reflexivity.
Qed.

Lemma show_misses_spec (ms : list miss) w :
  for_each (List.map miss_json ms) show_miss w
  = (Ok tt, printed w (flat_map miss_lines ms)).
Proof.
  revert w. induction ms as [|m ms IH]; intros w.
  - cbn. rewrite printed_nil. reflexivity.
  - cbn [List.map for_each flat_map].
    rewrite (bind_ok _ _ _ _ _ (show_miss_spec m w)), IH, printed_printed.
    reflexivity.
Qed.

Lemma cmd_misses_spec w text (ms : list miss) :
  fs w !! MISS_LOG_FILE = Some (File (Text text)) →
  Json.loads text = Some (JArr (List.map miss_json ms)) →
  cmd_misses w
  = (Ok tt, printed w (misses_header (length ms) :: flat_map miss_lines ms)).
Proof.
  intros Hf Hl. unfold cmd_misses. unfold bind at 1.
  unfold try_except, catch. unfold bind at 1.
  rewrite read_text_spec, Hf. unfold bind at 1. unfold Py.json_loads.
  rewrite Hl. cbn [ret Py.len]. unfold bind at 1. cbn [ret].
  unfold bind at 1. rewrite print_printed. unfold bind at 1. cbn [Py.iter ret].
  rewrite show_misses_spec, printed_printed, length_map. reflexivity.
Qed.

Lemma plain_misses (ms : list miss) :
  forallb Json.plain (List.map miss_json ms) = true.
Proof. induction ms as [|m ms IH]; [reflexivity|exact IH]. Qed.

(** X19: after [cmd_miss] has logged a miss, [cmd_misses] prints the number
    of records, one more than before, then the records that were there,
    in their order, and last the new one, dated with the day of the
    call. *)
Theorem misses_shows_the_logged_miss (w : world) (ms : list miss)
    (query expected reason : string) :
  miss_log_holds w (List.map miss_json ms) →
  writable w MISS_LOG_FILE = true →
  ∃ w1 w2,
    cmd_miss query expected reason w = (Ok tt, w1)
    ∧ cmd_misses w1 = (Ok tt, w2)
    ∧ stdout w2
      = stdout w1
        ++ misses_header (S (length ms))
        :: flat_map miss_lines
             (ms ++ [logged_miss (clock w) query expected reason]).
Proof.
  intros Hlog Hw. eexists _, _.
  split; [exact (cmd_miss_spec w _ query expected reason Hlog Hw)|].
  set (m := logged_miss (clock w) query expected reason).
  change (miss_record (isoformat (clock w)) query expected reason)
    with (miss_json m).
  change [miss_json m] with (List.map miss_json [m]).
  rewrite <- List.map_app.
  split.
  - erewrite cmd_misses_spec; [reflexivity| |].
    + cbn [fs printed with_fs]. apply stored_lookup_file.
    + apply JsonFacts.loads_dumps. apply plain_misses.
  - cbn [stdout printed]. rewrite length_app. cbn [length].
    rewrite Nat.add_1_r. reflexivity.
Qed.

Lemma store_holds_same_index w w' es :
  fs w' !! INDEX_FILE = fs w !! INDEX_FILE →
  store_holds w es → store_holds w' es.
Proof.
  intros Hfs [Hnd Hl]. split; [exact Hnd|].
  rewrite load_index_spec in *. rewrite Hfs.
  destruct (fs w !! INDEX_FILE) as [[|[s|]]|];
    try destruct (Json.loads s); congruence.
Qed.

Lemma log_miss_count_list w text (log : list json) :
  fs w !! MISS_LOG_FILE = Some (File (Text text)) →
  Json.loads text = Some (JArr log) →
  log_miss_count w = (Ok tt, printed w [logged_misses_line (length log)]).
Proof.
  intros Hf Hl. unfold log_miss_count, try_except, catch.
  unfold bind at 1. rewrite read_text_spec, Hf.
  unfold bind at 1. unfold Py.json_loads. rewrite Hl. reflexivity.
Qed.

(** X20: after [cmd_miss] has logged a miss, [cmd_stats] prints its counts
    for the index, which the miss left as it was, and then, as its last
    line, the number of logged misses, one more than before. *)
Theorem stats_counts_the_logged_miss (w : world)
    (es : list (string * entry)) (log : list json)
    (query expected reason : string) :
  store_holds w es → miss_log_holds w log →
  forallb Json.plain log = true → writable w MISS_LOG_FILE = true →
  ∃ w1 w2,
    cmd_miss query expected reason w = (Ok tt, w1)
    ∧ store_holds w1 es
    ∧ cmd_stats w1 = (Ok tt, w2)
    ∧ stdout w2
      = stdout w1 ++ stats_lines w1 es
        ++ [logged_misses_line (S (length log))].
Proof.
  intros Hs Hlog Hp Hw. eexists _, _.
  split; [exact (cmd_miss_spec w _ query expected reason Hlog Hw)|].
  set (w1 := printed _ _).
  assert (Hs1 : store_holds w1 es).
  { apply (store_holds_same_index w); [|exact Hs].
    cbn [fs printed with_fs w1]. apply stored_lookup_other; discriminate. }
  split; [exact Hs1|].
  rewrite (cmd_stats_spec w1 es Hs1). split.
  - erewrite log_miss_count_list; [reflexivity| |].
    + cbn [fs printed with_fs w1]. apply stored_lookup_file.
    + apply JsonFacts.loads_dumps. cbn [Json.plain].
      rewrite forallb_app, Hp. reflexivity.
  - cbn [stdout printed]. rewrite length_app. cbn [length].
    rewrite Nat.add_1_r, <- app_assoc. reflexivity.
Qed.

(** ** What the commands write *)

Lemma within_ret {A} ps (a : A) : writes_within ps (ret a).
Proof. intros w p _. reflexivity. Qed.

Lemma within_raise {A} ps e : writes_within ps (@raise A e).
Proof. intros w p _. reflexivity. Qed.

Lemma within_print ps line : writes_within ps (print line).
Proof. intros w p _. reflexivity. Qed.

Lemma within_lookup ps path : writes_within ps (lookup_node path).
Proof. intros w p _. reflexivity. Qed.

Lemma within_now ps : writes_within ps now_utc.
Proof. intros w p _. reflexivity. Qed.

Lemma within_bind {A B} ps (m : M A) (k : A → M B) :
  writes_within ps m → (∀ a, writes_within ps (k a)) →
  writes_within ps (bind m k).
Proof.
  intros Hm Hk w p Hp. unfold bind. specialize (Hm w p Hp).
  destruct (m w) as [[a|e] w1]; cbn in Hm; [|exact Hm].
  rewrite (Hk a w1 p Hp). exact Hm.
Qed.

Lemma within_catch {A} ps (m : M A) (h : exn → M A) :
  writes_within ps m → (∀ e, writes_within ps (h e)) →
  writes_within ps (catch m h).
Proof.
  intros Hm Hh w p Hp. unfold catch. specialize (Hm w p Hp).
  destruct (m w) as [[a|e] w1]; cbn in Hm; [exact Hm|].
  rewrite (Hh e w1 p Hp). exact Hm.
Qed.

Lemma within_try {A} ps (m : M A) caught (h : M A) :
  writes_within ps m → writes_within ps h →
  writes_within ps (try_except m caught h).
Proof.
  intros Hm Hh. apply within_catch; [exact Hm|].
  intros e. destruct (caught e); [exact Hh|apply within_raise].
Qed.

Lemma within_for_each {A} ps (l : list A) (body : A → M unit) :
  (∀ x, writes_within ps (body x)) → writes_within ps (for_each l body).
Proof.
  intros Hb. induction l as [|x l IH]; cbn [for_each].
  - apply within_ret.
  - apply within_bind; [apply Hb|intros _; exact IH].
Qed.

Lemma within_for_collect {A B} ps (l : list A) (body : A → M (list B)) acc :
  (∀ x, writes_within ps (body x)) →
  writes_within ps (for_collect l body acc).
Proof.
  intros Hb. revert acc. induction l as [|x l IH]; intros acc;
    cbn [for_collect].
  - apply within_ret.
  - apply within_bind; [apply Hb|intros ys; apply IH].
Qed.

Lemma within_map_M {A B} ps (f : A → M B) (l : list A) :
  (∀ x, writes_within ps (f x)) → writes_within ps (Py.map_M f l).
Proof.
  intros Hf. induction l as [|x l IH]; cbn [Py.map_M].
  - apply within_ret.
  - apply within_bind; [apply Hf|intros y].
    apply within_bind; [exact IH|intros ys; apply within_ret].
Qed.

Lemma within_set_node ps path n : path ∈ ps → writes_within ps (set_node path n).
Proof.
  intros Hin w p Hp. cbn. apply lookup_insert_ne. intros ->. exact (Hp Hin).
Qed.

Create HintDb within discriminated.
#[local] Hint Resolve within_ret within_raise within_print within_lookup
  within_now : within.

(** One step through the text of a command. *)
Ltac within_step :=
  first
    [ lazymatch goal with
      | |- writes_within _ (bind _ _) =>
          apply within_bind; [|intros ?; cbv beta]
      | |- writes_within _ (try_except _ _ _) => apply within_try
      | |- writes_within _ (for_each _ _) =>
          apply within_for_each; intros ?; cbv beta
      | |- writes_within _ (for_collect _ _ _) =>
          apply within_for_collect; intros ?; cbv beta
      | |- writes_within _ (Py.map_M _ _) =>
          apply within_map_M; intros ?; cbv beta
      | |- writes_within _ (match ?x with _ => _ end) => destruct x
      end
    | solve [auto with within] ].

Ltac within := repeat within_step.

Lemma within_isfile ps path : writes_within ps (isfile path).
Proof. unfold isfile. within. Qed.

Lemma within_isdir ps path : writes_within ps (isdir path).
Proof. unfold isdir. within. Qed.

Lemma within_exists ps path : writes_within ps (exists_ path).
Proof. unfold exists_. within. Qed.

Lemma within_read_text ps path : writes_within ps (read_text path).
Proof. unfold read_text. within. Qed.

Lemma within_check_parent ps path : writes_within ps (check_parent path).
Proof. unfold check_parent. within. Qed.

#[local] Hint Resolve within_isfile within_isdir within_exists
  within_read_text within_check_parent : within.

Lemma within_getitem ps v k : writes_within ps (Py.getitem v k).
Proof. unfold Py.getitem. within. Qed.

Lemma within_get ps v k d : writes_within ps (Py.get v k d).
Proof. unfold Py.get. within. Qed.

Lemma within_items ps v : writes_within ps (Py.items v).
Proof. unfold Py.items. within. Qed.

Lemma within_values ps v : writes_within ps (Py.values v).
Proof. unfold Py.values. within. Qed.

Lemma within_len ps v : writes_within ps (Py.len v).
Proof. unfold Py.len. within. Qed.

Lemma within_iter ps v : writes_within ps (Py.iter v).
Proof. unfold Py.iter. within. Qed.

Lemma within_lower ps v : writes_within ps (Py.lower v).
Proof. unfold Py.lower. within. Qed.

Lemma within_str_prefix ps n v : writes_within ps (Py.str_prefix n v).
Proof. unfold Py.str_prefix. within. Qed.

Lemma within_append ps v x : writes_within ps (Py.append v x).
Proof. unfold Py.append. within. Qed.

Lemma within_json_loads ps text : writes_within ps (Py.json_loads text).
Proof. unfold Py.json_loads. within. Qed.

Lemma within_format_value ps v : writes_within ps (format_value v).
Proof. unfold format_value. within. Qed.

#[local] Hint Resolve within_getitem within_get within_items within_values
  within_len within_iter within_lower within_str_prefix within_append
  within_json_loads within_format_value : within.

Lemma within_lower_split ps v : writes_within ps (Py.lower_split v).
Proof. unfold Py.lower_split. within. Qed.

Lemma within_lower_set ps v : writes_within ps (Py.lower_set v).
Proof. unfold Py.lower_set. within. Qed.

Lemma within_set_entry ps index k x : writes_within ps (Py.set_entry index k x).
Proof. unfold Py.set_entry. within. Qed.

Lemma within_load_index ps : writes_within ps load_index.
Proof. unfold load_index. within. Qed.

Lemma within_vault_files ps : writes_within ps vault_files.
Proof. intros w p _. reflexivity. Qed.

#[local] Hint Resolve within_lower_split within_lower_set within_set_entry
  within_load_index within_vault_files : within.

Lemma within_scan_document ps index fpath :
  writes_within ps (scan_document index fpath).
Proof. unfold scan_document. within. Qed.

#[local] Hint Resolve within_scan_document : within.

Lemma within_cmd_scan ps : writes_within ps cmd_scan.
Proof. unfold cmd_scan. within. Qed.

Lemma within_entry_score ps terms entry :
  writes_within ps (entry_score terms entry).
Proof. unfold entry_score. within. Qed.

Lemma within_matched_keywords ps terms entry :
  writes_within ps (matched_keywords terms entry).
Proof. unfold matched_keywords. within. Qed.

#[local] Hint Resolve within_entry_score within_matched_keywords : within.

Lemma within_score_entry ps terms fpath entry :
  writes_within ps (score_entry terms fpath entry).
Proof. unfold score_entry. within. Qed.

#[local] Hint Resolve within_score_entry : within.

Lemma within_cmd_search ps query : writes_within ps (cmd_search query).
Proof. unfold cmd_search. within. Qed.

Lemma within_cmd_search_json ps query top_n :
  writes_within ps (cmd_search_json query top_n).
Proof. unfold cmd_search_json. within. Qed.

Lemma within_collect_keywords ps entries acc :
  writes_within ps (collect_keywords entries acc).
Proof.
  revert acc. induction entries as [|e l IH]; intros acc;
    cbn [collect_keywords]; within; apply IH.
Qed.

Lemma within_stale_paths ps paths : writes_within ps (stale_paths paths).
Proof.
  induction paths as [|v l IH]; cbn [stale_paths]; within; exact IH.
Qed.

Lemma within_log_miss_count ps : writes_within ps log_miss_count.
Proof. unfold log_miss_count. within. Qed.

#[local] Hint Resolve within_collect_keywords within_stale_paths
  within_log_miss_count : within.

Lemma within_cmd_stats ps : writes_within ps cmd_stats.
Proof. unfold cmd_stats. within. Qed.

Lemma within_cmd_file ps fpath : writes_within ps (cmd_file fpath).
Proof. unfold cmd_file. within. Qed.

Lemma within_show_miss ps entry : writes_within ps (show_miss entry).
Proof. unfold show_miss. within. Qed.

#[local] Hint Resolve within_show_miss : within.

Lemma within_cmd_misses ps : writes_within ps cmd_misses.
Proof. unfold cmd_misses. within. Qed.

Lemma within_nil_same {A} (m : M A) w : writes_within [] m → fs (snd (m w)) = fs w.
Proof.
  intros H. apply map_eq. intros p. apply H. apply not_elem_of_nil.
Qed.

(** X21: [cmd_scan], [cmd_file], [cmd_search], [cmd_search_json],
    [cmd_misses] and [cmd_stats] leave every path of the file system as
    it was, whatever the files hold and whether the command returns or
    raises. *)
Theorem reading_commands_never_write (w : world) (fpath query : string)
    (top_n : nat) :
  fs (snd (cmd_scan w)) = fs w
  ∧ fs (snd (cmd_file fpath w)) = fs w
  ∧ fs (snd (cmd_search query w)) = fs w
  ∧ fs (snd (cmd_search_json query top_n w)) = fs w
  ∧ fs (snd (cmd_misses w)) = fs w
  ∧ fs (snd (cmd_stats w)) = fs w.
Proof.
  repeat split; apply within_nil_same.
  - apply within_cmd_scan.
  - apply within_cmd_file.
  - apply within_cmd_search.
  - apply within_cmd_search_json.
  - apply within_cmd_misses.
  - apply within_cmd_stats.
Qed.

Lemma within_mkdir ps name : name ∈ ps → writes_within ps (mkdir name).
Proof.
  intros Hin. unfold mkdir. within. apply within_set_node, Hin.
Qed.

Lemma within_write_text ps path text :
  path ∈ ps → writes_within ps (write_text path text).
Proof.
  intros Hin. unfold write_text. within; apply within_set_node, Hin.
Qed.

Lemma within_mkdir_exist_ok ps name :
  name ∈ ps →
  writes_within ps
    (catch (mkdir name)
       (fun e =>
          if is_os_error e then
            let* d := isdir name in
            if d then ret tt else raise e
          else raise e)).
Proof.
  intros Hin. apply within_catch; [apply within_mkdir, Hin|].
  intros e. within.
Qed.

Lemma within_makedirs_memory ps n :
  "memory" ∈ ps → writes_within ps (makedirs_fuel n "memory").
Proof.
  intros Hin. destruct n; cbn [makedirs_fuel]; rewrite ?dirname_memory;
    cbn [String.eqb negb andb];
    (apply within_bind; [apply within_ret|intros _]);
    apply within_mkdir_exist_ok, Hin.
Qed.

Lemma within_makedirs_meta ps :
  "memory" ∈ ps → "memory/meta" ∈ ps → writes_within ps (makedirs "memory/meta").
Proof.
  intros Hmem Hmeta. unfold makedirs.
  change (String.length "memory/meta") with (S 10). generalize 10%nat as n.
  intros n. rewrite makedirs_fuel_S, dirname_meta, basename_meta.
  cbn [String.eqb negb andb].
  apply within_bind; [|intros _; apply within_mkdir_exist_ok, Hmeta].
  apply within_bind; [apply within_exists|intros there].
  destruct there; [apply within_ret|].
  apply within_try; [apply within_makedirs_memory, Hmem|apply within_ret].
Qed.

Lemma within_save_index index :
  writes_within index_store_paths (save_index index).
Proof.
  unfold save_index. rewrite dirname_index.
  apply within_bind; [|intros _; apply within_write_text].
  - apply within_makedirs_meta; unfold index_store_paths;
      rewrite !elem_of_cons; auto.
  - unfold index_store_paths; rewrite !elem_of_cons; auto.
Qed.

Lemma within_cmd_update fpath smry kws rel :
  writes_within index_store_paths (cmd_update fpath smry kws rel).
Proof.
  unfold cmd_update. within. apply within_save_index.
Qed.


Lemma within_cmd_miss q p r : writes_within miss_log_paths (cmd_miss q p r).
Proof.
  unfold cmd_miss. rewrite dirname_miss_log. within.
  - apply within_makedirs_meta; unfold miss_log_paths;
      rewrite !elem_of_cons; auto.
  - apply within_write_text. unfold miss_log_paths; rewrite !elem_of_cons; auto.
Qed.

(** X22: whatever its arguments and whatever the files hold, [cmd_update]
    changes no path but the index file and the two directories above
    it; so the document it indexes stays as it was. *)
Theorem update_writes_only_the_index_store (fpath smry : string)
    (kws : list string) (rel : option (list string)) (w : world)
    (p : string) :
  p ∉ index_store_paths →
  fs (snd (cmd_update fpath smry kws rel w)) !! p = fs w !! p.
Proof. apply within_cmd_update. Qed.

(** X23: whatever its arguments and whatever the files hold, [cmd_miss]
    changes no path but the miss log and the two directories above it;
    the index and the documents stay as they were. *)
Theorem miss_writes_only_the_miss_log (query expected reason : string)
    (w : world) (p : string) :
  p ∉ miss_log_paths →
  fs (snd (cmd_miss query expected reason w)) !! p = fs w !! p.
Proof. apply within_cmd_miss. Qed.

Lemma within_usage_error ps line : writes_within ps (usage_error line).
Proof. unfold usage_error. within. Qed.

#[local] Hint Resolve within_usage_error within_cmd_scan within_cmd_file
  within_cmd_search within_cmd_search_json within_cmd_misses
  within_cmd_stats : within.

(** X24: from the command line, only [update] and [miss] write: any other
    command line, well formed or not, leaves the file system as it
    was. *)
Theorem only_update_and_miss_write (argv : list string) (w : world) :
  command_of argv ≠ Some "update" → command_of argv ≠ Some "miss" →
  fs (snd (main argv w)) = fs w.
Proof.
  intros Hu Hm. apply within_nil_same.
  destruct argv as [|prog [|cmd args]]; cbn [main]; [within..|].
  cbn [command_of] in Hu, Hm.
  destruct (String.eqb_spec cmd "scan"); [within|].
  destruct (String.eqb_spec cmd "file"); [within|].
  destruct (String.eqb_spec cmd "search"); [within|].
  destruct (String.eqb_spec cmd "search-json"); [within|].
  destruct (String.eqb_spec cmd "update"); [congruence|].
  destruct (String.eqb_spec cmd "miss"); [congruence|].
  destruct (String.eqb_spec cmd "misses"); [within|].
  destruct (String.eqb_spec cmd "stats"); within.
Qed.

(** X25: a command line that lacks an argument its command requires prints
    the usage line of the command and exits with status 1; no file is
    read or written. *)
Theorem missing_argument_exits_with_status_1 (prog cmd : string)
    (args : list string) (n : nat) (w : world) :
  required_arguments cmd = Some n → (length args < n)%nat →
  main (prog :: cmd :: args) w
  = (Raise (SystemExit 1), printed w [usage_line cmd]).
Proof.
  intros Hn Hlen. unfold required_arguments in Hn. unfold usage_line.
  cbn [main].
  destruct (String.eqb_spec cmd "scan") as [->|_]; [discriminate Hn|].
  destruct (String.eqb_spec cmd "file") as [->|_].
  { injection Hn as <-. destruct args; [reflexivity|cbn in Hlen; lia]. }
  destruct (String.eqb_spec cmd "search") as [->|_].
  { injection Hn as <-. destruct args; [reflexivity|cbn in Hlen; lia]. }
  destruct (String.eqb_spec cmd "search-json") as [->|_].
  { injection Hn as <-. destruct args; [reflexivity|cbn in Hlen; lia]. }
  destruct (String.eqb_spec cmd "update") as [->|_].
  { injection Hn as <-.
    destruct args as [|a [|b [|c rest]]]; try reflexivity.
    cbn in Hlen; lia. }
  destruct (String.eqb_spec cmd "miss") as [->|_]; [|discriminate Hn].
  injection Hn as <-.
  destruct args as [|a [|b rest]]; try reflexivity. cbn in Hlen; lia.
Qed.

(** X26: a command line without a command, or with a command that is not
    known, prints the usage text (after the unknown command, if any) and
    exits with status 1; no file is read or written. *)
Theorem unknown_command_exits_with_status_1 (argv : list string)
    (w : world) :
  (∀ cmd, command_of argv = Some cmd → cmd ∉ known_commands) →
  main argv w
  = (Raise (SystemExit 1),
     printed w match command_of argv with
               | Some cmd => [("Unknown command: " ++ cmd)%string; USAGE]
               | None => [USAGE]
               end).
Proof.
  destruct argv as [|prog [|cmd args]]; cbn [command_of];
    [reflexivity..|].
  intros Hk. specialize (Hk cmd eq_refl). unfold known_commands in Hk.
  rewrite !not_elem_of_cons in Hk.
  destruct Hk as (H1 & H2 & H3 & H4 & H5 & H6 & H7 & H8 & _).
  cbn [main].
  repeat match goal with
         | H : cmd ≠ ?c |- _ =>
             apply String.eqb_neq in H; rewrite H; clear H
         end.
  unfold usage_error, bind. rewrite !print_printed, printed_printed.
  reflexivity.
Qed.

(** ** Keywords given on the command line *)

Lemma split_on_aux_length sep cur s :
  length (Str.split_on_aux sep cur s)
  = S (length (List.filter (fun c => Ascii.eqb c sep) (Str.chars s))).
Proof.
  revert cur. induction s as [|c s IH]; intros cur; [reflexivity|].
  cbn [Str.split_on_aux Str.chars list_ascii_of_string List.filter].
  destruct (Ascii.eqb c sep); cbn [length]; rewrite IH; reflexivity.
Qed.

Lemma chars_lstrip s :
  Str.chars (Str.lstrip s) = Path.drop_while Str.isspace (Str.chars s).
Proof.
  induction s as [|c s IH]; [reflexivity|].
  cbn [Str.lstrip Str.chars list_ascii_of_string Path.drop_while].
  destruct (Str.isspace c); [exact IH|reflexivity].
Qed.

Lemma chars_strip s :
  Str.chars (Str.strip s)
  = rev (Path.drop_while Str.isspace
           (rev (Path.drop_while Str.isspace (Str.chars s)))).
Proof.
  unfold Str.strip.
  rewrite JsonFacts.of_chars_chars, chars_lstrip, JsonFacts.of_chars_chars,
    chars_lstrip.
  reflexivity.
Qed.

Lemma drop_while_idem {A} (f : A → bool) l :
  Path.drop_while f (Path.drop_while f l) = Path.drop_while f l.
Proof.
  induction l as [|x l IH]; [reflexivity|]. cbn [Path.drop_while].
  destruct (f x) eqn:E; [exact IH|]. cbn [Path.drop_while]. rewrite E.
  reflexivity.
Qed.

Lemma drop_while_snoc {A} (f : A → bool) l x :
  f x = false →
  Path.drop_while f (l ++ [x]) = Path.drop_while f l ++ [x].
Proof.
  intros Hx. induction l as [|y l IH]; cbn [app Path.drop_while].
  - rewrite Hx. reflexivity.
  - destruct (f y); [exact IH|reflexivity].
Qed.

Lemma drop_while_rev_fixed {A} (f : A → bool) l :
  Path.drop_while f l = l →
  Path.drop_while f (rev (Path.drop_while f (rev l)))
  = rev (Path.drop_while f (rev l)).
Proof.
  destruct l as [|x l]; [reflexivity|]. cbn [Path.drop_while rev].
  destruct (f x) eqn:E.
  - intros H. exfalso.
    assert (Hlen : (length (Path.drop_while f l) ≤ length l)%nat).
    { clear. induction l as [|y l IH]; cbn [Path.drop_while]; [lia|].
      destruct (f y); cbn [length]; lia. }
    rewrite H in Hlen. cbn [length] in Hlen. lia.
  - intros _. rewrite (drop_while_snoc f (rev l) x E), rev_app_distr.
    cbn [rev app Path.drop_while]. rewrite E. reflexivity.
Qed.

Lemma strip_strip s : Str.strip (Str.strip s) = Str.strip s.
Proof.
  assert (H : Str.chars (Str.strip (Str.strip s)) = Str.chars (Str.strip s)).
  { rewrite (chars_strip (Str.strip s)), (chars_strip s).
    set (a := Path.drop_while Str.isspace (Str.chars s)).
    rewrite (drop_while_rev_fixed Str.isspace a) by apply drop_while_idem.
    rewrite rev_involutive, drop_while_idem. reflexivity. }
  apply (f_equal Str.of_chars) in H.
  rewrite !JsonFacts.chars_of_chars in H. exact H.
Qed.

Lemma csv_fields_length field : length (csv_fields field) = S (commas field).
Proof.
  unfold csv_fields, commas, Str.split_on.
  rewrite length_map. apply split_on_aux_length.
Qed.

Lemma csv_fields_stripped field :
  Forall (fun k => Str.strip k = k) (csv_fields field).
Proof.
  unfold csv_fields. apply Forall_forall. intros k Hk.
  apply list_elem_of_fmap in Hk as (x & -> & _). apply strip_strip.
Qed.

(** X27: an update from the command line stores as keywords the fields of
    its comma-separated argument, each without the white space around
    it: one keyword more than there are commas, so never none, and the
    empty argument gives one empty keyword.  With no fourth argument the
    related paths are the empty list. *)
Theorem command_line_update_stores_the_fields (w : world)
    (es : list (string * entry)) (prog fpath text smry csv : string) :
  store_holds w es → text_of w fpath = Some text →
  writable w INDEX_FILE = true →
  ∃ w1 e,
    main [prog; "update"; fpath; smry; csv] w = (Ok tt, w1)
    ∧ store_holds w1 (Dict.set fpath e es)
    ∧ summary e = smry
    ∧ keywords e = csv_fields csv
    ∧ related e = []
    ∧ length (keywords e) = S (commas csv)
    ∧ Forall (fun k => Str.strip k = k) (keywords e).
Proof.
  intros Hs Ht Hw.
  eexists _, (updated_entry fpath text smry (csv_fields csv) (Some [])).
  split.
  { cbn [main String.eqb Ascii.eqb Bool.eqb].
    apply (cmd_update_spec w es fpath text smry _ _ Hs Ht Hw). }
  split; [apply store_holds_stored, dict_set_nodup, Hs|].
  cbn [summary keywords related updated_entry].
  split; [reflexivity|]. split; [reflexivity|]. split; [reflexivity|].
  split; [apply csv_fields_length|apply csv_fields_stripped].
Qed.

(* ===================================================================== *)
(** * Instances on the sample vaults *)
(* ===================================================================== *)

(** ** Instances of the claims on the sample vault *)

Ltac by_compute := vm_compute; reflexivity.
Ltac nodup_compute := apply (bool_decide_unpack _); vm_compute; exact I.

Lemma save_load_round_trip_witness :
  ∃ w1, save_index (index_json sample_entries) sample_vault = (Ok tt, w1)
        ∧ load_index w1 = (Ok (index_json sample_entries), w1).
Proof.
  apply (save_load_round_trip sample_vault sample_entries);
    [nodup_compute|by_compute].
Defined.

Lemma update_missing_document_aborts_witness :
  ∃ w', cmd_update "memory/gone.md" "a note" ["k"] None sample_vault
        = (Raise (SystemExit 1), w')
        ∧ stdout w' = stdout sample_vault
                      ++ [("Error: file not found: " ++ "memory/gone.md")%string]
        ∧ fs w' = fs sample_vault
        ∧ fst (load_index w') = fst (load_index sample_vault).
Proof.
  apply (update_missing_document_aborts sample_vault "memory/gone.md").
  by_compute.
Defined.

Lemma update_overwrites_and_is_idempotent_witness :
  let e := updated_entry "memory/a.md" "notes on rust"
             "notes on rust borrow checker" ["rust"; "memory"] None in
  ∃ w1 w2,
    cmd_update "memory/a.md" "notes on rust borrow checker"
               ["rust"; "memory"] None sample_vault = (Ok tt, w1)
    ∧ store_holds w1 (Dict.set "memory/a.md" e [])
    ∧ Dict.get "memory/a.md" (Dict.set "memory/a.md" e []) = Some e
    ∧ (∀ other, other ≠ "memory/a.md" →
                Dict.get other (Dict.set "memory/a.md" e [])
                = Dict.get other [])
    ∧ stored_hash e = content_hash "notes on rust"
    ∧ summary e = "notes on rust borrow checker"
    ∧ keywords e = ["rust"; "memory"]
    ∧ related e = []
    ∧ cmd_update "memory/a.md" "notes on rust borrow checker"
                 ["rust"; "memory"] None w1 = (Ok tt, w2)
    ∧ store_holds w2 (Dict.set "memory/a.md" e [])
    ∧ fs w2 = fs w1.
Proof.
  apply (update_overwrites_and_is_idempotent sample_vault [] "memory/a.md"
           "notes on rust" "notes on rust borrow checker" ["rust"; "memory"]
           None).
  - split; [constructor|by_compute].
  - by_compute.
  - discriminate.
  - by_compute.
Defined.

Lemma scan_reports_documents_needing_indexing_witness :
  ∃ needs w',
    cmd_scan indexed_vault = (Ok needs, w')
    ∧ fs w' = fs indexed_vault
    ∧ (∀ p, p ∈ needs
            ↔ (is_document indexed_vault p
               ∧ ∃ t, text_of indexed_vault p = Some t
                      ∧ needs_indexing sample_entries p t = true))
    ∧ StronglySorted (λ a b, Str.leb a b = true) needs
    ∧ NoDup needs
    ∧ (∀ p t smry kws rel,
         is_document indexed_vault p → text_of indexed_vault p = Some t →
         writable indexed_vault INDEX_FILE = true →
         ∃ w1 needs1 w2,
           cmd_update p smry kws rel indexed_vault = (Ok tt, w1)
           ∧ cmd_scan w1 = (Ok needs1, w2)
           ∧ (p ∉ needs1)
           ∧ (∀ t', content_hash t' ≠ content_hash t →
                    ∃ needs2 w3,
                      cmd_scan (with_fs w1 (<[p := File (Text t')]> (fs w1)))
                      = (Ok needs2, w3)
                      ∧ p ∈ needs2)).
Proof.
  apply (scan_reports_documents_needing_indexing indexed_vault sample_entries).
  - split; [apply (bool_decide_unpack _); vm_compute; exact I|by_compute].
  - apply documents_readable_check. by_compute.
Defined.

Example scan_indexed_vault :
  fst (cmd_scan indexed_vault) = Ok ["memory/sub/b.md"].
Proof. by_compute. Qed.

Lemma miss_appends_one_record_witness :
  let log := [miss_record "2026-03-01T08:00:00+00:00" "borrow"
                          "memory/a.md" "";
              miss_record "2026-03-02T09:30:00.000250+00:00"
                          "standup" "memory/sub/b.md" "typo"] in
  let record :=
    miss_record (isoformat (clock logged_vault)) "ownership" "memory/a.md"
                "no keyword" in
  ∃ w',
    cmd_miss "ownership" "memory/a.md" "no keyword" logged_vault = (Ok tt, w')
    ∧ miss_log_holds w' (log ++ [record])
    ∧ fs w' !! MISS_LOG_FILE
      = Some (File (Text (Json.dumps (JArr (log ++ [record])))))
    ∧ (∃ body, isoformat (clock logged_vault) = (body ++ "+00:00")%string)
    ∧ (fs logged_vault !! MISS_LOG_FILE = None → miss_log_holds w' [record]).
Proof.
  apply (miss_appends_one_record logged_vault _ "ownership" "memory/a.md"
           "no keyword"); by_compute.
Defined.

Example first_miss_makes_the_log :
  let w' := snd (cmd_miss "ownership" "memory/a.md" "" sample_vault) in
  fst (cmd_miss "ownership" "memory/a.md" "" sample_vault) = Ok tt
  ∧ option_map (fun n => match n with
                         | File (Text s) => Json.loads s
                         | _ => None
                         end) (fs w' !! MISS_LOG_FILE)
    = Some (Some (JArr [miss_record "2026-03-14T12:00:00+00:00" "ownership"
                                    "memory/a.md" ""])).
Proof. split; by_compute. Qed.

Lemma search_scores_filters_and_ranks_witness :
  ∃ results out w1 w2,
    cmd_search "rust ownership" indexed_vault = (Ok results, w1)
    ∧ cmd_search_json "rust ownership" 10 indexed_vault = (Ok out, w2)
    ∧ (∀ s p j, (s, p, j) ∈ results
                ↔ (∃ e, (p, e) ∈ sample_entries ∧ j = entry_json e
                        ∧ s = spec_score "rust ownership" e ∧ (0 < s)%Q))
    ∧ StronglySorted (λ a b, (fst (fst b) <= fst (fst a))%Q) results
    ∧ List.map (λ c, (keyword_score c, cand_path c)) (candidates out)
      = List.map (λ r, (fst (fst r), snd (fst r))) (firstn 10 results)
    ∧ (∀ e w0,
         keywords e = ["rust"; "memory"] →
         summary e = "notes on rust borrow checker" →
         entry_score (query_terms_of "rust ownership") (entry_json e) w0
         = (Ok (3 # 2)%Q, w0)).
Proof.
  apply (search_scores_filters_and_ranks indexed_vault sample_entries
           "rust ownership" 10).
  split; [apply (bool_decide_unpack _); vm_compute; exact I|by_compute].
Defined.

Lemma multiword_keyword_never_matches_witness :
  let e := {| source_path := "memory/a.md"; stored_hash := "";
              summary := "notes"; keywords := ["borrow checker"; "rust"];
              related := [] |} in
  (Str.lower "borrow checker" ∉ query_terms_of "borrow checker")
  ∧ (∃ m, matched_keywords (query_terms_of "borrow checker") (entry_json e)
            sample_vault = (Ok m, sample_vault)
          ∧ Str.lower "borrow checker" ∉ m)
  ∧ entry_score (query_terms_of "borrow checker") (entry_json e) sample_vault
    = entry_score (query_terms_of "borrow checker")
                  (entry_json (without_keyword "borrow checker" e))
                  sample_vault.
Proof.
  apply (multiword_keyword_never_matches "borrow checker" "borrow checker").
  by_compute.
Defined.

Example search_scenario :
  fst (cmd_search "rust ownership" indexed_vault)
  = Ok [((3 # 2)%Q, "memory/a.md", entry_json rust_entry)].
Proof. by_compute. Qed.

Example search_json_scenario :
  option_map (fun o => List.map (fun c => (cand_path c, keyword_score c,
                                           cand_matched c))
                                (candidates o))
             (match fst (cmd_search_json "rust ownership" 10 indexed_vault) with
              | Ok o => Some o
              | Raise _ => None
              end)
  = Some [("memory/a.md", (3 # 2)%Q, ["rust"])].
Proof. by_compute. Qed.

Example summary_only_scenario :
  spec_score "daily notes"
             {| source_path := "memory/d.md"; stored_hash := "";
                summary := "daily standup notes"; keywords := [];
                related := [] |}
  = (2 # 2)%Q.
Proof. by_compute. Qed.

Lemma stats_counts_stale_entries_and_keywords_witness :
  ∃ r out w',
    cmd_stats stale_vault = (r, w')
    ∧ stdout w' = stdout stale_vault ++ stats_lines stale_vault three_entries
                  ++ out
    ∧ fs w' = fs stale_vault
    ∧ store_holds w' three_entries
    ∧ (∀ p, p ∈ stale_entries stale_vault three_entries
            ↔ (p ∈ List.map fst three_entries
               ∧ file_exists stale_vault p = false))
    ∧ (stale_entries stale_vault three_entries ≠ [] →
       stale_line (length (stale_entries stale_vault three_entries))
       ∈ stats_lines stale_vault three_entries)
    ∧ (length three_entries = 3%nat →
       length (stale_entries stale_vault three_entries) = 1%nat →
       stale_line 1 ∈ stats_lines stale_vault three_entries)
    ∧ (∀ k, k ∈ all_keywords_of three_entries
            ↔ ∃ p e kw, (p, e) ∈ three_entries ∧ kw ∈ keywords e
                        ∧ k = Str.lower kw)
    ∧ ("Unique keywords:  "
       ++ Py.nat_str (size (all_keywords_of three_entries)))%string
      ∈ stats_lines stale_vault three_entries.
Proof.
  apply (stats_counts_stale_entries_and_keywords stale_vault three_entries).
  split; [apply (bool_decide_unpack _); vm_compute; exact I|by_compute].
Defined.

Example stats_scenario :
  cmd_stats stale_vault
  = (Ok tt,
     printed stale_vault
       ["Vault files:      2";
        "Indexed:          3";
        "Unique keywords:  5";
        "Stale entries:    1 (indexed file no longer exists)";
        "Sample keywords:  daily, memory, old, rust, standup"]).
Proof. by_compute. Qed.

(** ** Instances of the further properties *)

Ltac by_decide := apply (bool_decide_unpack _); vm_compute; exact I.

Lemma update_writes_only_the_index_store_witness :
  fs (snd (cmd_update "memory/a.md" "notes" ["rust"] None sample_vault))
    !! "memory/a.md"
  = fs sample_vault !! "memory/a.md".
Proof. apply update_writes_only_the_index_store. by_decide. Defined.

Lemma miss_writes_only_the_miss_log_witness :
  fs (snd (cmd_miss "ownership" "memory/a.md" "" indexed_vault)) !! INDEX_FILE
  = fs indexed_vault !! INDEX_FILE.
Proof. apply miss_writes_only_the_miss_log. by_decide. Defined.

Lemma only_update_and_miss_write_witness :
  fs (snd (main ["index-vault.py"; "stats"] stale_vault)) = fs stale_vault.
Proof. apply only_update_and_miss_write; discriminate. Defined.

Lemma missing_argument_exits_with_status_1_witness :
  main ["index-vault.py"; "update"; "memory/a.md"; "notes"] sample_vault
  = (Raise (SystemExit 1),
     printed sample_vault [usage_line "update"]).
Proof.
  apply (missing_argument_exits_with_status_1 _ "update" _ 3);
    [reflexivity|cbn; lia].
Defined.

Lemma unknown_command_exits_with_status_1_witness :
  main ["index-vault.py"; "reindex"] sample_vault
  = (Raise (SystemExit 1),
     printed sample_vault ["Unknown command: reindex"; USAGE]).
Proof.
  apply (unknown_command_exits_with_status_1 ["index-vault.py"; "reindex"]).
  intros cmd [= <-]. by_decide.
Defined.

Lemma save_index_makes_the_directories_witness :
  ∃ w1, save_index empty_index (one_note "a note") = (Ok tt, w1)
        ∧ fs w1 !! "memory" = Some Dir
        ∧ fs w1 !! "memory/meta" = Some Dir
        ∧ fs w1 !! INDEX_FILE = Some (File (Text (Json.dumps empty_index)))
        ∧ (∀ p, p ∉ index_store_paths →
                fs w1 !! p = fs (one_note "a note") !! p)
        ∧ stdout w1 = stdout (one_note "a note").
Proof. apply save_index_makes_the_directories. by_compute. Defined.

Lemma save_index_blocked_by_a_file_witness :
  save_index empty_index meta_is_a_file
  = (Raise FileExistsError, meta_is_a_file)
  ∧ save_index empty_index memory_is_a_file
    = (Raise NotADirectoryError, memory_is_a_file).
Proof.
  split.
  - apply (proj1 (save_index_blocked_by_a_file empty_index meta_is_a_file
                    (Text ""))); by_compute.
  - apply (proj2 (save_index_blocked_by_a_file empty_index memory_is_a_file
                    (Text ""))); by_compute.
Defined.

Lemma index_of_another_shape_is_not_replaced_witness :
  load_index list_as_index = (Ok (JArr []), list_as_index)
  ∧ cmd_search "rust" list_as_index = (Raise TypeError, list_as_index)
  ∧ cmd_search_json "rust" 10 list_as_index = (Raise TypeError, list_as_index)
  ∧ cmd_update "memory/a.md" "notes" ["rust"] None list_as_index
    = (Raise TypeError, list_as_index).
Proof.
  apply (index_of_another_shape_is_not_replaced list_as_index "[]" (JArr [])
           TypeError "rust" 10 "memory/a.md" "notes on rust" "notes"
           ["rust"] None); by_compute.
Defined.

Lemma update_keeps_the_other_entries_in_place_witness :
  ∃ w1 es1,
    cmd_update "memory/sub/b.md" "standup notes" ["standup"; "daily"] None
               indexed_vault = (Ok tt, w1)
    ∧ store_holds w1 es1
    ∧ List.map fst es1
      = (if bool_decide ("memory/sub/b.md" ∈ List.map fst sample_entries)
         then List.map fst sample_entries
         else List.map fst sample_entries ++ ["memory/sub/b.md"])
    ∧ (∀ other, other ≠ "memory/sub/b.md" →
                Dict.get other es1 = Dict.get other sample_entries)
    ∧ stdout w1
      = stdout indexed_vault
        ++ [("Indexed: " ++ "memory/sub/b.md" ++ " ("
             ++ Py.nat_str (length ["standup"; "daily"]) ++ " keywords)")%string].
Proof.
  apply (update_keeps_the_other_entries_in_place indexed_vault sample_entries
           "memory/sub/b.md" "daily standup").
  - split; [by_decide|by_compute].
  - by_compute.
  - by_compute.
Defined.

Lemma scan_after_indexing_everything_witness :
  ∃ needs w1 w2 w3,
    cmd_scan indexed_vault = (Ok needs, w1)
    ∧ index_all same_for_all needs w1 = (Ok tt, w2)
    ∧ cmd_scan w2 = (Ok [], w3)
    ∧ List.last (stdout w3) "" = "All files indexed and up to date.".
Proof.
  apply (scan_after_indexing_everything same_for_all indexed_vault
           sample_entries).
  - split; [by_decide|by_compute].
  - apply documents_readable_check. by_compute.
  - by_compute.
Defined.

Lemma scan_aborts_on_unreadable_document_witness :
  ∃ e w',
    cmd_scan directory_note_vault = (Raise e, w')
    ∧ (e = IsADirectoryError ∨ e = UnicodeDecodeError)
    ∧ fs w' = fs directory_note_vault.
Proof.
  apply (scan_aborts_on_unreadable_document directory_note_vault []
           "memory/archive.md").
  - split; [constructor|by_compute].
  - split; [by_compute|]. exists Dir. by_compute.
  - by_compute.
Defined.

Lemma query_without_words_matches_nothing_witness :
  cmd_search "   " indexed_vault
  = (Ok [], printed indexed_vault [("No matches for: " ++ "   ")%string])
  ∧ ∃ out w1,
      cmd_search_json "   " 10 indexed_vault = (Ok out, w1)
      ∧ out_query_terms out = [] ∧ candidate_count out = 0%nat
      ∧ candidates out = [].
Proof.
  apply (query_without_words_matches_nothing indexed_vault sample_entries).
  - split; [by_decide|by_compute].
  - reflexivity.
Defined.

Lemma search_depends_on_the_set_of_terms_witness :
  fst (cmd_search "Rust  checker" stale_vault)
  = fst (cmd_search "checker rust RUST" stale_vault)
  ∧ ∃ out out' w1 w1',
      cmd_search_json "Rust  checker" 10 stale_vault = (Ok out, w1)
      ∧ cmd_search_json "checker rust RUST" 10 stale_vault = (Ok out', w1')
      ∧ candidates out = candidates out'
      ∧ candidate_count out = candidate_count out'
      ∧ out_query_terms out = out_query_terms out'.
Proof.
  apply (search_depends_on_the_set_of_terms stale_vault three_entries).
  - split; [by_decide|by_compute].
  - by_decide.
Defined.

Lemma equal_scores_keep_index_order_witness :
  ∃ results w1,
    cmd_search "notes" stale_vault = (Ok results, w1)
    ∧ ∀ s, (0 < s)%Q →
           List.map (fun r => snd (fst r))
                    (List.filter (has_score s) results)
           = paths_scoring "notes" s three_entries.
Proof.
  apply (equal_scores_keep_index_order stale_vault three_entries).
  split; [by_decide|by_compute].
Defined.

Lemma structured_mode_keeps_top_n_witness :
  ∃ results out w1 w2,
    cmd_search "rust notes" stale_vault = (Ok results, w1)
    ∧ cmd_search_json "rust notes" 1 stale_vault = (Ok out, w2)
    ∧ candidate_count out = Nat.min 1 (length results)
    ∧ length (candidates out) = candidate_count out.
Proof.
  apply (structured_mode_keeps_top_n stale_vault three_entries).
  split; [by_decide|by_compute].
Defined.

Lemma miss_on_a_log_that_is_no_list_fails_witness :
  cmd_miss "ownership" "memory/a.md" "" object_as_miss_log
  = (Raise AttributeError, object_as_miss_log).
Proof.
  apply (miss_on_a_log_that_is_no_list_fails object_as_miss_log "{}"
           (JObj [])); [by_compute|by_compute|discriminate].
Defined.


Lemma misses_shows_the_logged_miss_witness :
  ∃ w1 w2,
    cmd_miss "ownership" "memory/a.md" "no keyword" logged_vault = (Ok tt, w1)
    ∧ cmd_misses w1 = (Ok tt, w2)
    ∧ stdout w2
      = stdout w1
        ++ misses_header (S (length logged_misses))
        :: flat_map miss_lines
             (logged_misses
              ++ [logged_miss (clock logged_vault) "ownership" "memory/a.md"
                              "no keyword"]).
Proof.
  apply (misses_shows_the_logged_miss logged_vault logged_misses);
    by_compute.
Defined.

Lemma stats_counts_the_logged_miss_witness :
  ∃ w1 w2,
    cmd_miss "ownership" "memory/a.md" "" stale_vault = (Ok tt, w1)
    ∧ store_holds w1 three_entries
    ∧ cmd_stats w1 = (Ok tt, w2)
    ∧ stdout w2
      = stdout w1 ++ stats_lines w1 three_entries
        ++ [logged_misses_line (S (length (@nil json)))].
Proof.
  apply (stats_counts_the_logged_miss stale_vault three_entries []).
  - split; [by_decide|by_compute].
  - by_compute.
  - reflexivity.
  - by_compute.
Defined.

Lemma command_line_update_stores_the_fields_witness :
  ∃ w1 e,
    main ["index-vault.py"; "update"; "memory/sub/b.md"; "standup notes";
          " standup , daily,"] indexed_vault = (Ok tt, w1)
    ∧ store_holds w1 (Dict.set "memory/sub/b.md" e sample_entries)
    ∧ summary e = "standup notes"
    ∧ keywords e = csv_fields " standup , daily,"
    ∧ related e = []
    ∧ length (keywords e) = S (commas " standup , daily,")
    ∧ Forall (fun k => Str.strip k = k) (keywords e).
Proof.
  apply (command_line_update_stores_the_fields indexed_vault sample_entries
           "index-vault.py" "memory/sub/b.md" "daily standup").
  - split; [by_decide|by_compute].
  - by_compute.
  - by_compute.
Defined.

(** The commands on the sample vaults. *)

Example file_of_a_note :
  cmd_file "memory/a.md" sample_vault
  = (Ok tt, printed sample_vault
              ["notes on rust";
               (Py.nl ++ "Content hash: d894bc32bc35a07d")%string]).
Proof. by_compute. Qed.

Example csv_fields_examples :
  csv_fields " standup , daily," = ["standup"; "daily"; ""]
  ∧ csv_fields "" = [""]
  ∧ csv_fields "borrow checker,rust" = ["borrow checker"; "rust"].
Proof. repeat split; reflexivity. Qed.

Example misses_of_the_logged_vault :
  stdout (snd (cmd_misses logged_vault))
  = [("Miss log: 2 entries" ++ Py.nl)%string;
     "  [2026-03-01] query: borrow";
     "    expected: memory/a.md";
     "";
     "  [2026-03-02] query: standup";
     "    expected: memory/sub/b.md";
     "    reason: typo";
     ""].
Proof. by_compute. Qed.

Example ties_in_the_stale_vault :
  List.map (fun r => snd (fst r)) (spec_ranking "notes" three_entries)
  = ["memory/a.md"; "memory/sub/b.md"]
  ∧ paths_scoring "notes" (1 # 2) three_entries
    = ["memory/a.md"; "memory/sub/b.md"].
Proof. split; by_compute. Qed.

Example scan_of_the_directory_note :
  fst (cmd_scan directory_note_vault) = Raise IsADirectoryError.
Proof. by_compute. Qed.

Example vault_files_of_the_directory_note :
  fst (vault_files directory_note_vault)
  = Ok ["memory/a.md"; "memory/archive.md"; "memory/sub/b.md"].
Proof. by_compute. Qed.

Lemma undecodable_index_blocks_the_commands_witness :
  let w := with_fs sample_vault
             (<[INDEX_FILE := File Undecodable]> (fs sample_vault)) in
  cmd_scan w = (Raise UnicodeDecodeError, w)
  ∧ cmd_search "rust" w = (Raise UnicodeDecodeError, w)
  ∧ cmd_search_json "rust" 10 w = (Raise UnicodeDecodeError, w)
  ∧ cmd_stats w = (Raise UnicodeDecodeError, w)
  ∧ cmd_update "memory/a.md" "notes" ["rust"] None w
    = (Raise UnicodeDecodeError, w).
Proof.
  apply undecodable_index_blocks_the_commands; vm_compute; reflexivity.
Defined.

Lemma indexed_keyword_is_found_witness :
  ∃ w1 results w2,
    cmd_update "memory/sub/b.md" "standup notes" ["Standup"; "daily"] None
               indexed_vault = (Ok tt, w1)
    ∧ cmd_search " STANDUP " w1 = (Ok results, w2)
    ∧ ∃ s entry, (s, "memory/sub/b.md", entry) ∈ results ∧ (1 <= s)%Q.
Proof.
  apply (indexed_keyword_is_found indexed_vault sample_entries
           "memory/sub/b.md" "daily standup" "standup notes" "Standup"
           " STANDUP ").
  - split; [apply (bool_decide_unpack _); vm_compute; exact I
           |vm_compute; reflexivity].
  - vm_compute; reflexivity.
  - vm_compute; reflexivity.
  - left.
  - reflexivity.
Defined.

(* ===================================================================== *)
(** * Checks of the embedding on known values *)
(* ===================================================================== *)

Example sha256_empty :
  Sha256.hexdigest []
  = "e3b0c44298fc1c149afbf4c8996fb92427ae41e4649b934ca495991b7852b855".
Proof. vm_compute. reflexivity. Qed.

Example sha256_abc :
  Sha256.hexdigest (Sha256.utf8_encode "abc")
  = "ba7816bf8f01cfea414140de5dae2223b00361a396177a9cb410ff61f20015ad".
Proof. vm_compute. reflexivity. Qed.

Example split_example :
  Str.split (Str.lower "  Rust   Ownership ") = ["rust"; "ownership"].
Proof. reflexivity. Qed.

Example dumps_example :
  Json.loads (Json.dumps (JObj [("version", JInt 1); ("entries", JObj []);
                                ("k", JArr [JStr "a b"; JNull; JInt (-20)])]))
  = Some (JObj [("version", JInt 1); ("entries", JObj []);
                ("k", JArr [JStr "a b"; JNull; JInt (-20)])]).
Proof. vm_compute. reflexivity. Qed.

Example dumps_empty_index :
  Json.dumps empty_index
  = with_quotes "{
  'version': 1,
  'entries': {}
}".
Proof. vm_compute. reflexivity. Qed.

Example loads_escapes_and_numbers :
  Json.loads (with_quotes "{'a': [1, -0, 2.5, 1e3, true, null, 'xA\t\/'],
                            'a': {}, 'b': NaN}")
  = Some (JObj [("a", JObj []); ("b", JFloat "NaN")]).
Proof. vm_compute. reflexivity. Qed.

Example loads_list :
  Json.loads (with_quotes " [1, -0, 2.5, 1e3, true, null, 'xA\/'] ")
  = Some (JArr [JInt 1; JInt 0; JFloat "2.5"; JFloat "1e3"; JBool true;
                JNull; JStr "xA/"]).
Proof. vm_compute. reflexivity. Qed.

Example loads_refuses :
  List.map Json.loads
           [""; "[1,]"; "01"; "{1: 2}"; "[1] x"; "nul"; "1."; "-";
            with_quotes "'open"; with_quotes "{'a' 1}"]
  = [None; None; None; None; None; None; None; None; None; None].
Proof. vm_compute. reflexivity. Qed.

Example vault_pattern :
  List.map Path.matches_vault_md
           ["memory/a.md"; "memory/sub/deep/n.md"; "memory/.hidden/x.md";
            "memory/.x.md"; "memory/notes.txt"; "other/a.md"; "memory";
            "memory/meta/semantic-index.json"; "memory/meta/miss-log.json"]
  = [true; true; false; false; false; false; false; false; false].
Proof. vm_compute. reflexivity. Qed.

Example dirname_examples :
  List.map Path.dirname [INDEX_FILE; "memory/meta"; "memory"; "/a"; "a//b"]
  = ["memory/meta"; "memory"; ""; "/"; "a"].
Proof. vm_compute. reflexivity. Qed.

Example isoformat_examples :
  isoformat noon = "2026-03-14T12:00:00+00:00"
  ∧ isoformat {| year := 2026; month := 11; day := 4; hour := 9; minute := 5;
                 second := 7; microsecond := 250 |}
    = "2026-11-04T09:05:07.000250+00:00".
Proof. split; vm_compute; reflexivity. Qed.

Example format_score_examples :
  List.map format_score [(3 # 2)%Q; (2 # 2)%Q; (1 # 2)%Q; (25 # 2)%Q]
  = ["1.5"; "1.0"; "0.5"; "12.5"].
Proof. vm_compute. reflexivity. Qed.

Example lower_and_split :
  Str.lower "Borrow CHECKER" = "borrow checker"
  ∧ Str.split "  daily   standup
notes " = ["daily"; "standup"; "notes"]
  ∧ Str.has_space "borrow checker" = true.
Proof. repeat split; vm_compute; reflexivity. Qed.
